(** * PyGenesys model database builder: a shallow embedding of
      [pygenesys/utils/db_creator.py]

    The Python module writes a Temoa input database table by table.  Each
    [create_*] function computes a list of rows from the in-memory model
    description, issues one [CREATE TABLE] and then bulk-inserts the rows.

    Modelling choices

    - Python [int]s are [Z].  A Python [float] (a cost, a capacity, a
      lifetime, a fraction) is modelled by the rational number [Q] it
      denotes.  The module copies floats into rows, compares them and
      multiplies them by 1.0 (the broadcast of a constant capacity factor),
      all of which is exact; the one float that is computed with rounding,
      the slice weight [1/(n*m)], is rounded to binary64 by [truediv].
    - A Python [dict] is an association list in insertion order, because the
      order of iteration decides the order of the emitted rows.
    - A raised exception is the [Raise] case of [result]; the SQLite
      connection is the explicit [database] state threaded through the calls.
    - SQLite enforces PRIMARY KEY and CHECK constraints.  FOREIGN KEY
      clauses are declared by the schemas but not enforced (the module never
      issues [PRAGMA foreign_keys = ON]), so they are not part of [insert].
    - [tbl_rows] lists the rows of a table in the order in which they were
      inserted.  That is also the order in which SQLite returns them, except
      for time_periods: its key is an INTEGER PRIMARY KEY, and its rows come
      back by ascending year.
    - The years handed in by the caller are taken to be integers that SQLite
      can hold (64 bits).  [create_time_periods] computes two years of its
      own and is modelled with the conversion written out
      ([executemany_bound]).
    - An [itertools.product] object is a one-shot iterator: it is modelled by
      the list of the pairs it has not yielded yet, and [zip] returns what is
      left of it. *)

From Stdlib Require Import String Ascii ZArith QArith Bool Arith Lia List.
From Stdlib Require Import DecimalString DecimalZ Finite Sorted Permutation.
From Stdlib Require Import ListDec Qround Qabs Qpower Lqa.
Import ListNotations.

Local Open Scope string_scope.
Local Open Scope list_scope.

(** ** Exceptions and the error monad *)

Inductive exn : Type :=
| KeyError          (* d[k] with k absent *)
| IndexError        (* l[0] or l[-1] on an empty sequence *)
| OperationalError  (* CREATE of an existing table, INSERT into a missing one *)
| IntegrityError    (* PRIMARY KEY or CHECK constraint failed *)
| OverflowError     (* an int that SQLite cannot hold, a quotient no float holds *)
| ZeroDivisionError.  (* a / 0 *)

Inductive result (A : Type) : Type :=
| Ok (a : A)
| Raise (e : exn).

Arguments Ok {A} a.
Arguments Raise {A} e.

Definition bind {A B : Type} (m : result A) (k : A -> result B) : result B :=
  match m with
  | Ok a => k a
  | Raise e => Raise e
  end.

Notation "x <- m ;; k" := (bind m (fun x => k))
  (at level 61, m at next level, right associativity).

Definition is_ok {A : Type} (m : result A) : bool :=
  match m with Ok _ => true | Raise _ => false end.

Fixpoint mapM {A B : Type} (f : A -> result B) (l : list A) : result (list B) :=
  match l with
  | [] => Ok []
  | a :: l' => b <- f a ;; bs <- mapM f l' ;; Ok (b :: bs)
  end.

(** ** Python containers *)

Definition dict (K V : Type) : Type := list (K * V).

Fixpoint dict_get {K V : Type} (eqb : K -> K -> bool) (k : K) (d : dict K V)
  : option V :=
  match d with
  | [] => None
  | (k', v) :: d' => if eqb k k' then Some v else dict_get eqb k d'
  end.

(** [d[k]] *)
Definition getitem {K V : Type} (eqb : K -> K -> bool) (d : dict K V) (k : K)
  : result V :=
  match dict_get eqb k d with
  | Some v => Ok v
  | None => Raise KeyError
  end.

(** [d.keys()], also the order of [for k in d] *)
Definition keys {K V : Type} (d : dict K V) : list K := map fst d.

Definition sdict (V : Type) : Type := dict string V.
Definition zdict (V : Type) : Type := dict Z V.

Definition sget {V : Type} (d : sdict V) (k : string) : result V :=
  getitem String.eqb d k.
Definition zget {V : Type} (d : zdict V) (k : Z) : result V :=
  getitem Z.eqb d k.

(** [l[0]] and [l[-1]] *)
Definition first {A : Type} (l : list A) : result A :=
  match l with
  | [] => Raise IndexError
  | a :: _ => Ok a
  end.

Fixpoint final {A : Type} (l : list A) : result A :=
  match l with
  | [] => Raise IndexError
  | [a] => Ok a
  | _ :: l' => final l'
  end.

(** [range(n)] *)
Definition range (n : Z) : list Z := map Z.of_nat (seq 0 (Z.to_nat n)).

(** [str(i)] for an integer *)
Definition str (i : Z) : string := NilEmpty.string_of_int (Z.to_int i).

(** [zip(data, it)] where [it] is a one-shot iterator.  [zip] asks [data]
    first and stops as soon as one side is exhausted; the second component
    is what the iterator still holds afterwards. *)
Fixpoint zip_iter {A B : Type} (data : list A) (it : list B)
  : list (A * B) * list B :=
  match data with
  | [] => ([], it)
  | d :: data' =>
      match it with
      | [] => ([], [])
      | t :: it' =>
          let (ps, rest) := zip_iter data' it' in ((d, t) :: ps, rest)
      end
  end.

(** ** Floats

    A Python [float] is an IEEE 754 binary64 number.  A finite one is
    [m * 2^e] for integers [|m| <= 2^53] and [-1074 <= e <= 971]; it is
    modelled by the rational number it denotes. *)

Definition pow2 (e : Z) : Q := 2 ^ e.

(** Rounding to the nearest integer, a half going to the even neighbour. *)
Definition round_half_even (q : Q) : Z :=
  let f := Qfloor q in
  match Qcompare (q - inject_Z f) (1 # 2) with
  | Lt => f
  | Gt => (f + 1)%Z
  | Eq => if Z.even f then f else (f + 1)%Z
  end.

(** [floor(log2 q)] for [q > 0] *)
Definition floor_log2 (q : Q) : Z :=
  let k := (Z.log2 (Qnum q) - Z.log2 (Zpos (Qden q)))%Z in
  if Qle_bool (pow2 k) q then k else (k - 1)%Z.

(** The float nearest to [q], a tie going to the even significand: the
    result has 53 significant bits, the last of them worth at least
    [2^-1074].  [None] when the result is beyond the largest float. *)
Definition nearest_float (q : Q) : option Q :=
  let a := Qabs q in
  if Qeq_bool a 0 then Some 0
  else
    let e := Z.max (floor_log2 a - 52) (-1074) in
    let m := round_half_even (a / pow2 e) in
    let r := inject_Z m * pow2 e in
    if Qle_bool (pow2 1024) r then None
    else Some (if Qle_bool 0 q then r else - r).

(** [a / b] on integers: the quotient is rounded once, to the nearest
    float. *)
Definition truediv (a b : Z) : result Q :=
  if (b =? 0)%Z then Raise ZeroDivisionError
  else match nearest_float (inject_Z a / inject_Z b) with
       | Some x => Ok x
       | None => Raise OverflowError
       end.

(** ** The SQLite store *)

Inductive sqlval : Type :=
| VText (s : string)
| VInt (z : Z)
| VReal (q : Q).

Definition row : Type := list sqlval.

Definition sqlval_eqb (a b : sqlval) : bool :=
  match a, b with
  | VText s, VText t => String.eqb s t
  | VInt x, VInt y => Z.eqb x y
  | VReal p, VReal q => Qeq_bool p q
  | _, _ => false
  end.

Fixpoint key_eqb (k1 k2 : list sqlval) : bool :=
  match k1, k2 with
  | [], [] => true
  | a :: k1', b :: k2' => sqlval_eqb a b && key_eqb k1' k2'
  | _, _ => false
  end.

(** A schema keeps what SQLite checks on insertion: the positions of the
    PRIMARY KEY columns (empty when the table declares none) and the CHECK
    constraint. *)
Record schema : Type := {
  sch_pk : list nat;
  sch_check : row -> bool
}.

Record table : Type := {
  tbl_schema : schema;
  tbl_rows : list row
}.

Definition database : Type := list (string * table).

Definition column (i : nat) (r : row) : sqlval := nth i r (VText "").

Definition key_of (sch : schema) (r : row) : list sqlval :=
  map (fun i => column i r) (sch_pk sch).

Definition key_mem (sch : schema) (r : row) (rows : list row) : bool :=
  match sch_pk sch with
  | [] => false
  | _ => existsb (fun r' => key_eqb (key_of sch r) (key_of sch r')) rows
  end.

Definition lookup_table (name : string) (db : database) : option table :=
  dict_get String.eqb name db.

Fixpoint set_table (name : string) (t : table) (db : database) : database :=
  match db with
  | [] => []
  | (n, t') :: db' =>
      if String.eqb name n then (n, t) :: db' else (n, t') :: set_table name t db'
  end.

(** [cursor.execute(table_command)] for a [CREATE TABLE] statement *)
Definition execute (name : string) (sch : schema) (db : database)
  : result database :=
  match lookup_table name db with
  | Some _ => Raise OperationalError
  | None => Ok (db ++ [(name, {| tbl_schema := sch; tbl_rows := [] |})])
  end.

Fixpoint insert (sch : schema) (old new : list row) : result (list row) :=
  match new with
  | [] => Ok old
  | r :: new' =>
      if sch_check sch r && negb (key_mem sch r old)
      then insert sch (old ++ [r]) new'
      else Raise IntegrityError
  end.

(** [cursor.executemany(insert_command, entries)] *)
Definition executemany (name : string) (entries : list row) (db : database)
  : result database :=
  match lookup_table name db with
  | None => Raise OperationalError
  | Some t =>
      rows <- insert (tbl_schema t) (tbl_rows t) entries ;;
      Ok (set_table name {| tbl_schema := tbl_schema t; tbl_rows := rows |} db)
  end.

(** The rows of a table, [None] when the table does not exist. *)
Definition rows_of (name : string) (db : database) : option (list row) :=
  option_map tbl_rows (lookup_table name db).

(** The sqlite3 module hands a Python [int] to SQLite as a 64-bit signed
    integer; binding any other [int] raises OverflowError. *)
Definition int64 (z : Z) : bool := (- 2 ^ 63 <=? z)%Z && (z <? 2 ^ 63)%Z.

Definition bindable (r : row) : bool :=
  forallb (fun v => match v with VInt z => int64 z | _ => true end) r.

(** [executemany] with the binding written out: a row is bound and then
    inserted before the next row is looked at. *)
Fixpoint insert_bound (sch : schema) (old new : list row) : result (list row) :=
  match new with
  | [] => Ok old
  | r :: new' =>
      if bindable r
      then if sch_check sch r && negb (key_mem sch r old)
           then insert_bound sch (old ++ [r]) new'
           else Raise IntegrityError
      else Raise OverflowError
  end.

Definition executemany_bound (name : string) (entries : list row)
    (db : database) : result database :=
  match lookup_table name db with
  | None => Raise OperationalError
  | Some t =>
      rows <- insert_bound (tbl_schema t) (tbl_rows t) entries ;;
      Ok (set_table name {| tbl_schema := tbl_schema t; tbl_rows := rows |} db)
  end.

Definition no_check : row -> bool := fun _ => true.

(** [CHECK(col >= 0 AND col <= 1)] on column [i] *)
Definition check_unit_interval (i : nat) (r : row) : bool :=
  match column i r with
  | VReal q => Qle_bool 0 q && Qle_bool q 1
  | VInt z => (0 <=? z)%Z && (z <=? 1)%Z
  | VText _ => false
  end.

(** [CHECK(col > 0)] on column [i] *)
Definition check_positive (i : nat) (r : row) : bool :=
  match column i r with
  | VReal q => negb (Qle_bool q 0)
  | VInt z => (0 <? z)%Z
  | VText _ => true
  end.

(** ** Time structure *)

Definition time_season_schema : schema :=
  {| sch_pk := [0%nat]; sch_check := no_check |}.

(** [[f'S{i+1}'] for i in range(N_seasons)]: each label is wrapped in a
    one-element list, and the list of them is what the function returns. *)
Definition season_labels (N_seasons : Z) : list (list string) :=
  map (fun i => [String.append "S" (str (i + 1))]) (range N_seasons).

Definition create_time_season (connector : database) (N_seasons : Z)
  : result (database * list (list string)) :=
  let seasons := season_labels N_seasons in
  db <- execute "time_season" time_season_schema connector ;;
  db <- executemany "time_season" (map (map VText) seasons) db ;;
  Ok (db, seasons).

Definition time_of_day_schema : schema :=
  {| sch_pk := [0%nat]; sch_check := no_check |}.

Definition hour_labels (N_hours : Z) : list (list string) :=
  map (fun i => [String.append "H" (str (i + 1))]) (range N_hours).

Definition create_time_of_day (connector : database) (N_hours : Z)
  : result (database * list (list string)) :=
  let times_of_day := hour_labels N_hours in
  db <- execute "time_of_day" time_of_day_schema connector ;;
  db <- executemany "time_of_day" (map (map VText) times_of_day) db ;;
  Ok (db, times_of_day).

Definition time_periods_schema : schema :=
  {| sch_pk := [0%nat]; sch_check := no_check |}.

Definition time_periods_entries (future_years existing_years : list Z)
  : result (list row) :=
  past_horizon <-
    (if (length existing_years =? 0)%nat
     then y0 <- first future_years ;; Ok [[VInt (y0 - 1); VText "e"]]
     else Ok (map (fun year => [VInt year; VText "e"]) existing_years)) ;;
  let future_horizon := map (fun year => [VInt year; VText "f"]) future_years in
  yN <- final future_years ;;
  let future_horizon := future_horizon ++ [[VInt (yN + 1); VText "f"]] in
  Ok (past_horizon ++ future_horizon).

(** Two of the years written are computed here, [first - 1] and
    [last + 1], so the insert is the one that binds its rows. *)
Definition create_time_periods (connector : database)
    (future_years existing_years : list Z) : result database :=
  entries <- time_periods_entries future_years existing_years ;;
  db <- execute "time_periods" time_periods_schema connector ;;
  executemany_bound "time_periods" entries db.

Definition SegFrac_schema : schema :=
  {| sch_pk := [0%nat; 1%nat]; sch_check := check_unit_interval 2 |}.

Definition SegFrac_entries (segfrac : Q) (seasons hours : list (list string))
  : result (list row) :=
  let time_slices := list_prod seasons hours in
  mapM (fun ts =>
          s <- first (fst ts) ;;
          h <- first (snd ts) ;;
          Ok [VText s; VText h; VReal segfrac; VText "fraction of year"])
       time_slices.

Definition create_segfrac (connector : database) (segfrac : Q)
    (seasons hours : list (list string)) : result database :=
  entries <- SegFrac_entries segfrac seasons hours ;;
  db <- execute "SegFrac" SegFrac_schema connector ;;
  executemany "SegFrac" entries db.

(** Modelled from the spec: the future-year sequence is computed by the
    model object ([ModelInfo]), which is not among the sources at hand.  The
    spec describes it as "the ordered arithmetic sequence from start to end
    stepped by the period spacing". *)
Definition future_years (start_year end_year step : Z) : list Z :=
  if ((step <=? 0) || (end_year <? start_year))%Z then []
  else map (fun i => start_year + i * step)%Z
           (range ((end_year - start_year) / step + 1)).

(** Modelled from the spec: the weight of a time slice is computed by the
    model object ([ModelInfo]), which is not among the sources at hand.  The
    spec gives it as "1 / (seasons x hours)", which on Python integers is
    the true division. *)
Definition slice_weight (N_seasons N_hours : Z) : result Q :=
  truediv 1 (N_seasons * N_hours).

(** ** The model description *)

Module Commodity.
(** A commodity; a demand commodity also carries, per region, its annual
    demand and its distribution over the time slices. *)
Record t : Type := {
  comm_name : string;
  units : string;
  demand : sdict (list Q);
  distribution : sdict (list Q)
}.
End Commodity.

(** A capacity factor is a number or a sequence ([list] or [np.ndarray]). *)
Inductive cf_data : Type :=
| Scalar (c : Q)
| Series (cs : list Q).

Module Technology.
Record t : Type := {
  tech_name : string;
  regions : list string;
  units : string;
  input_comm : sdict Commodity.t;
  output_comm : sdict Commodity.t;
  efficiency : sdict Q;
  tech_lifetime : sdict Q;
  existing_capacity : sdict (zdict Q);
  cost_variable : sdict (zdict Q);
  cost_fixed : sdict (zdict Q);
  cost_invest : sdict Q;
  capacity_factor_tech : sdict cf_data;
  reserve_tech : bool
}.
End Technology.

Import Technology.

(** [x < y] on numbers *)
Definition Qltb (x y : Q) : bool := negb (Qle_bool y x).

(** [for a in l: s = f(s, a)] with exceptions *)
Fixpoint foldM {A S : Type} (f : S -> A -> result S) (s : S) (l : list A)
  : result S :=
  match l with
  | [] => Ok s
  | a :: l' => s' <- f s a ;; foldM f s' l'
  end.

(** ** Demand *)

Definition Demand_schema : schema :=
  {| sch_pk := [0%nat; 1%nat; 2%nat]; sch_check := no_check |}.

(** The rows of one region: [zip(data, years)] over two sequences. *)
Definition Demand_entry (demand_comm : Commodity.t) (region : string)
    (data : list Q) (years : list Z) : list row :=
  map (fun dy => [VText region; VInt (snd dy);
                  VText (Commodity.comm_name demand_comm); VReal (fst dy);
                  VText (Commodity.units demand_comm); VText ""])
      (combine data years).

Definition create_demand_table (connector : database)
    (demand_list : list Commodity.t) (years : list Z) : result database :=
  db <- execute "Demand" Demand_schema connector ;;
  foldM (fun db demand_comm =>
           foldM (fun db region_data =>
                    executemany "Demand"
                      (Demand_entry demand_comm (fst region_data)
                                    (snd region_data) years) db)
                 db (Commodity.demand demand_comm))
        db demand_list.

Definition time_slice : Type := (list string * list string)%type.

(** The row built from one [(d, ts)] of [zip(data, time_slices)]: [ts[0][0]]
    goes to the column [season_name], [ts[1][0]] to [time_of_day_name]. *)
Definition slice_row (region name : string) (notes : string)
    (dts : Q * time_slice) : result row :=
  a <- first (fst (snd dts)) ;;
  b <- first (snd (snd dts)) ;;
  Ok [VText region; VText a; VText b; VText name; VReal (fst dts); VText notes].

Definition DemandSpecificDistribution_schema : schema :=
  {| sch_pk := [0%nat; 1%nat; 2%nat; 3%nat]; sch_check := check_unit_interval 4 |}.

(** One pass of the region loop: the state is the store and what is left of
    the iterator [time_slices], which is created once per commodity. *)
Definition dsd_region (demand_comm : Commodity.t)
    (st : database * list time_slice) (region_data : string * list Q)
  : result (database * list time_slice) :=
  let (pairs, rest) := zip_iter (snd region_data) (snd st) in
  db_entry <- mapM (slice_row (fst region_data)
                              (Commodity.comm_name demand_comm)
                              (Commodity.units demand_comm)) pairs ;;
  db <- executemany "DemandSpecificDistribution" db_entry (fst st) ;;
  Ok (db, rest).

Definition create_demand_specific_distribution (connector : database)
    (demand_list : list Commodity.t) (seasons hours : list (list string))
  : result database :=
  db <- execute "DemandSpecificDistribution"
                DemandSpecificDistribution_schema connector ;;
  foldM (fun db demand_comm =>
           let time_slices := list_prod hours seasons in
           st <- foldM (dsd_region demand_comm) (db, time_slices)
                       (Commodity.distribution demand_comm) ;;
           Ok (fst st))
        db demand_list.

(** ** Efficiency *)

Definition Efficiency_schema : schema :=
  {| sch_pk := [0%nat; 1%nat; 2%nat; 3%nat; 4%nat];
     sch_check := check_positive 5 |}.

Definition Efficiency_row (tech : Technology.t) (place : string) (year : Z)
  : result row :=
  ic <- sget (input_comm tech) place ;;
  oc <- sget (output_comm tech) place ;;
  eff <- sget (efficiency tech) place ;;
  Ok [VText place; VText (Commodity.comm_name ic); VText (tech_name tech);
      VInt year; VText (Commodity.comm_name oc); VReal eff; VText "NULL"].

(** The [try: ... except: pass] block: every key of the existing-capacity
    map gives a row; any exception leaves [entries] as it was. *)
Definition Efficiency_existing (tech : Technology.t) (place : string)
  : list row :=
  match (ec <- sget (existing_capacity tech) place ;;
         mapM (Efficiency_row tech place) (keys ec)) with
  | Ok data => data
  | Raise _ => []
  end.

Definition Efficiency_entries (technology_list : list Technology.t)
    (future : list Z) : result (list row) :=
  foldM (fun entries tech =>
           foldM (fun entries place =>
                    let entries := entries ++ Efficiency_existing tech place in
                    data <- mapM (Efficiency_row tech place) future ;;
                    Ok (entries ++ data))
                 entries (regions tech))
        [] technology_list.

Definition create_efficiency (connector : database)
    (technology_list : list Technology.t) (future : list Z) : result database :=
  entries <- Efficiency_entries technology_list future ;;
  db <- execute "Efficiency" Efficiency_schema connector ;;
  executemany "Efficiency" entries db.

(** ** ExistingCapacity *)

Definition ExistingCapacity_schema : schema :=
  {| sch_pk := [0%nat; 1%nat; 2%nat]; sch_check := no_check |}.

(** The vintages kept for a region: [years[(first_year - years) < lifetime]] *)
Definition surviving (first_year : Z) (lifetime : Q) (years : list Z) : list Z :=
  filter (fun year => Qltb (inject_Z (first_year - year)) lifetime) years.

Definition ExistingCapacity_place (tech : Technology.t) (first_year : Z)
    (place : string) : result (list row) :=
  lifetime <- sget (tech_lifetime tech) place ;;
  ec <- sget (existing_capacity tech) place ;;
  let years := surviving first_year lifetime (keys ec) in
  mapM (fun year =>
          ec' <- sget (existing_capacity tech) place ;;
          cap <- zget ec' year ;;
          Ok [VText place; VText (tech_name tech); VInt year; VReal cap;
              VText (units tech); VText ""])
       years.

Definition ExistingCapacity_entries (technology_list : list Technology.t)
    (time_horizon : list Z) : result (list row) :=
  foldM (fun entries tech =>
           first_year <- first time_horizon ;;
           foldM (fun entries place =>
                    data <- ExistingCapacity_place tech first_year place ;;
                    Ok (entries ++ data))
                 entries (regions tech))
        [] technology_list.

(** The table is created only under [if len(entries) > 0]. *)
Definition create_existing_capacity (connector : database)
    (technology_list : list Technology.t) (time_horizon : list Z)
  : result database :=
  entries <- ExistingCapacity_entries technology_list time_horizon ;;
  if (0 <? length entries)%nat
  then db <- execute "ExistingCapacity" ExistingCapacity_schema connector ;;
       executemany "ExistingCapacity" entries db
  else Ok connector.

(** ** LifetimeTech *)

Definition LifetimeTech_schema : schema :=
  {| sch_pk := [0%nat; 1%nat]; sch_check := no_check |}.

Definition LifetimeTech_entries (technology_list : list Technology.t)
  : result (list row) :=
  foldM (fun entries tech =>
           data <- mapM (fun place =>
                           life <- sget (tech_lifetime tech) place ;;
                           Ok [VText place; VText (tech_name tech); VReal life;
                               VText "NULL"])
                        (regions tech) ;;
           Ok (entries ++ data))
        [] technology_list.

Definition create_lifetime_tech (connector : database)
    (technology_list : list Technology.t) : result database :=
  entries <- LifetimeTech_entries technology_list ;;
  db <- execute "LifetimeTech" LifetimeTech_schema connector ;;
  executemany "LifetimeTech" entries db.

(** ** CostVariable and CostFixed

    [create_variable_cost] and [create_fixed_cost] are the same code up to
    the cost map they read and the table they write; [cost] is that map. *)

Definition Cost_schema : schema :=
  {| sch_pk := [0%nat; 1%nat; 2%nat; 3%nat]; sch_check := no_check |}.

(** The candidate vintages of a region: every key of the existing-capacity
    map followed by the time horizon. *)
Definition vintage_pool (tech : Technology.t) (place : string)
    (time_horizon : list Z) : result (list Z) :=
  ec <- sget (existing_capacity tech) place ;;
  if (0 <? length ec)%nat then Ok (keys ec ++ time_horizon)
  else Ok time_horizon.

Definition Cost_row (cost : sdict (zdict Q)) (tech : Technology.t)
    (place : string) (year vintage : Z) : result row :=
  by_year <- sget cost place ;;
  c <- zget by_year year ;;
  Ok [VText place; VInt year; VText (tech_name tech); VInt vintage; VReal c;
      VText ""; VText ""].

(** The body of [for year, vintage in year_pairs]: one row when the age test
    passes, nothing otherwise. *)
Definition Cost_pair (cost : sdict (zdict Q)) (tech : Technology.t)
    (place : string) (lifetime : Q) (yv : Z * Z) : result (list row) :=
  if Qltb (inject_Z (fst yv - snd yv)) lifetime
  then r <- Cost_row cost tech place (fst yv) (snd yv) ;; Ok [r]
  else Ok [].

Definition Cost_place (cost : sdict (zdict Q)) (tech : Technology.t)
    (time_horizon : list Z) (place : string) : result (list row) :=
  lifetime <- sget (tech_lifetime tech) place ;;
  years <- vintage_pool tech place time_horizon ;;
  let year_pairs := list_prod time_horizon years in
  foldM (fun entries yv =>
           data <- Cost_pair cost tech place lifetime yv ;;
           Ok (entries ++ data))
        [] year_pairs.

Definition Cost_entries (cost : Technology.t -> sdict (zdict Q))
    (technology_list : list Technology.t) (time_horizon : list Z)
  : result (list row) :=
  foldM (fun entries tech =>
           if (0 <? length (cost tech))%nat
           then foldM (fun entries place =>
                         data <- Cost_place (cost tech) tech time_horizon place ;;
                         Ok (entries ++ data))
                      entries (regions tech)
           else Ok entries)
        [] technology_list.

Definition create_variable_cost (connector : database)
    (technology_list : list Technology.t) (time_horizon : list Z)
  : result database :=
  entries <- Cost_entries cost_variable technology_list time_horizon ;;
  db <- execute "CostVariable" Cost_schema connector ;;
  executemany "CostVariable" entries db.

Definition create_fixed_cost (connector : database)
    (technology_list : list Technology.t) (time_horizon : list Z)
  : result database :=
  entries <- Cost_entries cost_fixed technology_list time_horizon ;;
  db <- execute "CostFixed" Cost_schema connector ;;
  executemany "CostFixed" entries db.

(** ** CostInvest *)

Definition CostInvest_schema : schema :=
  {| sch_pk := [0%nat; 1%nat; 2%nat]; sch_check := no_check |}.

Definition CostInvest_entries (technology_list : list Technology.t)
    (time_horizon : list Z) : result (list row) :=
  foldM (fun entries tech =>
           if (0 <? length (cost_invest tech))%nat
           then foldM (fun entries place =>
                         data <- mapM (fun year =>
                                         c <- sget (cost_invest tech) place ;;
                                         Ok [VText place; VText (tech_name tech);
                                             VInt year; VReal c; VText "";
                                             VText ""])
                                      time_horizon ;;
                         Ok (entries ++ data))
                      entries (regions tech)
           else Ok entries)
        [] technology_list.

Definition create_invest_cost (connector : database)
    (technology_list : list Technology.t) (time_horizon : list Z)
  : result database :=
  entries <- CostInvest_entries technology_list time_horizon ;;
  db <- execute "CostInvest" CostInvest_schema connector ;;
  executemany "CostInvest" entries db.

(** ** CapacityFactorTech *)

Definition CapacityFactorTech_schema : schema :=
  {| sch_pk := [0%nat; 1%nat; 2%nat; 3%nat]; sch_check := check_unit_interval 4 |}.

(** [np.ones(len(hours)*len(seasons))*data] for a number, the sequence
    itself otherwise. *)
Definition cf_values (seasons hours : list (list string)) (data : cf_data)
  : list Q :=
  match data with
  | Series cs => cs
  | Scalar c => repeat c (length hours * length seasons)
  end.

(** One pass of [for place in cft_dict]; [time_slices] was created before
    the loop and is shared by all its passes. *)
Definition cft_region (tech : Technology.t) (seasons hours : list (list string))
    (st : database * list time_slice) (place_data : string * cf_data)
  : result (database * list time_slice) :=
  let data := cf_values seasons hours (snd place_data) in
  let (pairs, rest) := zip_iter data (snd st) in
  db_entry <- mapM (slice_row (fst place_data) (tech_name tech) "") pairs ;;
  db <- executemany "CapacityFactorTech" db_entry (fst st) ;;
  Ok (db, rest).

Definition create_capacity_factor_tech (connector : database)
    (technology_list : list Technology.t) (seasons hours : list (list string))
  : result database :=
  db <- execute "CapacityFactorTech" CapacityFactorTech_schema connector ;;
  foldM (fun db tech =>
           let time_slices := list_prod hours seasons in
           st <- foldM (cft_region tech seasons hours) (db, time_slices)
                       (capacity_factor_tech tech) ;;
           Ok (fst st))
        db technology_list.

(** ** Connection *)

Section Connection.

(** [sqlite3.connect]: the store behind a path, or the exception raised
    when it cannot be opened. *)
Variable sqlite3_connect : string -> result database.

(** The function returns what was printed and its outcome; the handle is
    [None] when [conn] was never assigned. *)
Definition establish_connection (output_db : string)
  : list string * result (option database) :=
  match sqlite3_connect output_db with
  | Ok conn => ([], Ok (Some conn))
  | Raise _ =>
      (["Database connection failed. Writing to sql file instead.";
        "Warning: SQL writing has not been implemented."],
       Ok None)
  end.

End Connection.

(** ** Reading the tables back *)

Definition weight (r : row) : Q :=
  match column 2 r with
  | VReal q => q
  | _ => 0
  end.

(** The sum of the stored weights, as the numbers they are. *)
Definition total_weight (rows : list row) : Q :=
  fold_right Qplus 0 (map weight rows).

Definition slice_key (r : row) : sqlval * sqlval := (column 0 r, column 1 r).

(** The rows that the cost loops add for one technology: none when its cost
    map is empty ([continue]), the rows of its regions in turn otherwise. *)
Definition Cost_tech (cost : Technology.t -> sdict (zdict Q))
    (time_horizon : list Z) (tech : Technology.t) : result (list row) :=
  if (0 <? length (cost tech))%nat
  then by_place <- mapM (Cost_place (cost tech) tech time_horizon)
                        (regions tech) ;;
       Ok (concat by_place)
  else Ok [].

(** The row of CostVariable / CostFixed for a (period, vintage) pair. *)
Definition cost_row (place tech : string) (year vintage : Z) (c : Q) : row :=
  [VText place; VInt year; VText tech; VInt vintage; VReal c; VText ""; VText ""].

(** What the age gate promises about the rows of one technology and region. *)
Definition aged_row (tech : Technology.t) (time_horizon : list Z)
    (place : string) (r : row) : Prop :=
  exists (year vintage : Z) (c lifetime : Q) (ec : zdict Q),
    r = cost_row place (tech_name tech) year vintage c /\
    sget (tech_lifetime tech) place = Ok lifetime /\
    sget (existing_capacity tech) place = Ok ec /\
    In year time_horizon /\
    In vintage (keys ec ++ time_horizon) /\
    inject_Z (year - vintage) < lifetime.

(** The rows of a table split by technology and, inside, by region. *)
Definition aged_blocks (cost : Technology.t -> sdict (zdict Q))
    (technology_list : list Technology.t) (time_horizon : list Z)
    (blocks : list (list (list row))) : Prop :=
  Forall2 (fun tech by_place =>
             (cost tech = [] /\ by_place = []) \/
             Forall2 (fun place rows =>
                        Forall (aged_row tech time_horizon place) rows)
                     (regions tech) by_place)
          technology_list blocks.

Definition past_horizon (y0 : Z) (existing_years : list Z) : list row :=
  match existing_years with
  | [] => [[VInt (y0 - 1); VText "e"]]
  | _ => map (fun year => [VInt year; VText "e"]) existing_years
  end.

(** ** Sample descriptions *)

Definition coal : Commodity.t :=
  {| Commodity.comm_name := "coal"; Commodity.units := "GWh";
     Commodity.demand := []; Commodity.distribution := [] |}.

Definition elc : Commodity.t :=
  {| Commodity.comm_name := "ELC"; Commodity.units := "GWh";
     Commodity.demand := [("R1", [10 # 1])];
     Commodity.distribution := [("R1", [1 # 2; 1 # 2])] |}.


(** One plant in region R1 with 100 units installed in 2010; it declares a
    constant capacity factor for R1 and R2. *)
Definition plant (life : Q) (costs : zdict Q) : Technology.t :=
  {| tech_name := "PLANT"; regions := ["R1"]; units := "GW";
     input_comm := [("R1", coal)]; output_comm := [("R1", elc)];
     efficiency := [("R1", 1 # 3)]; tech_lifetime := [("R1", life)];
     existing_capacity := [("R1", [(2010%Z, 100 # 1)])];
     cost_variable := [("R1", costs)];
     cost_fixed := [("R1", costs)];
     cost_invest := [("R1", 5 # 1)];
     capacity_factor_tech := [("R1", Scalar (1 # 2)); ("R2", Scalar (1 # 2))];
     reserve_tech := true |}.

Definition costs_2020_2030 : zdict Q := [(2020%Z, 1 # 1); (2030%Z, 2 # 1)].

Definition horizon : list Z := [2020%Z; 2030%Z].

(** A technology that declares no cost at all. *)
Definition free_plant : Technology.t :=
  {| tech_name := "FREE"; regions := ["R1"]; units := "GW";
     input_comm := [("R1", coal)]; output_comm := [("R1", elc)];
     efficiency := [("R1", 1 # 1)]; tech_lifetime := [("R1", 30 # 1)];
     existing_capacity := [("R1", [])];
     cost_variable := []; cost_fixed := []; cost_invest := [];
     capacity_factor_tech := [];
     reserve_tech := false |}.

Definition unreachable : string -> result database :=
  fun _ => Raise OperationalError.

Definition reachable : string -> result database :=
  fun _ => Ok [].

(** ** Reference tables *)

Definition time_period_labels_schema : schema :=
  {| sch_pk := [0%nat]; sch_check := no_check |}.

Definition create_time_period_labels (connector : database) : result database :=
  let labels := [[VText "e"; VText "existing vintages"];
                 [VText "f"; VText "future vintages"]] in
  db <- execute "time_period_labels" time_period_labels_schema connector ;;
  executemany "time_period_labels" labels db.

Definition regions_schema : schema :=
  {| sch_pk := [0%nat]; sch_check := no_check |}.

Definition create_regions (connector : database) (regions : list string)
  : result database :=
  let labels := map (fun r => [VText r; VText ""]) regions in
  db <- execute "regions" regions_schema connector ;;
  executemany "regions" labels db.

Definition sector_labels_schema : schema :=
  {| sch_pk := [0%nat]; sch_check := no_check |}.

Definition create_sectors (connector : database) (sector_list : list string)
  : result database :=
  let sectors := map (fun s => [VText s]) sector_list in
  db <- execute "sector_labels" sector_labels_schema connector ;;
  executemany "sector_labels" sectors db.

(** [d.values()] *)
Definition values {K V : Type} (d : dict K V) : list V := map snd d.

Definition PlanningReserveMargin_schema : schema :=
  {| sch_pk := [0%nat]; sch_check := no_check |}.

Definition create_reserve_margin (connector : database) (prm : sdict Q)
  : result database :=
  db <- execute "PlanningReserveMargin" PlanningReserveMargin_schema connector ;;
  let db_entry := map (fun pm => [VText (fst pm); VReal (snd pm)])
                      (combine (keys prm) (values prm)) in
  executemany "PlanningReserveMargin" db_entry db.

Definition tech_reserve_schema : schema :=
  {| sch_pk := [0%nat]; sch_check := no_check |}.

Definition create_tech_reserve (connector : database)
    (technology_list : list Technology.t) : result database :=
  db <- execute "tech_reserve" tech_reserve_schema connector ;;
  let db_entry := map (fun tech => [VText (tech_name tech); VText ""])
                      (filter reserve_tech technology_list) in
  executemany "tech_reserve" db_entry db.

(** ** Keys that compare by identity

    Text and integer values are equal for SQLite exactly when they are the
    same value; a real is not ([1/2] and [2/4] are one number). *)

Definition exact (v : sqlval) : Prop :=
  match v with
  | VReal _ => False
  | _ => True
  end.

Definition exact_key (sch : schema) (r : row) : Prop :=
  Forall exact (key_of sch r).

(** ** The passes of a region loop over one slice iterator

    [slice_passes] lists the rows that the passes of [for place in ...]
    build when they share the iterator [it]: each pass zips its values with
    what the earlier passes left. *)
Fixpoint slice_passes {D : Type} (vals : D -> list Q)
    (mk : string -> Q * time_slice -> result row)
    (it : list time_slice) (l : list (string * D)) : result (list row) :=
  match l with
  | [] => Ok []
  | place_data :: l' =>
      let (pairs, rest) := zip_iter (vals (snd place_data)) it in
      entry <- mapM (mk (fst place_data)) pairs ;;
      more <- slice_passes vals mk rest l' ;;
      Ok (entry ++ more)
  end.

(** All the rows the loops of [create_demand_specific_distribution] build:
    the regions of one commodity share one iterator, and each commodity
    starts a new one. *)
Definition DemandSpecificDistribution_entries (demand_list : list Commodity.t)
    (seasons hours : list (list string)) : result (list row) :=
  blocks <- mapM (fun demand_comm =>
                    slice_passes (fun data : list Q => data)
                      (fun region =>
                         slice_row region (Commodity.comm_name demand_comm)
                                   (Commodity.units demand_comm))
                      (list_prod hours seasons)
                      (Commodity.distribution demand_comm))
                 demand_list ;;
  Ok (concat blocks).

(** The same for [create_capacity_factor_tech], technology by technology. *)
Definition CapacityFactorTech_entries (technology_list : list Technology.t)
    (seasons hours : list (list string)) : result (list row) :=
  blocks <- mapM (fun tech =>
                    slice_passes (cf_values seasons hours)
                      (fun place => slice_row place (tech_name tech) "")
                      (list_prod hours seasons)
                      (capacity_factor_tech tech))
                 technology_list ;;
  Ok (concat blocks).

(** The years of the rows that [create_time_periods] hands to the INSERT
    statement, in the order of the rows. *)
Definition period_years (future_years existing_years : list Z) : list Z :=
  match existing_years with
  | [] => [hd 0%Z future_years - 1]%Z
  | _ => existing_years
  end ++ future_years ++ [last future_years 0%Z + 1]%Z.

(** [r] occurs at two positions of [l]. *)
Definition twice {A : Type} (r : A) (l : list A) : Prop :=
  exists l1 l2 l3, l = l1 ++ r :: l2 ++ r :: l3.

(** What the CHECK constraints say about a stored value. *)
Definition in_unit_interval (v : sqlval) : Prop :=
  match v with
  | VReal q => 0 <= q /\ q <= 1
  | VInt z => (0 <= z <= 1)%Z
  | VText _ => False
  end.

Definition positive_value (v : sqlval) : Prop :=
  match v with
  | VReal q => 0 < q
  | VInt z => (0 < z)%Z
  | VText _ => True
  end.

(** The table [name] exists with schema [sch] and all its rows pass the
    CHECK of [sch]. *)
Definition holds_checked (sch : schema) (name : string) (db : database) : Prop :=
  exists t, lookup_table name db = Some t /\ tbl_schema t = sch /\
            Forall (fun r => sch_check sch r = true) (tbl_rows t).

(** ** What a builder does to the store *)

Definition has_table (name : string) (db : database) : Prop :=
  lookup_table name db <> None.

Definition only_touches (name : string) (db db' : database) : Prop :=
  forall other, other <> name -> lookup_table other db' = lookup_table other db.

(** [run] creates the table [name]: when it succeeds the table exists and
    no other table has changed, and it never succeeds on a store that holds
    the table already. *)
Definition builds (name : string) (run : database -> result database) : Prop :=
  forall db,
    (forall db', run db = Ok db' ->
                 has_table name db' /\ only_touches name db db') /\
    (has_table name db -> forall db', run db <> Ok db').

(** All the rows [create_demand_table] inserts, in the order of its loops. *)
Definition Demand_entries (demand_list : list Commodity.t) (years : list Z)
  : list row :=
  flat_map (fun c => flat_map (fun rd => Demand_entry c (fst rd) (snd rd) years)
                              (Commodity.demand c))
           demand_list.

(** The (commodity name, region) pairs for which demand is declared. *)
Definition demand_series (demand_list : list Commodity.t)
  : list (string * string) :=
  flat_map (fun c => map (fun rd => (Commodity.comm_name c, fst rd))
                         (Commodity.demand c))
           demand_list.

(** ** The driver: [name_from_path]

    [os.path] is [posixpath]; a path is the list of its characters and
    [sys.path] is threaded through as a list of paths. *)

Definition path : Type := list ascii.

Definition sep : ascii := "/"%char.
Definition extsep : ascii := "."%char.

(** [p.rfind(c)], [-1] when [c] does not occur *)
Fixpoint rfind_nat (c : ascii) (p : path) : option nat :=
  match p with
  | [] => None
  | a :: p' =>
      match rfind_nat c p' with
      | Some i => Some (S i)
      | None => if Ascii.eqb a c then Some 0%nat else None
      end
  end.

Definition rfind (c : ascii) (p : path) : Z :=
  match rfind_nat c p with
  | Some i => Z.of_nat i
  | None => (-1)%Z
  end.

(** [p[i:]], [p[:i]] and [p[i:j]] for indices that are not negative *)
Definition slice_from (i : Z) (p : path) : path := skipn (Z.to_nat i) p.
Definition slice_to (i : Z) (p : path) : path := firstn (Z.to_nat i) p.
Definition slice (i j : Z) (p : path) : path :=
  firstn (Z.to_nat (j - i)) (skipn (Z.to_nat i) p).

(** [p.rstrip(c)] *)
Fixpoint rstrip (c : ascii) (p : path) : path :=
  match p with
  | [] => []
  | a :: p' =>
      match rstrip c p' with
      | [] => if Ascii.eqb a c then [] else [a]
      | r => a :: r
      end
  end.

Definition basename (p : path) : path :=
  let i := (rfind sep p + 1)%Z in
  slice_from i p.

Definition dirname (p : path) : path :=
  let i := (rfind sep p + 1)%Z in
  let head := slice_to i p in
  if negb (length head =? 0)%nat && negb (forallb (Ascii.eqb sep) head)
  then rstrip sep head
  else head.

(** The loop that skips leading dots: [true] as soon as a character other
    than the dot is met. *)
Fixpoint meets_other_than_dot (chars : path) : bool :=
  match chars with
  | [] => false
  | a :: chars' =>
      if negb (Ascii.eqb a extsep) then true else meets_other_than_dot chars'
  end.

Definition splitext (p : path) : path * path :=
  let sepIndex := rfind sep p in
  let dotIndex := rfind extsep p in
  if (dotIndex >? sepIndex)%Z
     && meets_other_than_dot (slice (sepIndex + 1) dotIndex p)
  then (slice_to dotIndex p, slice_from dotIndex p)
  else (p, []).

Definition name_from_path (sys_path : list path) (infile_path : path)
  : list path * path :=
  let file_dir := dirname infile_path in
  let sys_path := sys_path ++ [file_dir] in
  let file_name := basename infile_path in
  let file_name_base := fst (splitext file_name) in
  (sys_path, file_name_base).

(** ** More sample descriptions *)

(** A plant declared for R1 and R2 whose data cover R1 only. *)
Definition half_described_plant : Technology.t :=
  {| tech_name := "HALF"; regions := ["R1"; "R2"]; units := "GW";
     input_comm := [("R1", coal)]; output_comm := [("R1", elc)];
     efficiency := [("R1", 1 # 2)]; tech_lifetime := [("R1", 20 # 1)];
     existing_capacity := [("R1", [(2010%Z, 100 # 1)])];
     cost_variable := [("R1", costs_2020_2030)];
     cost_fixed := [("R1", costs_2020_2030)];
     cost_invest := [("R1", 5 # 1)];
     capacity_factor_tech := [("R1", Series [1 # 2])];
     reserve_tech := false |}.

(** A plant whose existing capacity was installed in 2020, which is also
    the first year of the horizon. *)
Definition plant_built_2020 : Technology.t :=
  {| tech_name := "NEW"; regions := ["R1"]; units := "GW";
     input_comm := [("R1", coal)]; output_comm := [("R1", elc)];
     efficiency := [("R1", 1 # 2)]; tech_lifetime := [("R1", 20 # 1)];
     existing_capacity := [("R1", [(2020%Z, 100 # 1)])];
     cost_variable := [("R1", costs_2020_2030)];
     cost_fixed := [("R1", costs_2020_2030)];
     cost_invest := [("R1", 5 # 1)];
     capacity_factor_tech := [("R1", Scalar (1 # 2))];
     reserve_tech := true |}.

(** * Properties *)

(** ** The error monad and the loops *)

Lemma bind_Ok {A B : Type} (m : result A) (k : A -> result B) (b : B) :
  bind m k = Ok b -> exists a, m = Ok a /\ k a = Ok b.
Proof. destruct m as [a|e]; simpl; [eauto | discriminate]. Qed.

Lemma bind_Ok_intro {A B : Type} (m : result A) (k : A -> result B)
    (a : A) (b : B) :
  m = Ok a -> k a = Ok b -> bind m k = Ok b.
Proof. now intros -> <-. Qed.

Ltac inv_bind H :=
  let a := fresh "x" in
  let E := fresh "E" in
  apply bind_Ok in H; destruct H as (a & E & H).

Lemma mapM_Forall2 {A B : Type} (f : A -> result B) (l : list A) :
  forall bs, mapM f l = Ok bs -> Forall2 (fun a b => f a = Ok b) l bs.
Proof.
  induction l as [|a l IH]; simpl; intros bs H.
  - injection H as <-. constructor.
  - inv_bind H. inv_bind H. injection H as <-. constructor; auto.
Qed.

Lemma mapM_In_raise {A B : Type} (f : A -> result B) (l : list A) (a : A) :
  In a l -> is_ok (f a) = false -> is_ok (mapM f l) = false.
Proof.
  induction l as [|a' l IH]; simpl; intros Hin Hf; [contradiction|].
  destruct Hin as [->|Hin].
  - destruct (f a); [discriminate | reflexivity].
  - destruct (f a'); simpl; [|reflexivity].
    specialize (IH Hin Hf). destruct (mapM f l); [discriminate | reflexivity].
Qed.

(** A loop whose body appends the rows of one element to [entries] computes
    the rows of every element and concatenates them. *)
Lemma foldM_extend {A B : Type} (g : list B -> A -> result (list B))
    (f : A -> result (list B)) :
  (forall e a, g e a = (d <- f a ;; Ok (e ++ d))) ->
  forall l acc, foldM g acc l = (bs <- mapM f l ;; Ok (acc ++ concat bs)).
Proof.
  intros Hg. induction l as [|a l IH]; simpl; intros acc.
  - now rewrite app_nil_r.
  - rewrite Hg. destruct (f a) as [d|e]; simpl; [|reflexivity].
    rewrite IH. destruct (mapM f l) as [bs|e]; simpl; [|reflexivity].
    now rewrite app_assoc.
Qed.

Lemma zip_iter_spec {A B : Type} (data : list A) :
  forall it : list B,
    zip_iter data it = (combine data it, skipn (length data) it).
Proof.
  induction data as [|d data IH]; simpl; intros it; [reflexivity|].
  destruct it as [|t it]; [reflexivity|].
  now rewrite IH.
Qed.

(** ** The store *)

Lemma insert_app (sch : schema) (new : list row) :
  forall old rows, insert sch old new = Ok rows -> rows = old ++ new.
Proof.
  induction new as [|r new IH]; simpl; intros old rows H.
  - injection H as <-. now rewrite app_nil_r.
  - destruct (sch_check sch r && negb (key_mem sch r old)); [|discriminate].
    apply IH in H. subst rows. now rewrite <- app_assoc.
Qed.

Lemma lookup_table_fresh (name : string) (t : table) (db : database) :
  lookup_table name db = None ->
  lookup_table name (db ++ [(name, t)]) = Some t.
Proof.
  unfold lookup_table. induction db as [|[n t'] db IH]; simpl.
  - now rewrite String.eqb_refl.
  - destruct (String.eqb name n); [discriminate | exact IH].
Qed.

Lemma lookup_set_table (name : string) (t t0 : table) (db : database) :
  lookup_table name db = Some t0 ->
  lookup_table name (set_table name t db) = Some t.
Proof.
  unfold lookup_table. induction db as [|[n t'] db IH]; simpl; [discriminate|].
  destruct (String.eqb name n) eqn:E; simpl; rewrite E; auto.
Qed.

Lemma executemany_rows (name : string) (entries : list row) (db db' : database) :
  executemany name entries db = Ok db' ->
  exists t, lookup_table name db = Some t /\
            lookup_table name db' =
              Some {| tbl_schema := tbl_schema t;
                      tbl_rows := tbl_rows t ++ entries |}.
Proof.
  unfold executemany. intros H.
  destruct (lookup_table name db) as [t|] eqn:L; [|discriminate].
  inv_bind H. injection H as <-. exists t; split; [reflexivity|].
  apply insert_app in E. subst x. eapply lookup_set_table; eauto.
Qed.

(** [CREATE TABLE] followed by one bulk insert: on success the table is new
    and holds exactly the entries. *)
Lemma create_rows (name : string) (sch : schema) (entries : list row)
    (db db' : database) :
  (db1 <- execute name sch db ;; executemany name entries db1) = Ok db' ->
  lookup_table name db = None /\ rows_of name db' = Some entries.
Proof.
  intros H. inv_bind H. unfold execute in E.
  destruct (lookup_table name db) eqn:L; [discriminate|].
  injection E as <-. split; [reflexivity|].
  apply executemany_rows in H. destruct H as (t & Ht & Hdb').
  rewrite (lookup_table_fresh _ _ _ L) in Ht. injection Ht as <-.
  unfold rows_of. now rewrite Hdb'.
Qed.

Lemma create_ok (name : string) (sch : schema) (entries : list row)
    (db : database) :
  lookup_table name db = None ->
  insert sch [] entries = Ok entries ->
  exists db', (db1 <- execute name sch db ;; executemany name entries db1) = Ok db'
              /\ rows_of name db' = Some entries.
Proof.
  intros L I.
  assert (exists db', (db1 <- execute name sch db ;;
                       executemany name entries db1) = Ok db') as [db' H].
  { unfold execute. rewrite L. simpl. unfold executemany.
    rewrite (lookup_table_fresh _ _ _ L). simpl. rewrite I. simpl. eauto. }
  exists db'. split; [exact H|]. now apply create_rows in H.
Qed.

(** An insert that binds its rows goes through only where the plain insert
    does, and only for rows that can be bound. *)
Lemma insert_bound_Ok (sch : schema) (new : list row) :
  forall old rows,
    insert_bound sch old new = Ok rows ->
    insert sch old new = Ok rows /\ forallb bindable new = true.
Proof.
  induction new as [|r new IH]; simpl; intros old rows H; [auto|].
  destruct (bindable r); [|discriminate].
  destruct (sch_check sch r && negb (key_mem sch r old)); [|discriminate].
  now apply IH.
Qed.

Lemma insert_bound_bindable (sch : schema) (new : list row) :
  forallb bindable new = true ->
  forall old, insert_bound sch old new = insert sch old new.
Proof.
  induction new as [|r new IH]; simpl; intros H old; [reflexivity|].
  apply andb_prop in H. destruct H as [-> H].
  destruct (sch_check sch r && negb (key_mem sch r old)); auto.
Qed.

Lemma insert_bound_overflow (sch : schema) (new : list row) :
  forallb bindable new = false ->
  forall old rows,
    insert sch old new = Ok rows ->
    insert_bound sch old new = Raise OverflowError.
Proof.
  induction new as [|r new IH]; simpl; intros H old rows I; [discriminate|].
  destruct (bindable r); [|reflexivity]. simpl in H.
  destruct (sch_check sch r && negb (key_mem sch r old)); [|discriminate].
  eapply IH; eauto.
Qed.

Lemma create_bound (name : string) (sch : schema) (entries : list row)
    (db db' : database) :
  (db1 <- execute name sch db ;; executemany_bound name entries db1) = Ok db' ->
  (db1 <- execute name sch db ;; executemany name entries db1) = Ok db' /\
  forallb bindable entries = true.
Proof.
  intros H. inv_bind H. rewrite E. simpl.
  unfold executemany_bound in H. unfold executemany.
  destruct (lookup_table name x) as [t|]; [|discriminate].
  inv_bind H. apply insert_bound_Ok in E0. destruct E0 as [-> Hb].
  simpl. auto.
Qed.

Lemma create_bound_bindable (name : string) (sch : schema)
    (entries : list row) (db : database) :
  forallb bindable entries = true ->
  (db1 <- execute name sch db ;; executemany_bound name entries db1) =
  (db1 <- execute name sch db ;; executemany name entries db1).
Proof.
  intros H. destruct (execute name sch db) as [db1|e]; [|reflexivity].
  simpl. unfold executemany_bound, executemany.
  destruct (lookup_table name db1); [|reflexivity].
  now rewrite insert_bound_bindable.
Qed.

(** ** time_periods *)

Lemma final_last {A : Type} (l : list A) :
  forall a, final (a :: l) = Ok (last (a :: l) a).
Proof.
  induction l as [|b l IH]; intros a; [reflexivity|].
  change (final (a :: b :: l)) with (final (b :: l)). rewrite IH.
  f_equal. simpl. destruct l; [reflexivity|].
  clear. revert b. induction l as [|c l IH]; intros b; [reflexivity|].
  simpl in *. destruct l; [reflexivity | apply IH].
Qed.

Lemma time_periods_entries_cons (y0 : Z) (rest existing_years : list Z) :
  time_periods_entries (y0 :: rest) existing_years =
  Ok (past_horizon y0 existing_years
      ++ map (fun year => [VInt year; VText "f"]) (y0 :: rest)
      ++ [[VInt (last (y0 :: rest) y0 + 1); VText "f"]]).
Proof.
  unfold time_periods_entries. rewrite final_last.
  destruct existing_years; reflexivity.
Qed.

(** C4. With start 2020, end 2050 and step 10 the future years are 2020,
    2030, 2040, 2050 and, without existing years, the table time_periods
    holds exactly (2019,e), (2020,f), (2030,f), (2040,f), (2050,f),
    (2051,f).  In general the rows written are the existing years tagged e
    (a single year [first future year - 1] when there is none), the future
    years tagged f, and last the boundary year [last future year + 1]
    tagged f. *)
Theorem time_periods_rows :
  future_years 2020 2050 10 = [2020; 2030; 2040; 2050]%Z /\
  (exists db,
      create_time_periods [] (future_years 2020 2050 10) [] = Ok db /\
      rows_of "time_periods" db =
        Some [[VInt 2019; VText "e"]; [VInt 2020; VText "f"];
              [VInt 2030; VText "f"]; [VInt 2040; VText "f"];
              [VInt 2050; VText "f"]; [VInt 2051; VText "f"]]) /\
  (forall (db : database) (y0 : Z) (rest existing_years : list Z)
          (db' : database),
      create_time_periods db (y0 :: rest) existing_years = Ok db' ->
      rows_of "time_periods" db' =
        Some (past_horizon y0 existing_years
              ++ map (fun year => [VInt year; VText "f"]) (y0 :: rest)
              ++ [[VInt (last (y0 :: rest) y0 + 1); VText "f"]])) /\
  (forall y0 : Z, past_horizon y0 [] = [[VInt (y0 - 1); VText "e"]]).
Proof.
  split; [reflexivity|]. split; [|split].
  - eexists. split; reflexivity.
  - intros db y0 rest existing_years db' H.
    unfold create_time_periods in H.
    rewrite time_periods_entries_cons in H. simpl bind in H.
    apply create_bound in H. destruct H as [H _].
    now apply create_rows in H.
  - reflexivity.
Qed.

Lemma time_periods_rows_witness :
  exists db',
    create_time_periods [] [2020; 2030]%Z [2010]%Z = Ok db' /\
    rows_of "time_periods" db' =
      Some [[VInt 2010; VText "e"]; [VInt 2020; VText "f"];
            [VInt 2030; VText "f"]; [VInt 2031; VText "f"]].
Proof.
  eexists. split; [reflexivity|].
  exact (proj1 (proj2 (proj2 time_periods_rows)) [] 2020%Z [2030%Z] [2010%Z]
               _ eq_refl).
Defined.

(** ** Labels and time slices *)

Lemma str_inj (a b : Z) : str a = str b -> a = b.
Proof.
  unfold str. intros H.
  assert (Some (Z.to_int a) = Some (Z.to_int b)) as E
      by (rewrite <- 2 NilEmpty.isi; now rewrite H).
  injection E as E. rewrite <- (DecimalZ.of_to a), <- (DecimalZ.of_to b).
  now rewrite E.
Qed.

Lemma range_NoDup (n : Z) : NoDup (range n).
Proof.
  unfold range. apply Injective_map_NoDup; [|apply seq_NoDup].
  intros x y. apply Nat2Z.inj.
Qed.

Lemma range_length (n : Z) : length (range n) = Z.to_nat n.
Proof. unfold range. now rewrite length_map, length_seq. Qed.

Lemma label_NoDup (prefix : string) (n : Z) :
  NoDup (map (fun i => String.append prefix (str (i + 1))) (range n)).
Proof.
  apply Injective_map_NoDup; [|apply range_NoDup].
  intros x y H. induction prefix as [|c p IH]; simpl in H.
  - apply str_inj in H. lia.
  - injection H as H. auto.
Qed.

Lemma NoDup_list_prod {A B : Type} (l : list A) (l' : list B) :
  NoDup l -> NoDup l' -> NoDup (list_prod l l').
Proof.
  intros Hl Hl'. induction Hl as [|x l Hx Hl IH]; simpl; [constructor|].
  apply NoDup_app; [|exact IH|].
  - apply Injective_map_NoDup; [|exact Hl'].
    intros a b E. now injection E.
  - intros [a b] Hin Hin'. apply in_map_iff in Hin.
    destruct Hin as (y & E & _). injection E as <- _.
    apply in_prod_iff in Hin'. tauto.
Qed.

Lemma list_prod_map {A B C D : Type} (f : A -> C) (g : B -> D)
    (l : list A) (l' : list B) :
  list_prod (map f l) (map g l') =
  map (fun ab => (f (fst ab), g (snd ab))) (list_prod l l').
Proof.
  induction l as [|a l IH]; simpl; [reflexivity|].
  rewrite map_app, IH, !map_map. reflexivity.
Qed.

Lemma mapM_pure {A B : Type} (f : A -> result B) (g : A -> B) (l : list A) :
  (forall a, In a l -> f a = Ok (g a)) -> mapM f l = Ok (map g l).
Proof.
  induction l as [|a l IH]; simpl; intros H; [reflexivity|].
  rewrite (H a (or_introl eq_refl)); simpl.
  rewrite IH by auto. reflexivity.
Qed.

(** ** Insertion under a primary key *)

(** Rows whose keys are pairwise different pass the PRIMARY KEY test; [kappa]
    reads the key off a row and [P] is the shape of the rows at hand. *)
Lemma insert_NoDup {K : Type} (sch : schema) (kappa : row -> K)
    (P : row -> Prop) :
  (forall r r', P r -> P r' ->
                key_eqb (key_of sch r) (key_of sch r') = true ->
                kappa r = kappa r') ->
  forall new old,
    Forall P (old ++ new) ->
    Forall (fun r => sch_check sch r = true) new ->
    NoDup (map kappa (old ++ new)) ->
    insert sch old new = Ok (old ++ new).
Proof.
  intros Hk. induction new as [|r new IH]; simpl; intros old HP Hc Hnd.
  - now rewrite app_nil_r.
  - inversion Hc as [|? ? Hr Hc']; subst. rewrite Hr; simpl.
    assert (key_mem sch r old = false) as ->.
    { unfold key_mem. destruct (sch_pk sch); [reflexivity|].
      destruct (existsb _ old) eqn:Ex; [|reflexivity]. exfalso.
      apply existsb_exists in Ex. destruct Ex as (r' & Hin & Heq).
      rewrite Forall_forall in HP.
      assert (kappa r = kappa r') as E.
      { apply Hk; auto; apply HP, in_or_app; [right; now left | now left]. }
      rewrite map_app in Hnd. simpl in Hnd.
      apply NoDup_remove_2 in Hnd. apply Hnd, in_or_app. left.
      rewrite E. now apply in_map. }
    simpl. replace (old ++ r :: new) with ((old ++ [r]) ++ new)
      by (now rewrite <- app_assoc).
    apply IH; rewrite <- ?app_assoc; auto.
Qed.

(** ** Floats: the quotient [1 / k] *)

Lemma round_half_even_near (q : Q) :
  inject_Z (round_half_even q) - q <= 1 # 2 /\
  q - inject_Z (round_half_even q) <= 1 # 2.
Proof.
  unfold round_half_even.
  pose proof (Qfloor_le q) as Hlo. pose proof (Qlt_floor q) as Hhi.
  rewrite inject_Z_plus in Hhi. change (inject_Z 1) with 1 in Hhi.
  destruct (Qcompare (q - inject_Z (Qfloor q)) (1 # 2)) eqn:C.
  - apply Qeq_alt in C. destruct (Z.even (Qfloor q));
      rewrite ?inject_Z_plus; change (inject_Z 1) with 1; split; lra.
  - apply Qlt_alt in C. split; lra.
  - apply Qgt_alt in C. rewrite inject_Z_plus.
    change (inject_Z 1) with 1. split; lra.
Qed.

Lemma round_half_even_comp (q q' : Q) :
  q == q' -> round_half_even q = round_half_even q'.
Proof.
  intros E. unfold round_half_even. rewrite (Qfloor_comp _ _ E).
  now rewrite E.
Qed.

Lemma round_half_even_le (q : Q) (n : Z) :
  q <= inject_Z n -> (round_half_even q <= n)%Z.
Proof.
  intros H. pose proof (Qfloor_le q) as Hlo.
  unfold round_half_even.
  destruct (Qcompare (q - inject_Z (Qfloor q)) (1 # 2)) eqn:C.
  - apply Qeq_alt in C.
    assert (inject_Z (Qfloor q) < inject_Z n) as Hlt by lra.
    rewrite <- Zlt_Qlt in Hlt. destruct (Z.even (Qfloor q)); lia.
  - rewrite Zle_Qle. lra.
  - apply Qgt_alt in C.
    assert (inject_Z (Qfloor q) < inject_Z n) as Hlt by lra.
    rewrite <- Zlt_Qlt in Hlt. lia.
Qed.

Lemma round_half_even_nonneg (q : Q) : 0 <= q -> (0 <= round_half_even q)%Z.
Proof.
  intros H. assert (0 <= Qfloor q)%Z as Hf.
  { change 0%Z with (Qfloor 0). now apply Qfloor_resp_le. }
  unfold round_half_even.
  destruct (Qcompare _ _); [destruct (Z.even _)| |]; lia.
Qed.

Lemma pow2_neg (p : Z) : (0 <= p)%Z -> pow2 (- p) == 1 / inject_Z (2 ^ p).
Proof.
  intros Hp. unfold pow2. rewrite Qpower_opp, (Zpower_Qpower 2 p Hp).
  unfold Qdiv. change (inject_Z 2) with 2. ring.
Qed.

Lemma inject_Z_pos (z : Z) : (0 < z)%Z -> 0 < inject_Z z.
Proof. intros H. change 0 with (inject_Z 0). now rewrite <- Zlt_Qlt. Qed.

(** A positive divisor of a power of two is a power of two. *)
Lemma pow2_divisor (p : Z) :
  (0 <= p)%Z -> forall k, (0 < k)%Z -> (k | 2 ^ p)%Z ->
  exists j, (0 <= j)%Z /\ k = (2 ^ j)%Z.
Proof.
  intros Hp. pattern p. apply natlike_ind; [| |exact Hp]; clear p Hp.
  - intros k Hk Hd. exists 0%Z. split; [lia|].
    simpl in Hd. apply Z.divide_1_r_nonneg in Hd; lia.
  - intros p Hp IH k Hk Hd.
    rewrite Z.pow_succ_r in Hd by lia.
    destruct (Z.even k) eqn:Ev.
    + apply Z.even_spec in Ev. destruct Ev as [k' ->].
      assert (k' | 2 ^ p)%Z as Hd'.
      { destruct Hd as [c Hc]. exists c. nia. }
      destruct (IH k' ltac:(lia) Hd') as (j & Hj & ->).
      exists (Z.succ j). split; [lia|]. rewrite Z.pow_succ_r by lia. lia.
    + apply IH; [exact Hk|].
      apply Z.gauss with (m := 2%Z); [exact Hd|].
      assert (Z.odd k = true) as Ho
          by (rewrite <- Z.negb_even, Ev; reflexivity).
      apply Z.odd_spec in Ho. destruct Ho as [c ->].
      rewrite Z.gcd_comm.
      replace (2 * c + 1)%Z with (1 + c * 2)%Z by lia.
      rewrite Z.gcd_add_mult_diag_r. reflexivity.
Qed.

(** The float [1 / k] for a positive integer [k]: it is [m / 2^p] for a
    significand [m] that is the integer nearest to [2^p / k]. *)
Lemma truediv_unit (k : Z) :
  (0 < k)%Z ->
  exists (w : Q) (p m : Z),
    truediv 1 k = Ok w /\
    (52 <= p <= 1074)%Z /\ (Z.min (52 + Z.log2 k) 1074 <= p)%Z /\
    (0 <= m <= 2 ^ p)%Z /\
    w == inject_Z m / inject_Z (2 ^ p) /\
    (2 * Z.abs (m * k - 2 ^ p) <= k)%Z /\
    ((k < 2 ^ 1022)%Z -> (2 ^ 52 * k <= 2 ^ p)%Z).
Proof.
  intros Hk. unfold truediv.
  destruct k as [|k|k]; try lia. cbn [Z.eqb].
  change (inject_Z 1 / inject_Z (Z.pos k)) with (1 # k).
  unfold nearest_float. change (Qabs (1 # k)) with (1 # k).
  change (Qeq_bool (1 # k) 0) with false. cbv iota.
  change (Qle_bool 0 (1 # k)) with true. cbv iota.
  set (e := Z.max (floor_log2 (1 # k) - 52) (-1074)).
  set (L := Z.log2 (Z.pos k)).
  assert (0 <= L)%Z as HL by apply Z.log2_nonneg.
  assert (floor_log2 (1 # k) = (- L)%Z \/ floor_log2 (1 # k) = (- L - 1)%Z)
    as Hfl.
  { unfold floor_log2. cbn [Qnum Qden]. change (Z.log2 1) with 0%Z.
    fold L. destruct (Qle_bool _ _); [left|right]; lia. }
  assert (e <= -52)%Z as He by (unfold e; lia).
  set (p := (- e)%Z).
  assert (pow2 e == 1 / inject_Z (2 ^ p)) as Hpow.
  { replace e with (- p)%Z by (unfold p; lia). apply pow2_neg. unfold p; lia. }
  assert (0 < 2 ^ p)%Z as Hpp by (apply Z.pow_pos_nonneg; unfold p; lia).
  pose proof (inject_Z_pos _ Hpp) as HP.
  assert (0 < inject_Z (Z.pos k)) as HK by reflexivity.
  assert ((1 # k) / pow2 e == inject_Z (2 ^ p) / inject_Z (Z.pos k)) as Harg.
  { rewrite Hpow. change (1 # k) with (1 / inject_Z (Z.pos k)) at 1.
    field. split; lra. }
  rewrite (round_half_even_comp _ _ Harg).
  set (m := round_half_even (inject_Z (2 ^ p) / inject_Z (Z.pos k))).
  assert (1 <= inject_Z (Z.pos k)) as H1.
  { change 1 with (inject_Z 1). rewrite <- Zle_Qle. lia. }
  assert (0 <= inject_Z (2 ^ p) / inject_Z (Z.pos k)) as Hnn.
  { apply Qle_shift_div_l; [exact HK|]. lra. }
  assert (inject_Z (2 ^ p) / inject_Z (Z.pos k) <= inject_Z (2 ^ p)) as Hle.
  { apply Qle_shift_div_r; [exact HK|]. nra. }
  assert (0 <= m <= 2 ^ p)%Z as Hm.
  { split; [now apply round_half_even_nonneg | now apply round_half_even_le]. }
  assert (inject_Z m * pow2 e == inject_Z m / inject_Z (2 ^ p)) as Hw.
  { rewrite Hpow. field. lra. }
  destruct (Qle_bool (pow2 1024) (inject_Z m * pow2 e)) eqn:Hover.
  { exfalso. apply Qle_bool_iff in Hover. rewrite Hw in Hover.
    assert (1 < pow2 1024) as Hbig by (apply Qpower_1_lt; [lra | lia]).
    assert (inject_Z m / inject_Z (2 ^ p) <= 1) as Hone.
    { apply Qle_shift_div_r; [exact HP|]. destruct Hm as [_ Hm].
      rewrite Zle_Qle in Hm. lra. }
    lra. }
  exists (inject_Z m * pow2 e), p, m.
  split; [reflexivity|]. split; [unfold p, e; lia|].
  split; [unfold p, e; fold L; lia|].
  split; [exact Hm|]. split; [exact Hw|]. split.
  { destruct (round_half_even_near
                (inject_Z (2 ^ p) / inject_Z (Z.pos k))) as [N1 N2].
    fold m in N1, N2.
    assert (inject_Z (2 ^ p) / inject_Z (Z.pos k) * inject_Z (Z.pos k)
            == inject_Z (2 ^ p)) as Hy by (field; lra).
    set (y := inject_Z (2 ^ p) / inject_Z (Z.pos k)) in *.
    assert (2 * (m * Z.pos k - 2 ^ p) <= Z.pos k)%Z as B1.
    { rewrite Zle_Qle, inject_Z_mult. unfold Z.sub.
      rewrite inject_Z_plus, inject_Z_opp, inject_Z_mult.
      change (inject_Z 2) with 2. nra. }
    assert (2 * (2 ^ p - m * Z.pos k) <= Z.pos k)%Z as B2.
    { rewrite Zle_Qle, inject_Z_mult. unfold Z.sub.
      rewrite inject_Z_plus, inject_Z_opp, inject_Z_mult.
      change (inject_Z 2) with 2. nra. }
    lia. }
  intros Hn.
  assert (L < 1022)%Z as HL2.
  { unfold L. apply Z.log2_lt_pow2; lia. }
  destruct (Z.log2_spec (Z.pos k) ltac:(lia)) as [Hs1 Hs2]. fold L in Hs1, Hs2.
  assert (p = 52 - floor_log2 (1 # k))%Z as Hp by (unfold p, e; lia).
  assert (Z.pos k <= 2 ^ (- floor_log2 (1 # k)))%Z as Hkey.
  { unfold floor_log2. cbn [Qnum Qden].
    change (Z.log2 1) with 0%Z. fold L.
    destruct (Qle_bool (pow2 (0 - L)) (1 # k)) eqn:C.
    - apply Qle_bool_iff in C.
      replace (0 - L)%Z with (- L)%Z in * by lia.
      rewrite (pow2_neg L HL) in C.
      assert (0 < 2 ^ L)%Z as HLp by (apply Z.pow_pos_nonneg; lia).
      pose proof (inject_Z_pos _ HLp) as HLq.
      rewrite Z.opp_involutive. rewrite Zle_Qle.
      change (1 # k) with (1 / inject_Z (Z.pos k)) in C.
      apply Qle_shift_div_r in C; [|exact HK].
      assert (1 / inject_Z (2 ^ L) * inject_Z (Z.pos k)
              == inject_Z (Z.pos k) / inject_Z (2 ^ L)) as E
          by (field; lra).
      rewrite E in C.
      assert (inject_Z (Z.pos k) / inject_Z (2 ^ L) * inject_Z (2 ^ L)
              == inject_Z (Z.pos k)) as E2 by (field; lra).
      set (z := inject_Z (Z.pos k) / inject_Z (2 ^ L)) in *. nra.
    - replace (- (0 - L - 1))%Z with (Z.succ L) by lia. lia. }
  rewrite Hp. replace (52 - floor_log2 (1 # k))%Z
    with (52 + - floor_log2 (1 # k))%Z by lia.
  rewrite Z.pow_add_r by lia.
  apply Z.mul_le_mono_nonneg_l; [lia | exact Hkey].
Qed.

(** What [k] copies of the float [1 / k] add up to: a number within
    [2^-53] of 1 (when [1 / k] is a normal float), which is 1 exactly when
    [k] is a power of two whose inverse is a float. *)
Lemma truediv_unit_sum (k : Z) :
  (0 < k)%Z ->
  exists w : Q,
    truediv 1 k = Ok w /\ 0 <= w /\ w <= 1 /\
    (inject_Z k * w == 1 <-> exists j, (0 <= j <= 1074)%Z /\ k = (2 ^ j)%Z) /\
    ((k < 2 ^ 1022)%Z -> Qabs (inject_Z k * w - 1) <= pow2 (-53)).
Proof.
  intros Hk.
  destruct (truediv_unit k Hk)
    as (w & p & m & H & Hp & Hlog & Hm & Hw & Herr & Hnorm).
  exists w. split; [exact H|].
  assert (0 < 2 ^ p)%Z as Hpp by (apply Z.pow_pos_nonneg; lia).
  pose proof (inject_Z_pos _ Hpp) as HP.
  pose proof (inject_Z_pos _ Hk) as HK.
  assert (inject_Z k * w - 1
          == inject_Z (m * k - 2 ^ p) / inject_Z (2 ^ p)) as E.
  { rewrite Hw. unfold Z.sub.
    rewrite inject_Z_plus, inject_Z_opp, inject_Z_mult. field. lra. }
  split; [|split; [|split]].
  - rewrite Hw. apply Qle_shift_div_l; [exact HP|].
    destruct Hm as [Hm _]. rewrite Zle_Qle in Hm.
    change (inject_Z 0) with 0 in Hm. lra.
  - rewrite Hw. apply Qle_shift_div_r; [exact HP|].
    destruct Hm as [_ Hm]. rewrite Zle_Qle in Hm. lra.
  - assert (inject_Z k * w == 1 <-> (m * k = 2 ^ p)%Z) as Hiff.
    { split.
      - intros E1. apply inject_Z_injective.
        assert (inject_Z (m * k - 2 ^ p) / inject_Z (2 ^ p)
                * inject_Z (2 ^ p) == inject_Z (m * k - 2 ^ p)) as E2
            by (field; lra).
        rewrite <- E in E2. unfold Z.sub in E2.
        rewrite inject_Z_plus, inject_Z_opp in E2. nra.
      - intros E1. rewrite E1 in E. rewrite Z.sub_diag in E.
        change (inject_Z 0) with 0 in E.
        assert (0 / inject_Z (2 ^ p) == 0) as E2 by (field; lra).
        rewrite E2 in E. lra. }
    rewrite Hiff. split.
    + intros E1.
      destruct (pow2_divisor p ltac:(lia) k Hk) as (j & Hj & ->).
      { exists m. now rewrite E1. }
      exists j. split; [|reflexivity]. split; [exact Hj|].
      assert (2 ^ j <= 2 ^ p)%Z as Hjp.
      { rewrite <- E1.
        assert (1 <= m)%Z by nia. nia. }
      apply Z.pow_le_mono_r_iff in Hjp; lia.
    + intros (j & Hj & ->).
      rewrite Z.log2_pow2 in Hlog by lia.
      assert (j <= p)%Z as Hjp by lia.
      assert (2 ^ p = 2 ^ j * 2 ^ (p - j))%Z as Epow.
      { rewrite <- Z.pow_add_r by lia. f_equal. lia. }
      assert (0 < 2 ^ j)%Z as Hjpos by (apply Z.pow_pos_nonneg; lia).
      rewrite Epow in Herr |- *.
      assert (m = 2 ^ (p - j))%Z as -> by nia.
      lia.
  - intros Hn. specialize (Hnorm Hn).
    rewrite E. change (pow2 (-53)) with (1 # 9007199254740992).
    assert (2 ^ 53 * (m * k - 2 ^ p) <= 2 ^ p)%Z as B1 by lia.
    assert (2 ^ 53 * (2 ^ p - m * k) <= 2 ^ p)%Z as B2 by lia.
    rewrite Zle_Qle, inject_Z_mult in B1, B2.
    unfold Z.sub in B1, B2. rewrite inject_Z_plus, inject_Z_opp in B1, B2.
    change (inject_Z (2 ^ 53)) with 9007199254740992 in B1, B2.
    unfold Z.sub. rewrite inject_Z_plus, inject_Z_opp.
    apply Qabs_Qle_condition. split.
    + apply Qle_shift_div_l; [exact HP|]. lra.
    + apply Qle_shift_div_r; [exact HP|]. lra.
Qed.

(** ** SegFrac *)

Lemma concat_singletons {A B : Type} (f : A -> B) (l : list A) :
  concat (map (fun a => [f a]) l) = map f l.
Proof. induction l as [|a l IH]; simpl; [reflexivity | now rewrite IH]. Qed.

Lemma SegFrac_entries_labels (segfrac : Q) (n m : Z) :
  SegFrac_entries segfrac (season_labels n) (hour_labels m) =
  Ok (map (fun ts => [VText (hd "" (fst ts)); VText (hd "" (snd ts));
                      VReal segfrac; VText "fraction of year"])
          (list_prod (season_labels n) (hour_labels m))).
Proof.
  unfold SegFrac_entries. apply mapM_pure. intros [s h] Hin.
  apply in_prod_iff in Hin. destruct Hin as [Hs Hh].
  unfold season_labels in Hs. unfold hour_labels in Hh.
  apply in_map_iff in Hs. apply in_map_iff in Hh.
  destruct Hs as (i & <- & _). destruct Hh as (j & <- & _). reflexivity.
Qed.

Lemma slice_keys_labels (segfrac : Q) (n m : Z) :
  map slice_key
      (map (fun ts => [VText (hd "" (fst ts)); VText (hd "" (snd ts));
                       VReal segfrac; VText "fraction of year"])
           (list_prod (season_labels n) (hour_labels m))) =
  list_prod (map VText (concat (season_labels n)))
            (map VText (concat (hour_labels m))).
Proof.
  rewrite map_map. unfold slice_key, column. simpl.
  unfold season_labels, hour_labels.
  rewrite !concat_singletons, !map_map, list_prod_map, list_prod_map.
  now rewrite map_map.
Qed.

Lemma slice_labels_NoDup (n m : Z) :
  NoDup (list_prod (map VText (concat (season_labels n)))
                   (map VText (concat (hour_labels m)))).
Proof.
  unfold season_labels, hour_labels. rewrite !concat_singletons.
  apply NoDup_list_prod;
    (apply Injective_map_NoDup; [intros x y E; now injection E|]);
    apply label_NoDup.
Qed.

Lemma total_weight_const (q : Q) (rows : list row) :
  Forall (fun r => column 2 r = VReal q) rows ->
  total_weight rows == inject_Z (Z.of_nat (length rows)) * q.
Proof.
  unfold total_weight. induction 1 as [|r rows Hr _ IH].
  - simpl. unfold inject_Z, Qmult, Qeq. simpl. reflexivity.
  - cbn [map fold_right length]. rewrite IH.
    unfold weight. rewrite Hr. rewrite Nat2Z.inj_succ, <- Z.add_1_l.
    rewrite inject_Z_plus. ring.
Qed.

(** C10, as amended.  For n > 0 seasons and m > 0 hours the weight 1/(n*m)
    is a float, and with it the table SegFrac holds exactly n*m rows, one
    for each pair of the product of the season labels with the hour labels
    and no pair twice, every row carrying that same float.  The stored
    weights add up to n*m times the float.  That sum is 1 exactly when n*m
    is a power of two (up to 2^1074); otherwise it is not 1, and it stays
    within 2^-53 of 1 as long as 1/(n*m) is a normal float. *)
Theorem segfrac_slices (db : database) (n m : Z) :
  (0 < n)%Z -> (0 < m)%Z ->
  lookup_table "SegFrac" db = None ->
  exists segfrac db' rows,
    slice_weight n m = Ok segfrac /\
    create_segfrac db segfrac (season_labels n) (hour_labels m) = Ok db' /\
    rows_of "SegFrac" db' = Some rows /\
    length rows = Z.to_nat (n * m) /\
    map slice_key rows =
      list_prod (map VText (concat (season_labels n)))
                (map VText (concat (hour_labels m))) /\
    NoDup (map slice_key rows) /\
    Forall (fun r => column 2 r = VReal segfrac) rows /\
    total_weight rows == inject_Z (n * m) * segfrac /\
    (total_weight rows == 1 <->
     exists j, (0 <= j <= 1074)%Z /\ (n * m = 2 ^ j)%Z) /\
    ((n * m < 2 ^ 1022)%Z -> Qabs (total_weight rows - 1) <= pow2 (-53)).
Proof.
  intros Hn Hm Hdb.
  destruct (truediv_unit_sum (n * m) ltac:(lia))
    as (segfrac & Hq & Hlo & Hhi & Hone & Herr).
  set (g := fun ts : list string * list string =>
              [VText (hd "" (fst ts)); VText (hd "" (snd ts));
               VReal segfrac; VText "fraction of year"]).
  set (rows := map g (list_prod (season_labels n) (hour_labels m))).
  assert (Hkeys : map slice_key rows =
                  list_prod (map VText (concat (season_labels n)))
                            (map VText (concat (hour_labels m))))
    by apply slice_keys_labels.
  assert (Hnd : NoDup (map slice_key rows))
    by (rewrite Hkeys; apply slice_labels_NoDup).
  assert (Hw : Forall (fun r => column 2 r = VReal segfrac) rows).
  { apply Forall_forall. intros r Hr. apply in_map_iff in Hr.
    destruct Hr as (ts & <- & _). reflexivity. }
  assert (Hlen : length rows = Z.to_nat (n * m)).
  { unfold rows. rewrite length_map, length_prod.
    unfold season_labels, hour_labels.
    rewrite !length_map, !range_length. rewrite Z2Nat.inj_mul; lia. }
  assert (Hins : insert SegFrac_schema [] rows = Ok rows).
  { apply (insert_NoDup SegFrac_schema slice_key
             (fun r => exists ts, r = g ts)).
    - intros r r' [ts ->] [ts' ->]. unfold key_of, slice_key, column.
      simpl. intros E. apply andb_prop in E. destruct E as [E1 E2].
      apply andb_prop in E2. destruct E2 as [E2 _].
      apply String.eqb_eq in E1, E2. now rewrite E1, E2.
    - simpl. apply Forall_forall. intros r Hr. apply in_map_iff in Hr.
      destruct Hr as (ts & <- & _). now exists ts.
    - apply Forall_forall. intros r Hr. apply in_map_iff in Hr.
      destruct Hr as (ts & <- & _).
      apply andb_true_intro. split; now apply Qle_bool_iff.
    - exact Hnd. }
  destruct (create_ok "SegFrac" SegFrac_schema rows db Hdb Hins)
    as (db' & Hcreate & Hrows).
  assert (Hsum : total_weight rows == inject_Z (n * m) * segfrac).
  { rewrite (total_weight_const segfrac rows Hw).
    change (@length row rows) with (length rows).
    rewrite Hlen, Z2Nat.id by lia. reflexivity. }
  exists segfrac, db', rows.
  split; [exact Hq|]. split.
  { unfold create_segfrac. rewrite SegFrac_entries_labels. exact Hcreate. }
  split; [exact Hrows|]. split; [exact Hlen|]. split; [exact Hkeys|].
  split; [exact Hnd|]. split; [exact Hw|]. split; [exact Hsum|]. split.
  - rewrite Hsum. exact Hone.
  - intros Hk. rewrite Hsum. now apply Herr.
Qed.

(** Two seasons and three hours: six slices, each weighted by the float
    1/6. *)
Lemma segfrac_slices_witness :
  exists segfrac db' rows,
    slice_weight 2 3 = Ok segfrac /\
    create_segfrac [] segfrac (season_labels 2) (hour_labels 3) = Ok db' /\
    rows_of "SegFrac" db' = Some rows /\
    length rows = Z.to_nat (2 * 3) /\
    map slice_key rows =
      list_prod (map VText (concat (season_labels 2)))
                (map VText (concat (hour_labels 3))) /\
    NoDup (map slice_key rows) /\
    Forall (fun r => column 2 r = VReal segfrac) rows /\
    total_weight rows == inject_Z (2 * 3) * segfrac /\
    (total_weight rows == 1 <->
     exists j, (0 <= j <= 1074)%Z /\ (2 * 3 = 2 ^ j)%Z) /\
    ((2 * 3 < 2 ^ 1022)%Z -> Qabs (total_weight rows - 1) <= pow2 (-53)).
Proof.
  apply (segfrac_slices [] 2 3); [lia | lia | reflexivity].
Defined.

(** C10, as stated, fails: with two seasons and three hours the weight is
    the float nearest to 1/6, which is 6004799503160661 / 2^55; the six
    rows of SegFrac carry it and the six weights add up to 1 - 2^-54. *)
Lemma six_sixths_fall_short_of_one :
  exists segfrac db' rows,
    slice_weight 2 3 = Ok segfrac /\
    segfrac == 6004799503160661 # 36028797018963968 /\
    create_segfrac [] segfrac (season_labels 2) (hour_labels 3) = Ok db' /\
    rows_of "SegFrac" db' = Some rows /\
    length rows = 6%nat /\
    Forall (fun r => column 2 r = VReal segfrac) rows /\
    total_weight rows == 1 - pow2 (-54) /\
    ~ total_weight rows == 1.
Proof.
  eexists _, _, _.
  split; [vm_compute; reflexivity|].
  split; [reflexivity|].
  split; [vm_compute; reflexivity|].
  split; [reflexivity|].
  split; [reflexivity|].
  split; [repeat constructor|].
  split; [reflexivity|].
  intros E. vm_compute in E. discriminate E.
Qed.

(** ** CostVariable and CostFixed: the age gate *)

Lemma Qltb_lt (x y : Q) : Qltb x y = true <-> x < y.
Proof.
  unfold Qltb. rewrite negb_true_iff. split.
  - intros H. apply Qnot_le_lt. intros Hle.
    apply Qle_bool_iff in Hle. congruence.
  - intros H. destruct (Qle_bool y x) eqn:E; [|reflexivity].
    apply Qle_bool_iff in E. now apply Qlt_not_le in H.
Qed.

Lemma vintage_pool_keys (tech : Technology.t) (place : string)
    (time_horizon years : list Z) :
  vintage_pool tech place time_horizon = Ok years ->
  exists ec, sget (existing_capacity tech) place = Ok ec /\
             years = keys ec ++ time_horizon.
Proof.
  unfold vintage_pool. intros H. inv_bind H. exists x. split; [exact E|].
  destruct x as [|kv ec]; simpl in H; now injection H.
Qed.

Lemma Cost_entries_by_tech (cost : Technology.t -> sdict (zdict Q))
    (technology_list : list Technology.t) (time_horizon : list Z) :
  Cost_entries cost technology_list time_horizon =
  (by_tech <- mapM (Cost_tech cost time_horizon) technology_list ;;
   Ok (concat by_tech)).
Proof.
  unfold Cost_entries.
  rewrite (foldM_extend _ (Cost_tech cost time_horizon)); [reflexivity|].
  intros e tech. unfold Cost_tech.
  destruct (0 <? length (cost tech))%nat.
  - rewrite (foldM_extend _ (Cost_place (cost tech) tech time_horizon))
      by reflexivity.
    destruct (mapM _ (regions tech)); reflexivity.
  - simpl. now rewrite app_nil_r.
Qed.

Lemma Cost_pair_aged (cost : sdict (zdict Q)) (tech : Technology.t)
    (time_horizon : list Z) (place : string) (lifetime : Q) (ec : zdict Q)
    (yv : Z * Z) (b : list row) :
  sget (tech_lifetime tech) place = Ok lifetime ->
  sget (existing_capacity tech) place = Ok ec ->
  In (fst yv) time_horizon ->
  In (snd yv) (keys ec ++ time_horizon) ->
  Cost_pair cost tech place lifetime yv = Ok b ->
  Forall (aged_row tech time_horizon place) b.
Proof.
  intros Hl Hec Hy Hv Hb. unfold Cost_pair in Hb.
  destruct (Qltb (inject_Z (fst yv - snd yv)) lifetime) eqn:Hage.
  - inv_bind Hb. injection Hb as <-. constructor; [|constructor].
    unfold Cost_row in E. inv_bind E. inv_bind E. injection E as <-.
    exists (fst yv), (snd yv), x1, lifetime, ec.
    repeat split; auto. now apply Qltb_lt.
  - injection Hb as <-. constructor.
Qed.

Lemma Cost_place_aged (cost : sdict (zdict Q)) (tech : Technology.t)
    (time_horizon : list Z) (place : string) (rows : list row) :
  Cost_place cost tech time_horizon place = Ok rows ->
  Forall (aged_row tech time_horizon place) rows.
Proof.
  unfold Cost_place. intros H. inv_bind H. rename x into lifetime.
  inv_bind H. rename x into years.
  apply vintage_pool_keys in E0. destruct E0 as (ec & Hec & ->).
  rewrite (foldM_extend _ (Cost_pair cost tech place lifetime)) in H
    by reflexivity.
  inv_bind H. injection H as <-. simpl. apply mapM_Forall2 in E0.
  apply Forall_concat.
  assert (Forall (fun yv => In (fst yv) time_horizon /\
                            In (snd yv) (keys ec ++ time_horizon))
                 (list_prod time_horizon (keys ec ++ time_horizon))) as Hin.
  { apply Forall_forall. intros [y v] Hyv. now apply in_prod_iff in Hyv. }
  induction E0 as [|yv b pairs bs Hb _ IH]; constructor.
  - inversion Hin; subst. eapply Cost_pair_aged; eauto; tauto.
  - inversion Hin; subst. auto.
Qed.

Lemma Cost_entries_blocks (cost : Technology.t -> sdict (zdict Q))
    (technology_list : list Technology.t) (time_horizon : list Z)
    (entries : list row) :
  Cost_entries cost technology_list time_horizon = Ok entries ->
  exists blocks,
    entries = concat (map (@concat row) blocks) /\
    aged_blocks cost technology_list time_horizon blocks.
Proof.
  rewrite Cost_entries_by_tech. intros H. inv_bind H. injection H as <-.
  apply mapM_Forall2 in E. unfold aged_blocks.
  induction E as [|tech b techs bs Hb _ (blocks & Hc & IH)].
  - exists []. split; [reflexivity | constructor].
  - unfold Cost_tech in Hb.
    destruct (0 <? length (cost tech))%nat eqn:Hlen.
    + inv_bind Hb. injection Hb as <-. exists (x :: blocks).
      split; [simpl; now rewrite Hc|]. constructor; [|exact IH]. right.
      apply mapM_Forall2 in E.
      induction E as [|place rows places rowss Hp _ IHp]; constructor; auto.
      eapply Cost_place_aged; eauto.
    + injection Hb as <-. exists ([] :: blocks).
      split; [simpl; now rewrite Hc|]. constructor; [|exact IH]. left.
      split; [|reflexivity].
      destruct (cost tech); [reflexivity | discriminate].
Qed.

(** C1. In the tables CostVariable and CostFixed the rows come technology by
    technology and, for a technology with a non-empty cost map, region by
    region of its region list; every row written for a technology and a
    region has [period - vintage < lifetime] for the lifetime of that
    technology in that region, its period is a year of the time horizon and
    its vintage is a key of the existing-capacity map (any key, surviving or
    not) or a year of the time horizon. *)
Theorem cost_rows_within_lifetime (db : database)
    (technology_list : list Technology.t) (time_horizon : list Z)
    (db' : database) :
  (create_variable_cost db technology_list time_horizon = Ok db' ->
   exists blocks,
     rows_of "CostVariable" db' = Some (concat (map (@concat row) blocks)) /\
     aged_blocks cost_variable technology_list time_horizon blocks) /\
  (create_fixed_cost db technology_list time_horizon = Ok db' ->
   exists blocks,
     rows_of "CostFixed" db' = Some (concat (map (@concat row) blocks)) /\
     aged_blocks cost_fixed technology_list time_horizon blocks).
Proof.
  split; intros H;
    [unfold create_variable_cost in H | unfold create_fixed_cost in H];
    inv_bind H; apply create_rows in H; destruct H as [_ H];
    apply Cost_entries_blocks in E; destruct E as (blocks & -> & Hb);
    exists blocks; auto.
Qed.

Lemma cost_rows_within_lifetime_witness :
  exists db',
    create_variable_cost [] [plant (20 # 1) costs_2020_2030] horizon = Ok db' /\
    rows_of "CostVariable" db' =
      Some [cost_row "R1" "PLANT" 2020 2010 (1 # 1);
            cost_row "R1" "PLANT" 2020 2020 (1 # 1);
            cost_row "R1" "PLANT" 2020 2030 (1 # 1);
            cost_row "R1" "PLANT" 2030 2020 (2 # 1);
            cost_row "R1" "PLANT" 2030 2030 (2 # 1)] /\
    exists blocks,
      rows_of "CostVariable" db' = Some (concat (map (@concat row) blocks)) /\
      aged_blocks cost_variable [plant (20 # 1) costs_2020_2030] horizon blocks.
Proof.
  eexists. split; [reflexivity|]. split; [reflexivity|].
  apply (proj1 (cost_rows_within_lifetime
                  [] [plant (20 # 1) costs_2020_2030] horizon _)).
  reflexivity.
Defined.

(** ** CostVariable and CostFixed: technologies without costs *)

Lemma mapM_app {A B : Type} (f : A -> result B) (l1 l2 : list A) :
  mapM f (l1 ++ l2) =
  (b1 <- mapM f l1 ;; b2 <- mapM f l2 ;; Ok (b1 ++ b2)).
Proof.
  induction l1 as [|a l1 IH]; simpl.
  - destruct (mapM f l2); reflexivity.
  - destruct (f a); simpl; [|reflexivity]. rewrite IH.
    destruct (mapM f l1); simpl; [|reflexivity].
    destruct (mapM f l2); reflexivity.
Qed.

Lemma mapM_raise {A B : Type} (f : A -> result B) (l : list A) (e : exn) :
  mapM f l = Raise e -> exists a, In a l /\ f a = Raise e.
Proof.
  induction l as [|a l IH]; simpl; [discriminate|].
  destruct (f a) as [b|e'] eqn:Ea; simpl.
  - destruct (mapM f l) as [bs|e'']; simpl; [discriminate|].
    intros H. injection H as ->. destruct (IH eq_refl) as (a' & Hin & Ha').
    exists a'. auto.
  - intros H. injection H as ->. exists a. auto.
Qed.

Lemma getitem_raise {K V : Type} (eqb : K -> K -> bool) (d : dict K V)
    (k : K) (e : exn) :
  getitem eqb d k = Raise e -> e = KeyError.
Proof.
  unfold getitem. destruct (dict_get eqb k d); [discriminate|].
  now intros H; injection H.
Qed.

Lemma bind_raise {A B : Type} (m : result A) (k : A -> result B) (e : exn) :
  bind m k = Raise e -> m = Raise e \/ exists a, m = Ok a /\ k a = Raise e.
Proof.
  destruct m as [a|e']; simpl; intros H.
  - right. exists a. split; [reflexivity | exact H].
  - left. now injection H as ->.
Qed.

Lemma Cost_tech_empty (cost : Technology.t -> sdict (zdict Q))
    (time_horizon : list Z) (tech : Technology.t) :
  cost tech = [] -> Cost_tech cost time_horizon tech = Ok [].
Proof. unfold Cost_tech. now intros ->. Qed.

Lemma Cost_entries_skip (cost : Technology.t -> sdict (zdict Q))
    (techs1 techs2 : list Technology.t) (tech : Technology.t)
    (time_horizon : list Z) :
  cost tech = [] ->
  Cost_entries cost (techs1 ++ tech :: techs2) time_horizon =
  Cost_entries cost (techs1 ++ techs2) time_horizon.
Proof.
  intros H. rewrite !Cost_entries_by_tech, !mapM_app. simpl.
  rewrite (Cost_tech_empty _ _ _ H). simpl.
  destruct (mapM _ techs1); simpl; [|reflexivity].
  destruct (mapM _ techs2); simpl; [|reflexivity].
  now rewrite !concat_app.
Qed.

Lemma Cost_entries_all_empty (cost : Technology.t -> sdict (zdict Q))
    (technology_list : list Technology.t) (time_horizon : list Z) :
  Forall (fun tech => cost tech = []) technology_list ->
  Cost_entries cost technology_list time_horizon = Ok [].
Proof.
  intros H. rewrite Cost_entries_by_tech.
  rewrite (mapM_pure _ (fun _ => [])).
  - simpl. f_equal. induction technology_list; simpl; auto.
    apply IHtechnology_list. now inversion H.
  - rewrite Forall_forall in H. intros tech Hin.
    now apply Cost_tech_empty, H.
Qed.

Lemma Cost_entries_raise (cost : Technology.t -> sdict (zdict Q))
    (technology_list : list Technology.t) (time_horizon : list Z) (e : exn) :
  Cost_entries cost technology_list time_horizon = Raise e -> e = KeyError.
Proof.
  rewrite Cost_entries_by_tech. intros H.
  apply bind_raise in H. destruct H as [H|(? & _ & H)]; [|discriminate].
  apply mapM_raise in H. destruct H as (tech & _ & H).
  unfold Cost_tech in H.
  destruct (0 <? length (cost tech))%nat; [|discriminate].
  apply bind_raise in H. destruct H as [H|(? & _ & H)]; [|discriminate].
  apply mapM_raise in H. destruct H as (place & _ & H).
  unfold Cost_place in H.
  apply bind_raise in H.
  destruct H as [H|(lifetime & _ & H)]; [now apply getitem_raise in H|].
  apply bind_raise in H. destruct H as [H|(years & _ & H)].
  { unfold vintage_pool in H. apply bind_raise in H.
    destruct H as [H|(ec & _ & H)]; [now apply getitem_raise in H|].
    destruct (0 <? length ec)%nat; discriminate. }
  rewrite (foldM_extend _ (Cost_pair (cost tech) tech place lifetime)) in H
    by reflexivity.
  apply bind_raise in H. destruct H as [H|(? & _ & H)]; [|discriminate].
  apply mapM_raise in H. destruct H as (yv & _ & H).
  unfold Cost_pair in H.
  destruct (Qltb (inject_Z (fst yv - snd yv)) lifetime); [|discriminate].
  apply bind_raise in H. destruct H as [H|(? & _ & H)]; [|discriminate].
  unfold Cost_row in H. apply bind_raise in H.
  destruct H as [H|(by_year & _ & H)]; [now apply getitem_raise in H|].
  apply bind_raise in H.
  destruct H as [H|(? & _ & H)]; [now apply getitem_raise in H | discriminate].
Qed.

(** An empty cost map for a region stops the loops at the first pair that
    passes the age test. *)
Lemma Cost_entries_empty_region (cost : Technology.t -> sdict (zdict Q))
    (technology_list : list Technology.t) (time_horizon : list Z)
    (tech : Technology.t) (place : string) (lifetime : Q) (ec : zdict Q)
    (year vintage : Z) :
  In tech technology_list ->
  In place (regions tech) ->
  sget (cost tech) place = Ok [] ->
  sget (tech_lifetime tech) place = Ok lifetime ->
  sget (existing_capacity tech) place = Ok ec ->
  In year time_horizon ->
  In vintage (keys ec ++ time_horizon) ->
  inject_Z (year - vintage) < lifetime ->
  Cost_entries cost technology_list time_horizon = Raise KeyError.
Proof.
  intros Htech Hplace Hcost Hlife Hec Hy Hv Hage.
  destruct (Cost_entries cost technology_list time_horizon) as [rows|e] eqn:H.
  - exfalso. rewrite Cost_entries_by_tech in H.
    assert (is_ok (mapM (Cost_tech cost time_horizon) technology_list) = false)
      as Hno; [|destruct (mapM _ technology_list); discriminate].
    apply (mapM_In_raise _ _ tech Htech). unfold Cost_tech.
    assert ((0 <? length (cost tech))%nat = true) as ->.
    { unfold sget, getitem in Hcost. destruct (cost tech); [discriminate|].
      reflexivity. }
    assert (is_ok (mapM (Cost_place (cost tech) tech time_horizon)
                        (regions tech)) = false)
      as Hno; [|destruct (mapM _ (regions tech)); [discriminate|reflexivity]].
    apply (mapM_In_raise _ _ place Hplace). unfold Cost_place.
    rewrite Hlife. simpl. unfold vintage_pool. rewrite Hec. simpl.
    assert ((if (0 <? length ec)%nat then Ok (keys ec ++ time_horizon)
             else Ok time_horizon) = Ok (keys ec ++ time_horizon)) as ->
        by (destruct ec; reflexivity).
    simpl. rewrite (foldM_extend _ (Cost_pair (cost tech) tech place lifetime))
      by reflexivity.
    assert (is_ok (mapM (Cost_pair (cost tech) tech place lifetime)
                        (list_prod time_horizon (keys ec ++ time_horizon)))
            = false)
      as Hno; [|destruct (mapM _ (list_prod _ _)); [discriminate|reflexivity]].
    apply (mapM_In_raise _ _ (year, vintage)); [now apply in_prod|].
    unfold Cost_pair. simpl. apply Qltb_lt in Hage. rewrite Hage.
    unfold Cost_row. rewrite Hcost. reflexivity.
  - now rewrite (Cost_entries_raise _ _ _ _ H).
Qed.

(** C9, as amended.  A technology whose cost-variable (cost-fixed) map is
    empty is skipped: the table CostVariable (CostFixed) is built exactly as
    if the technology were absent, and when every technology is like that
    the table is created empty.  The test looks at the whole map of the
    technology; when the map is not empty but holds an empty map for one
    region, a (period, vintage) pair of that region that passes the age test
    makes the build fail with a KeyError. *)
Theorem empty_cost_map_skipped (db : database)
    (techs1 techs2 : list Technology.t) (tech : Technology.t)
    (time_horizon : list Z) :
  (cost_variable tech = [] ->
   create_variable_cost db (techs1 ++ tech :: techs2) time_horizon =
   create_variable_cost db (techs1 ++ techs2) time_horizon) /\
  (cost_fixed tech = [] ->
   create_fixed_cost db (techs1 ++ tech :: techs2) time_horizon =
   create_fixed_cost db (techs1 ++ techs2) time_horizon) /\
  (Forall (fun tech => cost_variable tech = []) techs1 ->
   lookup_table "CostVariable" db = None ->
   exists db', create_variable_cost db techs1 time_horizon = Ok db' /\
               rows_of "CostVariable" db' = Some []) /\
  (Forall (fun tech => cost_fixed tech = []) techs1 ->
   lookup_table "CostFixed" db = None ->
   exists db', create_fixed_cost db techs1 time_horizon = Ok db' /\
               rows_of "CostFixed" db' = Some []) /\
  (forall (place : string) (lifetime : Q) (ec : zdict Q) (year vintage : Z),
      In place (regions tech) ->
      sget (tech_lifetime tech) place = Ok lifetime ->
      sget (existing_capacity tech) place = Ok ec ->
      In year time_horizon ->
      In vintage (keys ec ++ time_horizon) ->
      inject_Z (year - vintage) < lifetime ->
      (sget (cost_variable tech) place = Ok [] ->
       create_variable_cost db (techs1 ++ tech :: techs2) time_horizon =
       Raise KeyError) /\
      (sget (cost_fixed tech) place = Ok [] ->
       create_fixed_cost db (techs1 ++ tech :: techs2) time_horizon =
       Raise KeyError)).
Proof.
  split; [|split; [|split; [|split]]].
  - intros H. unfold create_variable_cost.
    now rewrite (Cost_entries_skip cost_variable _ _ _ _ H).
  - intros H. unfold create_fixed_cost.
    now rewrite (Cost_entries_skip cost_fixed _ _ _ _ H).
  - intros H L. unfold create_variable_cost.
    rewrite (Cost_entries_all_empty cost_variable _ _ H). simpl bind.
    now apply create_ok.
  - intros H L. unfold create_fixed_cost.
    rewrite (Cost_entries_all_empty cost_fixed _ _ H). simpl bind.
    now apply create_ok.
  - intros place lifetime ec year vintage Hp Hl Hec Hy Hv Hage.
    assert (In tech (techs1 ++ tech :: techs2)) as Hin
        by (apply in_or_app; right; now left).
    split; intros Hc;
      [unfold create_variable_cost | unfold create_fixed_cost];
      erewrite Cost_entries_empty_region; eauto.
Qed.

Lemma empty_cost_map_skipped_witness :
  create_variable_cost [] ([] ++ free_plant :: [plant (20 # 1) costs_2020_2030])
                       horizon =
  create_variable_cost [] ([] ++ [plant (20 # 1) costs_2020_2030]) horizon /\
  (exists db', create_fixed_cost [] [free_plant] horizon = Ok db' /\
               rows_of "CostFixed" db' = Some []) /\
  create_variable_cost [] ([free_plant] ++ plant (20 # 1) [] :: []) horizon =
  Raise KeyError.
Proof.
  split; [|split].
  - apply (proj1 (empty_cost_map_skipped
                    [] [] [plant (20 # 1) costs_2020_2030] free_plant horizon)).
    reflexivity.
  - apply (proj1 (proj2 (proj2 (proj2
             (empty_cost_map_skipped [] [free_plant] [] free_plant horizon))))).
    + repeat constructor.
    + reflexivity.
  - apply (proj2 (proj2 (proj2 (proj2
             (empty_cost_map_skipped [] [free_plant] [] (plant (20 # 1) [])
                                     horizon))))
             "R1" (20 # 1) [(2010%Z, 100 # 1)] 2020%Z 2020%Z).
    + simpl. auto.
    + reflexivity.
    + reflexivity.
    + simpl. auto.
    + simpl. auto.
    + reflexivity.
    + reflexivity.
Defined.

(** C9, as stated, fails: the plant has one region, R1, and an empty
    cost-variable map for it, and the build of CostVariable raises. *)
Lemma empty_region_cost_map_raises :
  sget (cost_variable (plant (20 # 1) [])) "R1" = Ok [] /\
  create_variable_cost [] [plant (20 # 1) []] horizon = Raise KeyError /\
  ~ (exists db', create_variable_cost [] [plant (20 # 1) []] horizon = Ok db').
Proof.
  split; [reflexivity|]. split; [reflexivity|].
  intros [db' H]. discriminate H.
Qed.

(** ** Loops that write one table *)

(** A loop whose passes each append rows to one table appends them all. *)
Lemma foldM_appends {A : Type} (name : string) (g : A -> list row)
    (f : database -> A -> result database) :
  (forall db a db' t,
      lookup_table name db = Some t -> f db a = Ok db' ->
      lookup_table name db' =
        Some {| tbl_schema := tbl_schema t; tbl_rows := tbl_rows t ++ g a |}) ->
  forall l db db' t,
    lookup_table name db = Some t -> foldM f db l = Ok db' ->
    lookup_table name db' =
      Some {| tbl_schema := tbl_schema t;
              tbl_rows := tbl_rows t ++ flat_map g l |}.
Proof.
  intros Hf. induction l as [|a l IH]; simpl; intros db db' t L H.
  - injection H as <-. rewrite app_nil_r. now destruct t.
  - inv_bind H. pose proof (Hf _ _ _ _ L E) as L1.
    rewrite (IH _ _ _ L1 H). simpl. now rewrite app_assoc.
Qed.

Lemma executemany_appends (name : string) (entries : list row)
    (db db' : database) (t : table) :
  lookup_table name db = Some t -> executemany name entries db = Ok db' ->
  lookup_table name db' =
    Some {| tbl_schema := tbl_schema t; tbl_rows := tbl_rows t ++ entries |}.
Proof.
  intros L H. apply executemany_rows in H. destruct H as (t' & L' & H).
  rewrite L in L'. now injection L' as <-.
Qed.

Lemma Demand_rows (db db' : database) (demand_list : list Commodity.t)
    (years : list Z) :
  create_demand_table db demand_list years = Ok db' ->
  rows_of "Demand" db' =
    Some (flat_map (fun c => flat_map (fun rd => Demand_entry c (fst rd)
                                                              (snd rd) years)
                                      (Commodity.demand c))
                   demand_list).
Proof.
  unfold create_demand_table. intros H. inv_bind H.
  unfold execute in E. destruct (lookup_table "Demand" db) eqn:L; [discriminate|].
  injection E as <-.
  pose proof (lookup_table_fresh "Demand"
                {| tbl_schema := Demand_schema; tbl_rows := [] |} db L) as L1.
  assert (forall db1 c db2 t,
             lookup_table "Demand" db1 = Some t ->
             foldM (fun db region_data =>
                      executemany "Demand"
                        (Demand_entry c (fst region_data) (snd region_data)
                                      years) db)
                   db1 (Commodity.demand c) = Ok db2 ->
             lookup_table "Demand" db2 =
               Some {| tbl_schema := tbl_schema t;
                       tbl_rows :=
                         tbl_rows t ++
                         flat_map (fun rd => Demand_entry c (fst rd) (snd rd)
                                                          years)
                                  (Commodity.demand c) |}) as Hstep.
  { intros db1 c db2 t L2 H2.
    apply (foldM_appends "Demand"
             (fun rd => Demand_entry c (fst rd) (snd rd) years)
             _ (fun db3 rd db4 t' L3 H3 =>
                  executemany_appends _ _ _ _ _ L3 H3)
             _ _ _ _ L2 H2). }
  unfold rows_of.
  now rewrite (foldM_appends "Demand" _ _ Hstep _ _ _ _ L1 H).
Qed.

(** ** Loops over a shared slice iterator *)

Lemma foldM_slice_passes {D : Type} (name : string) (vals : D -> list Q)
    (mk : string -> Q * time_slice -> result row)
    (f : database * list time_slice -> string * D ->
         result (database * list time_slice)) :
  (forall st pd,
      f st pd =
      (let (pairs, rest) := zip_iter (vals (snd pd)) (snd st) in
       entry <- mapM (mk (fst pd)) pairs ;;
       db <- executemany name entry (fst st) ;;
       Ok (db, rest))) ->
  forall l db it st' t,
    lookup_table name db = Some t ->
    foldM f (db, it) l = Ok st' ->
    exists rows,
      slice_passes vals mk it l = Ok rows /\
      lookup_table name (fst st') =
        Some {| tbl_schema := tbl_schema t; tbl_rows := tbl_rows t ++ rows |}.
Proof.
  intros Hf. induction l as [|pd l IH]; simpl; intros db it st' t L H.
  - injection H as <-. exists []. split; [reflexivity|].
    simpl. rewrite app_nil_r. now destruct t.
  - apply bind_Ok in H. destruct H as ([db1 it1] & H1 & H).
    rewrite Hf in H1. simpl in H1.
    destruct (zip_iter (vals (snd pd)) it) as [pairs rest] eqn:Hz.
    apply bind_Ok in H1. destruct H1 as (entry & He & H1).
    apply bind_Ok in H1. destruct H1 as (db2 & Hx & H1).
    injection H1 as <- <-.
    pose proof (executemany_appends _ _ _ _ _ L Hx) as L1.
    destruct (IH _ _ _ _ L1 H) as (more & Hm & L2).
    exists (entry ++ more). rewrite He, Hm. simpl. split; [reflexivity|].
    rewrite L2. simpl. now rewrite app_assoc.
Qed.

Lemma foldM_blocks {A : Type} (name : string) (R : A -> list row -> Prop)
    (f : database -> A -> result database) :
  (forall db a db' t,
      lookup_table name db = Some t -> f db a = Ok db' ->
      exists rows,
        R a rows /\
        lookup_table name db' =
          Some {| tbl_schema := tbl_schema t;
                  tbl_rows := tbl_rows t ++ rows |}) ->
  forall l db db' t,
    lookup_table name db = Some t -> foldM f db l = Ok db' ->
    exists blocks,
      Forall2 R l blocks /\
      lookup_table name db' =
        Some {| tbl_schema := tbl_schema t;
                tbl_rows := tbl_rows t ++ concat blocks |}.
Proof.
  intros Hf. induction l as [|a l IH]; simpl; intros db db' t L H.
  - injection H as <-. exists []. split; [constructor|].
    simpl. rewrite app_nil_r. now destruct t.
  - apply bind_Ok in H. destruct H as (db1 & H1 & H).
    destruct (Hf _ _ _ _ L H1) as (rows & HR & L1).
    destruct (IH _ _ _ L1 H) as (blocks & HF & L2).
    exists (rows :: blocks). split; [now constructor|].
    rewrite L2. simpl. now rewrite app_assoc.
Qed.

Lemma slice_row_inv (region name notes : string) (d : Q) (ts : time_slice)
    (r : row) :
  slice_row region name notes (d, ts) = Ok r ->
  exists a b, first (fst ts) = Ok a /\ first (snd ts) = Ok b /\
              r = [VText region; VText a; VText b; VText name; VReal d;
                   VText notes].
Proof.
  unfold slice_row. simpl. intros H.
  apply bind_Ok in H. destruct H as (a & Ha & H).
  apply bind_Ok in H. destruct H as (b & Hb & H).
  injection H as <-. exists a, b. auto.
Qed.




Lemma Forall2_mapM {A B : Type} (f : A -> result B) (l : list A)
    (bs : list B) :
  Forall2 (fun a b => f a = Ok b) l bs -> mapM f l = Ok bs.
Proof.
  induction 1 as [|a b l bs Hab _ IH]; simpl; [reflexivity|].
  now rewrite Hab, IH.
Qed.

(** On success the slice-indexed tables hold the rows of the passes. *)
Lemma DemandSpecificDistribution_rows (db db' : database)
    (demand_list : list Commodity.t) (seasons hours : list (list string)) :
  create_demand_specific_distribution db demand_list seasons hours = Ok db' ->
  exists rows,
    DemandSpecificDistribution_entries demand_list seasons hours = Ok rows /\
    lookup_table "DemandSpecificDistribution" db' =
      Some {| tbl_schema := DemandSpecificDistribution_schema;
              tbl_rows := rows |}.
Proof.
  intros H. unfold create_demand_specific_distribution in H.
  apply bind_Ok in H. destruct H as (db1 & Hx & H).
  unfold execute in Hx.
  destruct (lookup_table "DemandSpecificDistribution" db) eqn:L;
    [discriminate|].
  injection Hx as <-.
  pose proof (lookup_table_fresh "DemandSpecificDistribution"
                {| tbl_schema := DemandSpecificDistribution_schema;
                   tbl_rows := [] |} db L) as L1.
  assert (forall dbA comm dbB t,
             lookup_table "DemandSpecificDistribution" dbA = Some t ->
             (st <- foldM (dsd_region comm) (dbA, list_prod hours seasons)
                          (Commodity.distribution comm) ;;
              Ok (fst st)) = Ok dbB ->
             exists rows,
               slice_passes (fun series : list Q => series)
                            (fun place =>
                               slice_row place (Commodity.comm_name comm)
                                         (Commodity.units comm))
                            (list_prod hours seasons)
                            (Commodity.distribution comm) = Ok rows /\
               lookup_table "DemandSpecificDistribution" dbB =
                 Some {| tbl_schema := tbl_schema t;
                         tbl_rows := tbl_rows t ++ rows |}) as Hstep.
  { intros dbA comm dbB t LA HA.
    apply bind_Ok in HA. destruct HA as (st & Hst & HA). injection HA as <-.
    exact (foldM_slice_passes "DemandSpecificDistribution"
             (fun series : list Q => series)
             (fun place => slice_row place (Commodity.comm_name comm)
                                     (Commodity.units comm))
             (dsd_region comm)
             (fun st pd => eq_refl) _ _ _ _ _ LA Hst). }
  destruct (foldM_blocks "DemandSpecificDistribution"
              (fun comm rows =>
                 slice_passes (fun series : list Q => series)
                              (fun place =>
                                 slice_row place (Commodity.comm_name comm)
                                           (Commodity.units comm))
                              (list_prod hours seasons)
                              (Commodity.distribution comm) = Ok rows)
              _ Hstep _ _ _ _ L1 H) as (blocks & HF & L2).
  exists (concat blocks). split; [|exact L2].
  unfold DemandSpecificDistribution_entries.
  now rewrite (Forall2_mapM _ _ _ HF).
Qed.

Lemma CapacityFactorTech_rows (db db' : database)
    (technology_list : list Technology.t) (seasons hours : list (list string)) :
  create_capacity_factor_tech db technology_list seasons hours = Ok db' ->
  exists rows,
    CapacityFactorTech_entries technology_list seasons hours = Ok rows /\
    lookup_table "CapacityFactorTech" db' =
      Some {| tbl_schema := CapacityFactorTech_schema; tbl_rows := rows |}.
Proof.
  intros H. unfold create_capacity_factor_tech in H.
  apply bind_Ok in H. destruct H as (db1 & Hx & H).
  unfold execute in Hx.
  destruct (lookup_table "CapacityFactorTech" db) eqn:L; [discriminate|].
  injection Hx as <-.
  pose proof (lookup_table_fresh "CapacityFactorTech"
                {| tbl_schema := CapacityFactorTech_schema; tbl_rows := [] |}
                db L) as L1.
  assert (forall dbA tech dbB t,
             lookup_table "CapacityFactorTech" dbA = Some t ->
             (st <- foldM (cft_region tech seasons hours)
                          (dbA, list_prod hours seasons)
                          (capacity_factor_tech tech) ;;
              Ok (fst st)) = Ok dbB ->
             exists rows,
               slice_passes (cf_values seasons hours)
                            (fun place => slice_row place (tech_name tech) "")
                            (list_prod hours seasons)
                            (capacity_factor_tech tech) = Ok rows /\
               lookup_table "CapacityFactorTech" dbB =
                 Some {| tbl_schema := tbl_schema t;
                         tbl_rows := tbl_rows t ++ rows |}) as Hstep.
  { intros dbA tech dbB t LA HA.
    apply bind_Ok in HA. destruct HA as (st & Hst & HA). injection HA as <-.
    exact (foldM_slice_passes "CapacityFactorTech"
             (cf_values seasons hours)
             (fun place => slice_row place (tech_name tech) "")
             (cft_region tech seasons hours)
             (fun st pd => eq_refl) _ _ _ _ _ LA Hst). }
  destruct (foldM_blocks "CapacityFactorTech"
              (fun tech rows =>
                 slice_passes (cf_values seasons hours)
                              (fun place => slice_row place (tech_name tech) "")
                              (list_prod hours seasons)
                              (capacity_factor_tech tech) = Ok rows)
              _ Hstep _ _ _ _ L1 H) as (blocks & HF & L2).
  exists (concat blocks). split; [|exact L2].
  unfold CapacityFactorTech_entries.
  now rewrite (Forall2_mapM _ _ _ HF).
Qed.

(** ** Tables without rows *)

Lemma set_table_same (name : string) (t : table) (db : database) :
  lookup_table name db = Some t ->
  set_table name {| tbl_schema := tbl_schema t; tbl_rows := tbl_rows t |} db = db.
Proof.
  unfold lookup_table. induction db as [|[n t'] db IH]; simpl; [reflexivity|].
  destruct (String.eqb name n) eqn:E.
  - intros H. injection H as ->. now destruct t.
  - intros H. now rewrite IH.
Qed.

Lemma executemany_nil (name : string) (t : table) (db : database) :
  lookup_table name db = Some t -> executemany name [] db = Ok db.
Proof.
  intros H. unfold executemany. rewrite H. simpl.
  now rewrite set_table_same.
Qed.

Lemma foldM_fixed {A S : Type} (f : S -> A -> result S) (s : S) (l : list A) :
  (forall a, In a l -> f s a = Ok s) -> foldM f s l = Ok s.
Proof.
  induction l as [|a l IH]; simpl; intros H; [reflexivity|].
  rewrite H by auto. simpl. auto.
Qed.

Lemma zip_iter_exhausted {A B : Type} (data : list A) :
  zip_iter data (@nil B) = ([], []).
Proof. destruct data; reflexivity. Qed.

(** [CREATE TABLE] followed by a loop whose passes insert no row. *)
Lemma create_then_nothing {A : Type} (name : string) (sch : schema)
    (db : database) (f : database -> A -> result database) (l : list A) :
  lookup_table name db = None ->
  (forall db1 t a, In a l -> lookup_table name db1 = Some t ->
                   f db1 a = Ok db1) ->
  exists db', (db1 <- execute name sch db ;; foldM f db1 l) = Ok db'
              /\ lookup_table name db' =
                   Some {| tbl_schema := sch; tbl_rows := [] |}.
Proof.
  intros L Hf. unfold execute. rewrite L. simpl.
  pose proof (lookup_table_fresh name {| tbl_schema := sch; tbl_rows := [] |}
                                 db L) as L'.
  rewrite foldM_fixed by (intros a Ha; eapply Hf; eauto).
  eexists. split; [reflexivity | exact L'].
Qed.

(** [CREATE TABLE] followed by the insertion of no row. *)
Lemma create_empty (name : string) (sch : schema) (db : database) :
  lookup_table name db = None ->
  exists db', (db1 <- execute name sch db ;; executemany name [] db1) = Ok db'
              /\ lookup_table name db' =
                   Some {| tbl_schema := sch; tbl_rows := [] |}.
Proof.
  intros L. unfold execute. rewrite L. simpl.
  pose proof (lookup_table_fresh name {| tbl_schema := sch; tbl_rows := [] |}
                                 db L) as L'.
  rewrite (executemany_nil _ _ _ L').
  eexists. split; [reflexivity | exact L'].
Qed.

Ltac create_from_entries H :=
  rewrite H; simpl bind; now apply create_empty.

Lemma flat_map_nil {A B : Type} (f : A -> list B) (l : list A) :
  flat_map f l = [] -> forall a, In a l -> f a = [].
Proof.
  induction l as [|x l IH]; simpl; intros H a Ha; [contradiction|].
  apply app_eq_nil in H. destruct H as [Hx Hl].
  destruct Ha as [<-|Ha]; auto.
Qed.

Lemma concat_nil {A : Type} (blocks : list (list A)) :
  concat blocks = [] -> Forall (fun b => b = []) blocks.
Proof.
  induction blocks as [|b blocks IH]; simpl; intros H; constructor.
  - now apply app_eq_nil in H.
  - apply IH. now apply app_eq_nil in H.
Qed.

(** When every block computed by [f] is empty, each element gives none. *)
Lemma mapM_all_nil {A B : Type} (f : A -> result (list B)) (l : list A)
    (blocks : list (list B)) :
  mapM f l = Ok blocks -> concat blocks = [] ->
  forall a, In a l -> f a = Ok [].
Proof.
  intros H Hc. apply mapM_Forall2 in H. apply concat_nil in Hc.
  induction H as [|x b l blocks Hx _ IH]; intros a Ha; [contradiction|].
  inversion Hc as [|? ? Hb Hc']; subst.
  destruct Ha as [<-|Ha]; auto.
Qed.

(** Passes over a shared iterator that build no row leave the store as it
    is. *)
Lemma foldM_slice_passes_nil {D : Type} (name : string) (vals : D -> list Q)
    (mk : string -> Q * time_slice -> result row)
    (f : database * list time_slice -> string * D ->
         result (database * list time_slice)) :
  (forall st pd,
      f st pd =
      (let (pairs, rest) := zip_iter (vals (snd pd)) (snd st) in
       entry <- mapM (mk (fst pd)) pairs ;;
       db <- executemany name entry (fst st) ;;
       Ok (db, rest))) ->
  forall l db it t,
    lookup_table name db = Some t ->
    slice_passes vals mk it l = Ok [] ->
    exists it', foldM f (db, it) l = Ok (db, it').
Proof.
  intros Hf. induction l as [|pd l IH]; simpl; intros db it t L H.
  - eauto.
  - rewrite Hf. simpl.
    destruct (zip_iter (vals (snd pd)) it) as [pairs rest].
    apply bind_Ok in H. destruct H as (entry & He & H).
    apply bind_Ok in H. destruct H as (more & Hm & H).
    injection H as H. apply app_eq_nil in H. destruct H as [-> ->].
    rewrite He. simpl. rewrite (executemany_nil _ _ _ L). simpl.
    eapply IH; eauto.
Qed.

(** C5, as amended.  The tables time_season, time_of_day, SegFrac, Demand,
    DemandSpecificDistribution, Efficiency, LifetimeTech, CostVariable,
    CostFixed, CostInvest and CapacityFactorTech are created with their
    schema even when no row is computed for them, which includes an empty
    list of commodities or technologies whatever the time slices.  For the
    three tables written by loops (Demand, DemandSpecificDistribution,
    CapacityFactorTech) the computed rows are the rows that the passes of
    the loops build, and they are what the table holds after a successful
    call.
    ExistingCapacity is not: when no technology has a surviving existing
    vintage the function returns without touching the store, and the table
    exists afterwards only if it has at least one row. *)
Theorem empty_tables (db : database) :
  (forall n : Z,
      (n <= 0)%Z -> lookup_table "time_season" db = None ->
      exists db', create_time_season db n = Ok (db', []) /\
                  lookup_table "time_season" db' =
                    Some {| tbl_schema := time_season_schema;
                            tbl_rows := [] |}) /\
  (forall n : Z,
      (n <= 0)%Z -> lookup_table "time_of_day" db = None ->
      exists db', create_time_of_day db n = Ok (db', []) /\
                  lookup_table "time_of_day" db' =
                    Some {| tbl_schema := time_of_day_schema;
                            tbl_rows := [] |}) /\
  (forall segfrac seasons hours,
      SegFrac_entries segfrac seasons hours = Ok [] ->
      lookup_table "SegFrac" db = None ->
      exists db', create_segfrac db segfrac seasons hours = Ok db' /\
                  lookup_table "SegFrac" db' =
                    Some {| tbl_schema := SegFrac_schema; tbl_rows := [] |}) /\
  (forall demand_list years,
      Demand_entries demand_list years = [] ->
      lookup_table "Demand" db = None ->
      exists db', create_demand_table db demand_list years = Ok db' /\
                  lookup_table "Demand" db' =
                    Some {| tbl_schema := Demand_schema; tbl_rows := [] |}) /\
  (forall demand_list seasons hours,
      DemandSpecificDistribution_entries demand_list seasons hours = Ok [] ->
      lookup_table "DemandSpecificDistribution" db = None ->
      exists db',
        create_demand_specific_distribution db demand_list seasons hours
          = Ok db' /\
        lookup_table "DemandSpecificDistribution" db' =
          Some {| tbl_schema := DemandSpecificDistribution_schema;
                  tbl_rows := [] |}) /\
  (forall technology_list future,
      Efficiency_entries technology_list future = Ok [] ->
      lookup_table "Efficiency" db = None ->
      exists db', create_efficiency db technology_list future = Ok db' /\
                  lookup_table "Efficiency" db' =
                    Some {| tbl_schema := Efficiency_schema;
                            tbl_rows := [] |}) /\
  (forall technology_list,
      LifetimeTech_entries technology_list = Ok [] ->
      lookup_table "LifetimeTech" db = None ->
      exists db', create_lifetime_tech db technology_list = Ok db' /\
                  lookup_table "LifetimeTech" db' =
                    Some {| tbl_schema := LifetimeTech_schema;
                            tbl_rows := [] |}) /\
  (forall technology_list time_horizon,
      Cost_entries cost_variable technology_list time_horizon = Ok [] ->
      lookup_table "CostVariable" db = None ->
      exists db', create_variable_cost db technology_list time_horizon = Ok db'
                  /\ lookup_table "CostVariable" db' =
                       Some {| tbl_schema := Cost_schema; tbl_rows := [] |}) /\
  (forall technology_list time_horizon,
      Cost_entries cost_fixed technology_list time_horizon = Ok [] ->
      lookup_table "CostFixed" db = None ->
      exists db', create_fixed_cost db technology_list time_horizon = Ok db'
                  /\ lookup_table "CostFixed" db' =
                       Some {| tbl_schema := Cost_schema; tbl_rows := [] |}) /\
  (forall technology_list time_horizon,
      CostInvest_entries technology_list time_horizon = Ok [] ->
      lookup_table "CostInvest" db = None ->
      exists db', create_invest_cost db technology_list time_horizon = Ok db'
                  /\ lookup_table "CostInvest" db' =
                       Some {| tbl_schema := CostInvest_schema;
                               tbl_rows := [] |}) /\
  (forall technology_list seasons hours,
      CapacityFactorTech_entries technology_list seasons hours = Ok [] ->
      lookup_table "CapacityFactorTech" db = None ->
      exists db',
        create_capacity_factor_tech db technology_list seasons hours = Ok db'
        /\ lookup_table "CapacityFactorTech" db' =
             Some {| tbl_schema := CapacityFactorTech_schema;
                     tbl_rows := [] |}) /\
  (forall technology_list time_horizon,
      ExistingCapacity_entries technology_list time_horizon = Ok [] ->
      create_existing_capacity db technology_list time_horizon = Ok db) /\
  (forall technology_list time_horizon db',
      create_existing_capacity db technology_list time_horizon = Ok db' ->
      lookup_table "ExistingCapacity" db = None ->
      rows_of "ExistingCapacity" db' = None \/
      exists r rows, rows_of "ExistingCapacity" db' = Some (r :: rows)) /\
  (forall demand_list years db',
      create_demand_table db demand_list years = Ok db' ->
      rows_of "Demand" db' = Some (Demand_entries demand_list years)) /\
  (forall demand_list seasons hours db',
      create_demand_specific_distribution db demand_list seasons hours
        = Ok db' ->
      exists rows,
        DemandSpecificDistribution_entries demand_list seasons hours
          = Ok rows /\
        lookup_table "DemandSpecificDistribution" db' =
          Some {| tbl_schema := DemandSpecificDistribution_schema;
                  tbl_rows := rows |}) /\
  (forall technology_list seasons hours db',
      create_capacity_factor_tech db technology_list seasons hours = Ok db' ->
      exists rows,
        CapacityFactorTech_entries technology_list seasons hours = Ok rows /\
        lookup_table "CapacityFactorTech" db' =
          Some {| tbl_schema := CapacityFactorTech_schema;
                  tbl_rows := rows |}).
Proof.
  repeat apply conj.
  - intros n Hn L. unfold create_time_season, season_labels, range.
    replace (Z.to_nat n) with 0%nat by lia. simpl map.
    unfold execute. rewrite L. simpl bind.
    rewrite (executemany_nil _ _ _ (lookup_table_fresh _ _ _ L)). simpl.
    eexists. split; [reflexivity|]. now apply lookup_table_fresh.
  - intros n Hn L. unfold create_time_of_day, hour_labels, range.
    replace (Z.to_nat n) with 0%nat by lia. simpl map.
    unfold execute. rewrite L. simpl bind.
    rewrite (executemany_nil _ _ _ (lookup_table_fresh _ _ _ L)). simpl.
    eexists. split; [reflexivity|]. now apply lookup_table_fresh.
  - intros segfrac seasons hours H L. unfold create_segfrac.
    create_from_entries H.
  - intros demand_list years H L. unfold create_demand_table.
    apply create_then_nothing; [exact L|].
    intros db1 t c Hc L1. apply foldM_fixed. intros rd Hrd.
    pose proof (flat_map_nil _ _ H c Hc) as Hblock. simpl in Hblock.
    rewrite (flat_map_nil _ _ Hblock rd Hrd).
    eapply executemany_nil; eauto.
  - intros demand_list seasons hours H L.
    unfold DemandSpecificDistribution_entries in H.
    apply bind_Ok in H. destruct H as (blocks & Hb & H). injection H as H.
    unfold create_demand_specific_distribution.
    apply create_then_nothing; [exact L|].
    intros db1 t c Hc L1.
    pose proof (mapM_all_nil _ _ _ Hb H c Hc) as Hp. simpl in Hp.
    destruct (foldM_slice_passes_nil "DemandSpecificDistribution"
                (fun data : list Q => data)
                (fun region => slice_row region (Commodity.comm_name c)
                                         (Commodity.units c))
                (dsd_region c) (fun st pd => eq_refl)
                _ _ _ _ L1 Hp) as (it' & Hfold).
    cbv beta zeta. eapply bind_Ok_intro; [exact Hfold | reflexivity].
  - intros technology_list future H L. unfold create_efficiency.
    create_from_entries H.
  - intros technology_list H L. unfold create_lifetime_tech.
    create_from_entries H.
  - intros technology_list time_horizon H L. unfold create_variable_cost.
    create_from_entries H.
  - intros technology_list time_horizon H L. unfold create_fixed_cost.
    create_from_entries H.
  - intros technology_list time_horizon H L. unfold create_invest_cost.
    create_from_entries H.
  - intros technology_list seasons hours H L.
    unfold CapacityFactorTech_entries in H.
    apply bind_Ok in H. destruct H as (blocks & Hb & H). injection H as H.
    unfold create_capacity_factor_tech.
    apply create_then_nothing; [exact L|].
    intros db1 t tech Ht L1.
    pose proof (mapM_all_nil _ _ _ Hb H tech Ht) as Hp. simpl in Hp.
    destruct (foldM_slice_passes_nil "CapacityFactorTech"
                (cf_values seasons hours)
                (fun place => slice_row place (tech_name tech) "")
                (cft_region tech seasons hours) (fun st pd => eq_refl)
                _ _ _ _ L1 Hp) as (it' & Hfold).
    cbv beta zeta. eapply bind_Ok_intro; [exact Hfold | reflexivity].
  - intros technology_list time_horizon H.
    unfold create_existing_capacity. now rewrite H.
  - intros technology_list time_horizon db' H L.
    unfold create_existing_capacity in H. inv_bind H.
    destruct x as [|r rows]; simpl in H.
    + injection H as <-. left. unfold rows_of. now rewrite L.
    + right. exists r, rows. now apply create_rows in H.
  - intros demand_list years db'. apply Demand_rows.
  - intros demand_list seasons hours db'.
    apply DemandSpecificDistribution_rows.
  - intros technology_list seasons hours db'. apply CapacityFactorTech_rows.
Qed.

(** No technology and no commodity, with six time slices at hand: the
    slice-indexed tables are created empty all the same. *)
Lemma empty_tables_witness :
  (exists db', create_efficiency [] [] horizon = Ok db' /\
               lookup_table "Efficiency" db' =
                 Some {| tbl_schema := Efficiency_schema; tbl_rows := [] |}) /\
  (exists db', create_demand_table [] [coal] horizon = Ok db' /\
               lookup_table "Demand" db' =
                 Some {| tbl_schema := Demand_schema; tbl_rows := [] |}) /\
  (exists db',
      create_demand_specific_distribution [] [] (season_labels 2)
                                          (hour_labels 3) = Ok db' /\
      lookup_table "DemandSpecificDistribution" db' =
        Some {| tbl_schema := DemandSpecificDistribution_schema;
                tbl_rows := [] |}) /\
  (exists db',
      create_capacity_factor_tech [] [free_plant] (season_labels 2)
                                  (hour_labels 3) = Ok db' /\
      lookup_table "CapacityFactorTech" db' =
        Some {| tbl_schema := CapacityFactorTech_schema; tbl_rows := [] |}) /\
  create_existing_capacity [] [plant (5 # 1) costs_2020_2030] horizon = Ok [].
Proof.
  destruct (empty_tables [])
    as (_ & _ & _ & Hdem & Hdsd & Heff & _ & _ & _ & _ & Hcft & Hcap & _).
  split; [|split; [|split; [|split]]].
  - apply Heff; reflexivity.
  - apply Hdem; reflexivity.
  - apply Hdsd; reflexivity.
  - apply Hcft; reflexivity.
  - apply Hcap. reflexivity.
Defined.

(** C5, as stated, fails: the only existing vintage of the plant, 2010, does
    not survive a lifetime of 5 years until 2020; no row is computed and the
    table ExistingCapacity is not created. *)
Lemma existing_capacity_not_created :
  ExistingCapacity_entries [plant (5 # 1) costs_2020_2030] horizon = Ok [] /\
  exists db',
    create_existing_capacity [] [plant (5 # 1) costs_2020_2030] horizon = Ok db'
    /\ rows_of "ExistingCapacity" db' = None.
Proof.
  split; [reflexivity|]. exists []. split; reflexivity.
Qed.

(** ** Pairing a sequence with its coordinates *)





(** ** The shared slice iterator *)

(** A constant capacity factor uses up the whole iterator. *)
Lemma scalar_exhausts_slices (c : Q) (seasons hours : list (list string)) :
  zip_iter (cf_values seasons hours (Scalar c)) (list_prod hours seasons) =
  (combine (repeat c (length hours * length seasons)) (list_prod hours seasons),
   []).
Proof.
  rewrite zip_iter_spec. simpl. f_equal.
  apply skipn_all2. rewrite repeat_length, length_prod. lia.
Qed.

(** Once the iterator is exhausted a region adds no row, whatever its data. *)
Lemma cft_region_exhausted (tech : Technology.t)
    (seasons hours : list (list string)) (db : database) (t : table)
    (place_data : string * cf_data) :
  lookup_table "CapacityFactorTech" db = Some t ->
  cft_region tech seasons hours (db, []) place_data = Ok (db, []).
Proof.
  intros L. unfold cft_region. simpl. rewrite zip_iter_exhausted. simpl.
  now rewrite (executemany_nil _ t).
Qed.

(** After a constant capacity factor, the remaining regions of the
    technology leave the table as it is. *)
Lemma cft_later_regions_silent (tech : Technology.t)
    (seasons hours : list (list string)) (db : database) (t : table)
    (later : sdict cf_data) :
  lookup_table "CapacityFactorTech" db = Some t ->
  foldM (cft_region tech seasons hours) (db, []) later = Ok (db, []).
Proof.
  intros L. apply foldM_fixed. intros place_data _.
  now apply (cft_region_exhausted tech seasons hours db t).
Qed.

(** C7 fails on the plant that declares the capacity factor 1/2 for R1 and
    for R2, with two seasons and one hour: the two rows of R1 are written,
    R2 gets none, because the slices were consumed by R1. *)
Theorem scalar_capacity_factor_first_region_only :
  capacity_factor_tech (plant (20 # 1) costs_2020_2030) =
    [("R1", Scalar (1 # 2)); ("R2", Scalar (1 # 2))] /\
  (length (season_labels 2) * length (hour_labels 1) = 2)%nat /\
  exists db' rows,
    create_capacity_factor_tech [] [plant (20 # 1) costs_2020_2030]
                                (season_labels 2) (hour_labels 1) = Ok db' /\
    rows_of "CapacityFactorTech" db' = Some rows /\
    rows = [[VText "R1"; VText "H1"; VText "S1"; VText "PLANT"; VReal (1 # 2);
             VText ""];
            [VText "R1"; VText "H1"; VText "S2"; VText "PLANT"; VReal (1 # 2);
             VText ""]] /\
    filter (fun r => sqlval_eqb (column 0 r) (VText "R2")) rows = [].
Proof.
  split; [reflexivity|]. split; [reflexivity|].
  eexists. eexists. split; [reflexivity|]. split; [reflexivity|].
  split; reflexivity.
Qed.

(** ** Foreign keys *)

(** A slice of [product(hours, seasons)] is an (hour, season) pair; its row
    carries the hour label in column 1 (season_name) and the season label in
    column 2 (time_of_day_name). *)
Lemma slice_row_columns (region name notes : string) (d : Q)
    (hour season : list string) (r : row) :
  slice_row region name notes (d, (hour, season)) = Ok r ->
  exists h s, first hour = Ok h /\ first season = Ok s /\
              column 1 r = VText h /\ column 2 r = VText s.
Proof.
  unfold slice_row. simpl. intros H. inv_bind H. inv_bind H.
  injection H as <-. exists x, x0. repeat split; assumption.
Qed.

(** C3 fails with two seasons, one hour and the distribution of ELC in R1:
    the rows of DemandSpecificDistribution carry the hour label H1 in the
    column season_name, and H1 is not a row of time_season; the season
    labels sit in the column time_of_day_name. *)
Theorem season_column_holds_hour_label :
  exists db1 seasons db2 hours db3,
    create_time_season [] 2 = Ok (db1, seasons) /\
    create_time_of_day db1 1 = Ok (db2, hours) /\
    create_demand_specific_distribution db2 [elc] seasons hours = Ok db3 /\
    rows_of "time_season" db3 = Some [[VText "S1"]; [VText "S2"]] /\
    rows_of "time_of_day" db3 = Some [[VText "H1"]] /\
    rows_of "DemandSpecificDistribution" db3 =
      Some [[VText "R1"; VText "H1"; VText "S1"; VText "ELC"; VReal (1 # 2);
             VText "GWh"];
            [VText "R1"; VText "H1"; VText "S2"; VText "ELC"; VReal (1 # 2);
             VText "GWh"]] /\
    ~ In [VText "H1"] [[VText "S1"]; [VText "S2"]] /\
    ~ In [VText "S1"] [[VText "H1"]].
Proof.
  do 5 eexists.
  split; [reflexivity|]. split; [reflexivity|]. split; [reflexivity|].
  split; [reflexivity|]. split; [reflexivity|]. split; [reflexivity|].
  split; simpl; intuition discriminate.
Qed.

(** ** Retired vintages *)

Lemma surviving_spec (first_year : Z) (lifetime : Q) (years : list Z) (v : Z) :
  In v (surviving first_year lifetime years) <->
  In v years /\ inject_Z (first_year - v) < lifetime.
Proof.
  unfold surviving. rewrite filter_In. now rewrite Qltb_lt.
Qed.

(** ExistingCapacity keeps a vintage only while it is younger than the
    lifetime in the first year of the horizon. *)
Lemma ExistingCapacity_place_survivors (tech : Technology.t) (first_year : Z)
    (place : string) (rows : list row) :
  ExistingCapacity_place tech first_year place = Ok rows ->
  exists lifetime ec,
    sget (tech_lifetime tech) place = Ok lifetime /\
    sget (existing_capacity tech) place = Ok ec /\
    Forall2 (fun year r =>
               inject_Z (first_year - year) < lifetime /\
               exists cap, r = [VText place; VText (tech_name tech); VInt year;
                                VReal cap; VText (units tech); VText ""])
            (surviving first_year lifetime (keys ec)) rows.
Proof.
  unfold ExistingCapacity_place. intros H. inv_bind H. inv_bind H.
  exists x, x0. split; [exact E|]. split; [exact E0|].
  apply mapM_Forall2 in H.
  assert (Forall (fun year => inject_Z (first_year - year) < x)
                 (surviving first_year x (keys x0))) as Hs.
  { apply Forall_forall. intros v Hv. now apply surviving_spec in Hv. }
  induction H as [|year r years rows Hr _ IH]; constructor.
  - inversion Hs; subst. split; [assumption|].
    inv_bind Hr. inv_bind Hr. injection Hr as <-. now exists x2.
  - inversion Hs; subst. auto.
Qed.

(** A row of the cost tables never has a retired vintage when the first
    year of the horizon is its earliest. *)
Lemma aged_row_not_retired (tech : Technology.t) (time_horizon : list Z)
    (place : string) (year vintage first_year : Z) (c lifetime : Q) :
  aged_row tech time_horizon place
           (cost_row place (tech_name tech) year vintage c) ->
  sget (tech_lifetime tech) place = Ok lifetime ->
  (forall y, In y time_horizon -> (first_year <= y)%Z) ->
  inject_Z (first_year - vintage) < lifetime.
Proof.
  intros (y & v & c' & l & ec & Hr & Hl & _ & Hy & _ & Hage) Hl' Hmin.
  unfold cost_row in Hr. injection Hr as <- <- _.
  rewrite Hl in Hl'. injection Hl' as <-.
  eapply Qle_lt_trans; [|exact Hage].
  rewrite <- Zle_Qle. specialize (Hmin _ Hy). lia.
Qed.

(** Efficiency takes every key of the existing-capacity map as a vintage:
    the lifetime is not consulted. *)
Lemma Efficiency_existing_all_keys (tech : Technology.t) (place : string)
    (ec : zdict Q) (ic oc : Commodity.t) (eff : Q) :
  sget (existing_capacity tech) place = Ok ec ->
  sget (input_comm tech) place = Ok ic ->
  sget (output_comm tech) place = Ok oc ->
  sget (efficiency tech) place = Ok eff ->
  Efficiency_existing tech place =
  map (fun year => [VText place; VText (Commodity.comm_name ic);
                    VText (tech_name tech); VInt year;
                    VText (Commodity.comm_name oc); VReal eff; VText "NULL"])
      (keys ec).
Proof.
  intros Hec Hic Hoc Heff. unfold Efficiency_existing. rewrite Hec. simpl.
  rewrite (mapM_pure _ (fun year =>
             [VText place; VText (Commodity.comm_name ic);
              VText (tech_name tech); VInt year;
              VText (Commodity.comm_name oc); VReal eff; VText "NULL"]));
    [reflexivity|].
  intros year _. unfold Efficiency_row. now rewrite Hic, Hoc, Heff.
Qed.

(** C2 fails for Efficiency: the plant has a lifetime of 5 years and 100
    units installed in 2010, ten years before the first future year 2020.
    ExistingCapacity and CostVariable carry no row of vintage 2010, but
    Efficiency does. *)
Theorem retired_vintage_in_efficiency :
  sget (existing_capacity (plant (5 # 1) costs_2020_2030)) "R1" =
    Ok [(2010%Z, 100 # 1)] /\
  sget (tech_lifetime (plant (5 # 1) costs_2020_2030)) "R1" = Ok (5 # 1) /\
  5 # 1 <= inject_Z (2020 - 2010) /\
  ExistingCapacity_entries [plant (5 # 1) costs_2020_2030] horizon = Ok [] /\
  Cost_entries cost_variable [plant (5 # 1) costs_2020_2030] horizon =
    Ok [cost_row "R1" "PLANT" 2020 2020 (1 # 1);
        cost_row "R1" "PLANT" 2020 2030 (1 # 1);
        cost_row "R1" "PLANT" 2030 2030 (2 # 1)] /\
  exists db',
    create_efficiency [] [plant (5 # 1) costs_2020_2030] horizon = Ok db' /\
    rows_of "Efficiency" db' =
      Some [[VText "R1"; VText "coal"; VText "PLANT"; VInt 2010; VText "ELC";
             VReal (1 # 3); VText "NULL"];
            [VText "R1"; VText "coal"; VText "PLANT"; VInt 2020; VText "ELC";
             VReal (1 # 3); VText "NULL"];
            [VText "R1"; VText "coal"; VText "PLANT"; VInt 2030; VText "ELC";
             VReal (1 # 3); VText "NULL"]].
Proof.
  split; [reflexivity|]. split; [reflexivity|].
  split; [unfold Qle; simpl; lia|].
  split; [reflexivity|]. split; [reflexivity|].
  eexists. split; reflexivity.
Qed.

(** ** Connection *)

(** C8, as amended.  When the store cannot be opened the function does not
    raise: it prints two lines and returns [None] to its caller; when the
    store opens it prints nothing and returns the handle. *)
Theorem establish_connection_outcome
    (sqlite3_connect : string -> result database) (output_db : string) :
  (forall e, sqlite3_connect output_db = Raise e ->
             establish_connection sqlite3_connect output_db =
             (["Database connection failed. Writing to sql file instead.";
               "Warning: SQL writing has not been implemented."],
              Ok None)) /\
  (forall conn, sqlite3_connect output_db = Ok conn ->
                establish_connection sqlite3_connect output_db =
                ([], Ok (Some conn))).
Proof.
  unfold establish_connection. split.
  - intros e ->. reflexivity.
  - intros conn ->. reflexivity.
Qed.

Lemma establish_connection_outcome_witness :
  establish_connection unreachable "temoa.sqlite" =
    (["Database connection failed. Writing to sql file instead.";
      "Warning: SQL writing has not been implemented."],
     Ok None) /\
  establish_connection reachable "temoa.sqlite" = ([], Ok (Some [])).
Proof.
  split.
  - apply (proj1 (establish_connection_outcome unreachable "temoa.sqlite")
                 OperationalError).
    reflexivity.
  - apply (proj2 (establish_connection_outcome reachable "temoa.sqlite") []).
    reflexivity.
Defined.

(** C8, as stated, fails: the store cannot be opened, yet the call returns
    normally, without a handle. *)
Lemma connection_failure_swallowed :
  unreachable "temoa.sqlite" = Raise OperationalError /\
  snd (establish_connection unreachable "temoa.sqlite") = Ok None /\
  forall e, snd (establish_connection unreachable "temoa.sqlite") <> Raise e.
Proof.
  split; [reflexivity|]. split; [reflexivity|].
  intros e H. discriminate H.
Qed.

(** * Further properties of the builder *)

(** ** Primary keys decide whether a bulk insert succeeds *)

Lemma sqlval_eqb_eq (a b : sqlval) :
  exact a -> (sqlval_eqb a b = true <-> a = b).
Proof.
  destruct a as [s|x|p]; simpl; intros Ha; [| |contradiction];
    destruct b as [t|y|q]; simpl;
    try (split; [discriminate | intros E; discriminate E]).
  - rewrite String.eqb_eq. split; [now intros -> | now intros [= ->]].
  - rewrite Z.eqb_eq. split; [now intros -> | now intros [= ->]].
Qed.

Lemma key_eqb_eq (k : list sqlval) :
  Forall exact k -> forall k', key_eqb k k' = true <-> k = k'.
Proof.
  induction 1 as [|a k Ha _ IH]; intros [|b k']; simpl;
    try (split; [discriminate | intros E; discriminate E]);
    [tauto|].
  rewrite andb_true_iff, (sqlval_eqb_eq a b Ha), IH.
  split; [now intros [-> ->] | now intros [= -> ->]].
Qed.

Lemma key_mem_In (sch : schema) (r : row) (rows : list row) :
  sch_pk sch <> [] -> exact_key sch r ->
  (key_mem sch r rows = true <-> In (key_of sch r) (map (key_of sch) rows)).
Proof.
  intros Hpk Hr. unfold key_mem.
  destruct (sch_pk sch) eqn:E; [contradiction|]. clear E Hpk.
  rewrite existsb_exists, in_map_iff. split.
  - intros (r' & Hin & Heq). exists r'. split; [|exact Hin].
    symmetry. now apply (key_eqb_eq _ Hr).
  - intros (r' & Heq & Hin). exists r'. split; [exact Hin|].
    now apply (key_eqb_eq _ Hr).
Qed.

Lemma insert_raise (sch : schema) (new : list row) :
  forall old e, insert sch old new = Raise e -> e = IntegrityError.
Proof.
  induction new as [|r new IH]; simpl; intros old e H; [discriminate|].
  destruct (sch_check sch r && negb (key_mem sch r old)); eauto.
  now injection H.
Qed.

(** A bulk insert goes through exactly when every row passes the CHECK and
    no key is met twice, among the new rows or in the table. *)
Lemma insert_iff (sch : schema) :
  sch_pk sch <> [] ->
  forall new old,
    Forall (exact_key sch) new ->
    (insert sch old new = Ok (old ++ new) <->
     Forall (fun r => sch_check sch r = true) new /\
     NoDup (map (key_of sch) new) /\
     (forall r, In r new -> ~ In (key_of sch r) (map (key_of sch) old))).
Proof.
  intros Hpk. induction new as [|r new IH]; simpl; intros old Hex.
  - rewrite app_nil_r. split; [intros _|reflexivity].
    repeat split; [constructor | constructor | intros r []].
  - inversion Hex as [|? ? Hr Hex']; subst.
    replace (old ++ r :: new) with ((old ++ [r]) ++ new)
      by (now rewrite <- app_assoc).
    destruct (sch_check sch r) eqn:Hc; simpl.
    + destruct (key_mem sch r old) eqn:Hm; simpl.
      * split; [discriminate|]. intros (_ & _ & Hold). exfalso.
        apply (Hold r (or_introl eq_refl)). now apply key_mem_In.
      * assert (~ In (key_of sch r) (map (key_of sch) old)) as Hnew.
        { intros Hin. apply (key_mem_In sch r old Hpk Hr) in Hin. congruence. }
        rewrite (IH (old ++ [r]) Hex'). rewrite map_app. simpl. split.
        -- intros (HF & Hnd & Hold). repeat split.
           ++ now constructor.
           ++ constructor; [|exact Hnd]. intros Hin.
              apply in_map_iff in Hin. destruct Hin as (r' & E & Hr').
              apply (Hold r' Hr'), in_or_app. right. left. now symmetry.
           ++ intros r' [<-|Hr'] Hin; [now apply Hnew|].
              apply (Hold r' Hr'), in_or_app. now left.
        -- intros (HF & Hnd & Hold). inversion HF; subst.
           inversion Hnd as [|? ? Hnotin Hnd']; subst. repeat split; auto.
           intros r' Hr' Hin. apply in_app_or in Hin.
           destruct Hin as [Hin|[E|[]]]; [now apply (Hold r' (or_intror Hr'))|].
           apply Hnotin. rewrite E. now apply in_map.
    + split; [discriminate|]. intros (HF & _). inversion HF; congruence.
Qed.

Lemma insert_fresh_iff (sch : schema) (entries : list row) :
  sch_pk sch <> [] -> Forall (exact_key sch) entries ->
  (insert sch [] entries = Ok entries <->
   Forall (fun r => sch_check sch r = true) entries /\
   NoDup (map (key_of sch) entries)).
Proof.
  intros Hpk Hex. rewrite (insert_iff sch Hpk entries [] Hex). simpl.
  split; [tauto|]. intros [H1 H2]. repeat split; auto.
Qed.

(** [CREATE TABLE] and one bulk insert: the three ways it can end. *)
Lemma create_outcome (name : string) (sch : schema) (entries : list row)
    (db : database) :
  sch_pk sch <> [] -> Forall (exact_key sch) entries ->
  match lookup_table name db with
  | Some _ =>
      (db1 <- execute name sch db ;; executemany name entries db1)
      = Raise OperationalError
  | None =>
      (Forall (fun r => sch_check sch r = true) entries /\
       NoDup (map (key_of sch) entries) ->
       exists db',
         (db1 <- execute name sch db ;; executemany name entries db1) = Ok db'
         /\ rows_of name db' = Some entries) /\
      (~ (Forall (fun r => sch_check sch r = true) entries /\
          NoDup (map (key_of sch) entries)) ->
       (db1 <- execute name sch db ;; executemany name entries db1)
       = Raise IntegrityError)
  end.
Proof.
  intros Hpk Hex. destruct (lookup_table name db) eqn:L.
  - unfold execute. now rewrite L.
  - split.
    + intros H. apply create_ok; [exact L|].
      now apply insert_fresh_iff.
    + intros H. unfold execute. rewrite L. simpl. unfold executemany.
      rewrite (lookup_table_fresh _ _ _ L). simpl.
      destruct (insert sch [] entries) as [rows|e] eqn:I.
      * exfalso. apply H. pose proof (insert_app _ _ _ _ I) as E.
        simpl in E. subst rows. now apply insert_fresh_iff in I.
      * simpl. now rewrite (insert_raise _ _ _ _ I).
Qed.

(** ** Other tables are left alone *)

Lemma lookup_table_fresh_other (name other : string) (t : table)
    (db : database) :
  other <> name ->
  lookup_table other (db ++ [(name, t)]) = lookup_table other db.
Proof.
  intros Hne. unfold lookup_table.
  induction db as [|[n t'] db IH]; simpl.
  - apply String.eqb_neq in Hne. now rewrite Hne.
  - now rewrite IH.
Qed.

Lemma lookup_set_table_other (name other : string) (t : table)
    (db : database) :
  other <> name ->
  lookup_table other (set_table name t db) = lookup_table other db.
Proof.
  intros Hne. unfold lookup_table.
  induction db as [|[n t'] db IH]; simpl; [reflexivity|].
  destruct (String.eqb name n) eqn:E; simpl.
  - apply String.eqb_eq in E. subst n.
    apply String.eqb_neq in Hne. now rewrite Hne.
  - now rewrite IH.
Qed.

Lemma execute_frame (name other : string) (sch : schema) (db db' : database) :
  other <> name -> execute name sch db = Ok db' ->
  lookup_table other db' = lookup_table other db.
Proof.
  intros Hne. unfold execute. destruct (lookup_table name db); [discriminate|].
  intros H. injection H as <-. now apply lookup_table_fresh_other.
Qed.

Lemma executemany_frame (name other : string) (entries : list row)
    (db db' : database) :
  other <> name -> executemany name entries db = Ok db' ->
  lookup_table other db' = lookup_table other db.
Proof.
  intros Hne. unfold executemany.
  destruct (lookup_table name db); [|discriminate].
  intros H. inv_bind H. injection H as <-.
  now apply lookup_set_table_other.
Qed.

Lemma create_frame (name other : string) (sch : schema) (entries : list row)
    (db db' : database) :
  other <> name ->
  (db1 <- execute name sch db ;; executemany name entries db1) = Ok db' ->
  lookup_table other db' = lookup_table other db.
Proof.
  intros Hne H. inv_bind H.
  rewrite (executemany_frame _ _ _ _ _ Hne H).
  now apply (execute_frame name other sch).
Qed.

Lemma foldM_frame {A : Type} (other : string)
    (f : database -> A -> result database) (l : list A) :
  (forall db a db', f db a = Ok db' ->
                    lookup_table other db' = lookup_table other db) ->
  forall db db', foldM f db l = Ok db' ->
                 lookup_table other db' = lookup_table other db.
Proof.
  intros Hf. induction l as [|a l IH]; simpl; intros db db' H.
  - now injection H as <-.
  - inv_bind H. rewrite (IH _ _ H). eauto.
Qed.

Lemma bind_assoc {A B C : Type} (m : result A) (f : A -> result B)
    (g : B -> result C) :
  bind (bind m f) g = bind m (fun a => bind (f a) g).
Proof. destruct m; reflexivity. Qed.

Lemma NoDup_map_iff {A B : Type} (f : A -> B) (l : list A) :
  (forall x y, f x = f y -> x = y) -> (NoDup (map f l) <-> NoDup l).
Proof.
  intros Hinj. split; [apply NoDup_map_inv|].
  now apply Injective_map_NoDup.
Qed.

Lemma rows_of_frame (name : string) (db db' : database) :
  lookup_table name db' = lookup_table name db ->
  rows_of name db' = rows_of name db.
Proof. unfold rows_of. now intros ->. Qed.

(** ** regions and sector_labels *)

(** The table regions is written exactly when no region is listed twice; a
    repeated region ends the call with an IntegrityError.  The same holds
    for sector_labels and the list of sectors. *)
Theorem regions_and_sectors_need_distinct_names (db : database)
    (names : list string) :
  (lookup_table "regions" db = None ->
   (NoDup names ->
    exists db', create_regions db names = Ok db' /\
                rows_of "regions" db' =
                  Some (map (fun r => [VText r; VText ""]) names)) /\
   (~ NoDup names -> create_regions db names = Raise IntegrityError)) /\
  (lookup_table "sector_labels" db = None ->
   (NoDup names ->
    exists db', create_sectors db names = Ok db' /\
                rows_of "sector_labels" db' =
                  Some (map (fun s => [VText s]) names)) /\
   (~ NoDup names -> create_sectors db names = Raise IntegrityError)).
Proof.
  split; intros L.
  - assert (Forall (exact_key regions_schema)
                   (map (fun r => [VText r; VText ""]) names)) as Hex.
    { apply Forall_forall. intros r Hr. apply in_map_iff in Hr.
      destruct Hr as (x & <- & _). repeat constructor. }
    assert (NoDup (map (key_of regions_schema)
                       (map (fun r => [VText r; VText ""]) names))
            <-> NoDup names) as Hnd.
    { rewrite map_map. apply NoDup_map_iff. intros x y E. now injection E. }
    pose proof (create_outcome "regions" regions_schema _ db
                  ltac:(discriminate) Hex) as H.
    rewrite L in H. destruct H as [Hok Hfail]. unfold create_regions. split.
    + intros Hn. apply Hok. split; [|now apply Hnd].
      apply Forall_forall. reflexivity.
    + intros Hn. apply Hfail. intros [_ H]. now apply Hn, Hnd.
  - assert (Forall (exact_key sector_labels_schema)
                   (map (fun s => [VText s]) names)) as Hex.
    { apply Forall_forall. intros r Hr. apply in_map_iff in Hr.
      destruct Hr as (x & <- & _). repeat constructor. }
    assert (NoDup (map (key_of sector_labels_schema)
                       (map (fun s => [VText s]) names))
            <-> NoDup names) as Hnd.
    { rewrite map_map. apply NoDup_map_iff. intros x y E. now injection E. }
    pose proof (create_outcome "sector_labels" sector_labels_schema _ db
                  ltac:(discriminate) Hex) as H.
    rewrite L in H. destruct H as [Hok Hfail]. unfold create_sectors. split.
    + intros Hn. apply Hok. split; [|now apply Hnd].
      apply Forall_forall. reflexivity.
    + intros Hn. apply Hfail. intros [_ H]. now apply Hn, Hnd.
Qed.

Lemma regions_and_sectors_need_distinct_names_witness :
  (exists db', create_regions [] ["R1"; "R2"] = Ok db' /\
               rows_of "regions" db' =
                 Some [[VText "R1"; VText ""]; [VText "R2"; VText ""]]) /\
  create_sectors [] ["electric"; "electric"] = Raise IntegrityError.
Proof.
  split.
  - apply (proj1 (proj1 (regions_and_sectors_need_distinct_names
                           [] ["R1"; "R2"]) eq_refl)).
    repeat constructor; simpl; intuition discriminate.
  - apply (proj2 (proj2 (regions_and_sectors_need_distinct_names
                           [] ["electric"; "electric"]) eq_refl)).
    intros H. inversion H as [|? ? Hin _]; subst. apply Hin. now left.
Defined.

(** ** time_season and time_of_day *)

Lemma label_rows_distinct (sch : schema) (labels : list string) :
  sch_pk sch = [0%nat] -> sch_check sch = no_check ->
  NoDup labels ->
  insert sch [] (map (map VText) (map (fun s => [s]) labels))
  = Ok (map (map VText) (map (fun s => [s]) labels)).
Proof.
  intros Hpk Hck Hnd. apply insert_fresh_iff.
  - rewrite Hpk. discriminate.
  - apply Forall_forall. intros r Hr. rewrite map_map in Hr.
    apply in_map_iff in Hr. destruct Hr as (s & <- & _).
    unfold exact_key, key_of. rewrite Hpk. repeat constructor.
  - split.
    + apply Forall_forall. intros r _. now rewrite Hck.
    + rewrite !map_map. unfold key_of. rewrite Hpk. simpl.
      apply Injective_map_NoDup; [|exact Hnd].
      intros x y E. now injection E.
Qed.

Lemma season_labels_singletons (n : Z) :
  season_labels n =
  map (fun s => [s]) (map (fun i => String.append "S" (str (i + 1))) (range n)).
Proof. unfold season_labels. now rewrite map_map. Qed.

Lemma hour_labels_singletons (n : Z) :
  hour_labels n =
  map (fun s => [s]) (map (fun i => String.append "H" (str (i + 1))) (range n)).
Proof. unfold hour_labels. now rewrite map_map. Qed.

(** For every count, also zero or negative, the two label tables are
    written without error on a store that does not hold them yet: the table
    has one row per label, the labels are pairwise different, there are
    [max N 0] of them, and the function hands them back.  When the table is
    already there the call raises OperationalError. *)
Theorem label_tables_always_written (db : database) (N : Z) :
  (lookup_table "time_season" db = None ->
   exists db',
     create_time_season db N = Ok (db', season_labels N) /\
     rows_of "time_season" db' = Some (map (map VText) (season_labels N)) /\
     length (season_labels N) = Z.to_nat N /\
     NoDup (season_labels N)) /\
  (lookup_table "time_of_day" db = None ->
   exists db',
     create_time_of_day db N = Ok (db', hour_labels N) /\
     rows_of "time_of_day" db' = Some (map (map VText) (hour_labels N)) /\
     length (hour_labels N) = Z.to_nat N /\
     NoDup (hour_labels N)) /\
  (lookup_table "time_season" db <> None ->
   create_time_season db N = Raise OperationalError) /\
  (lookup_table "time_of_day" db <> None ->
   create_time_of_day db N = Raise OperationalError).
Proof.
  repeat apply conj.
  - intros L.
    destruct (create_ok "time_season" time_season_schema
                (map (map VText) (season_labels N)) db L) as (db' & H & R).
    { rewrite season_labels_singletons.
      apply label_rows_distinct; try reflexivity. apply label_NoDup. }
    exists db'. unfold create_time_season. cbv zeta. rewrite <- bind_assoc.
    repeat split; auto; [eapply bind_Ok_intro; [exact H | reflexivity] | |].
    + unfold season_labels. now rewrite length_map, range_length.
    + rewrite season_labels_singletons.
      apply Injective_map_NoDup; [|apply label_NoDup].
      intros x y E. now injection E.
  - intros L.
    destruct (create_ok "time_of_day" time_of_day_schema
                (map (map VText) (hour_labels N)) db L) as (db' & H & R).
    { rewrite hour_labels_singletons.
      apply label_rows_distinct; try reflexivity. apply label_NoDup. }
    exists db'. unfold create_time_of_day. cbv zeta. rewrite <- bind_assoc.
    repeat split; auto; [eapply bind_Ok_intro; [exact H | reflexivity] | |].
    + unfold hour_labels. now rewrite length_map, range_length.
    + rewrite hour_labels_singletons.
      apply Injective_map_NoDup; [|apply label_NoDup].
      intros x y E. now injection E.
  - intros L. unfold create_time_season, execute.
    destruct (lookup_table "time_season" db); [reflexivity | contradiction].
  - intros L. unfold create_time_of_day, execute.
    destruct (lookup_table "time_of_day" db); [reflexivity | contradiction].
Qed.

Lemma label_tables_always_written_witness :
  (exists db',
     create_time_season [] 3 = Ok (db', [["S1"]; ["S2"]; ["S3"]]) /\
     rows_of "time_season" db' =
       Some [[VText "S1"]; [VText "S2"]; [VText "S3"]] /\
     length (season_labels 3) = 3%nat /\
     NoDup (season_labels 3)) /\
  (exists db', create_time_of_day [] (-2) = Ok (db', []) /\
               rows_of "time_of_day" db' = Some [] /\
               length (hour_labels (-2)) = 0%nat /\
               NoDup (hour_labels (-2))).
Proof.
  split.
  - apply (proj1 (label_tables_always_written [] 3)). reflexivity.
  - apply (proj1 (proj2 (label_tables_always_written [] (-2)))). reflexivity.
Defined.

Lemma create_time_season_inv (db db' : database) (N : Z)
    (seasons : list (list string)) :
  create_time_season db N = Ok (db', seasons) ->
  seasons = season_labels N /\
  rows_of "time_season" db' = Some (map (map VText) (season_labels N)) /\
  forall other, other <> "time_season" ->
                lookup_table other db' = lookup_table other db.
Proof.
  unfold create_time_season. cbv zeta. rewrite <- bind_assoc.
  intros H. inv_bind H.
  injection H as <- <-. split; [reflexivity|]. split.
  - now apply create_rows in E.
  - intros other Hne. now apply (create_frame _ _ _ _ _ _ Hne E).
Qed.

Lemma create_time_of_day_inv (db db' : database) (N : Z)
    (hours : list (list string)) :
  create_time_of_day db N = Ok (db', hours) ->
  hours = hour_labels N /\
  rows_of "time_of_day" db' = Some (map (map VText) (hour_labels N)) /\
  forall other, other <> "time_of_day" ->
                lookup_table other db' = lookup_table other db.
Proof.
  unfold create_time_of_day. cbv zeta. rewrite <- bind_assoc.
  intros H. inv_bind H.
  injection H as <- <-. split; [reflexivity|]. split.
  - now apply create_rows in E.
  - intros other Hne. now apply (create_frame _ _ _ _ _ _ Hne E).
Qed.

(** ** SegFrac refers to the label tables *)

(** When the labels returned by [create_time_season] and
    [create_time_of_day] are passed on to [create_segfrac], every row of
    SegFrac names a season that is a row of time_season and an hour that is a
    row of time_of_day. *)
Theorem segfrac_rows_reference_labels (db db1 db2 db3 : database) (n m : Z)
    (segfrac : Q) (seasons hours : list (list string)) (rows : list row) :
  create_time_season db n = Ok (db1, seasons) ->
  create_time_of_day db1 m = Ok (db2, hours) ->
  create_segfrac db2 segfrac seasons hours = Ok db3 ->
  rows_of "SegFrac" db3 = Some rows ->
  exists season_rows hour_rows,
    rows_of "time_season" db3 = Some season_rows /\
    rows_of "time_of_day" db3 = Some hour_rows /\
    Forall (fun r => In [column 0 r] season_rows /\ In [column 1 r] hour_rows)
           rows.
Proof.
  intros Hs Hh Hf Hrows.
  apply create_time_season_inv in Hs. destruct Hs as (-> & Rs & _).
  apply create_time_of_day_inv in Hh. destruct Hh as (-> & Rh & Fh).
  unfold create_segfrac in Hf. rewrite SegFrac_entries_labels in Hf.
  simpl bind in Hf.
  assert ("time_season" <> "SegFrac") as N1 by discriminate.
  assert ("time_of_day" <> "SegFrac") as N2 by discriminate.
  assert ("time_season" <> "time_of_day") as N3 by discriminate.
  pose proof (create_frame _ _ _ _ _ _ N1 Hf) as F1.
  pose proof (create_frame _ _ _ _ _ _ N2 Hf) as F2.
  apply create_rows in Hf. destruct Hf as [_ Hf].
  rewrite Hf in Hrows. injection Hrows as <-.
  exists (map (map VText) (season_labels n)), (map (map VText) (hour_labels m)).
  split; [|split].
  - rewrite (rows_of_frame _ _ _ F1).
    now rewrite (rows_of_frame _ _ _ (Fh "time_season" N3)).
  - now rewrite (rows_of_frame _ _ _ F2).
  - apply Forall_forall. intros r Hr. apply in_map_iff in Hr.
    destruct Hr as ([s h] & <- & Hin). apply in_prod_iff in Hin.
    destruct Hin as [Hs Hh]. unfold column. simpl. split.
    + apply in_map_iff. exists s. split; [|exact Hs].
      unfold season_labels in Hs. apply in_map_iff in Hs.
      now destruct Hs as (i & <- & _).
    + apply in_map_iff. exists h. split; [|exact Hh].
      unfold hour_labels in Hh. apply in_map_iff in Hh.
      now destruct Hh as (i & <- & _).
Qed.

Lemma segfrac_rows_reference_labels_witness :
  exists season_rows hour_rows,
    rows_of "time_season"
      [("time_season", {| tbl_schema := time_season_schema;
                          tbl_rows := [[VText "S1"]] |});
       ("time_of_day", {| tbl_schema := time_of_day_schema;
                          tbl_rows := [[VText "H1"]] |});
       ("SegFrac", {| tbl_schema := SegFrac_schema;
                      tbl_rows := [[VText "S1"; VText "H1"; VReal 1;
                                    VText "fraction of year"]] |})]
      = Some season_rows /\
    rows_of "time_of_day"
      [("time_season", {| tbl_schema := time_season_schema;
                          tbl_rows := [[VText "S1"]] |});
       ("time_of_day", {| tbl_schema := time_of_day_schema;
                          tbl_rows := [[VText "H1"]] |});
       ("SegFrac", {| tbl_schema := SegFrac_schema;
                      tbl_rows := [[VText "S1"; VText "H1"; VReal 1;
                                    VText "fraction of year"]] |})]
      = Some hour_rows /\
    Forall (fun r => In [column 0 r] season_rows /\ In [column 1 r] hour_rows)
           [[VText "S1"; VText "H1"; VReal 1; VText "fraction of year"]].
Proof.
  apply (segfrac_rows_reference_labels [] _ _ _ 1 1 1 _ _ _
           eq_refl eq_refl eq_refl eq_refl).
Defined.

(** ** time_periods: which year lists can be written *)

Lemma last_default {A : Type} (l : list A) (a d d' : A) :
  last (a :: l) d = last (a :: l) d'.
Proof.
  revert a. induction l as [|b l IH]; intros a; [reflexivity|].
  change (last (b :: l) d = last (b :: l) d'). apply IH.
Qed.

Lemma time_periods_keys (y0 : Z) (rest existing_years : list Z) :
  map (key_of time_periods_schema)
      (past_horizon y0 existing_years
       ++ map (fun year => [VInt year; VText "f"]) (y0 :: rest)
       ++ [[VInt (last (y0 :: rest) y0 + 1); VText "f"]]) =
  map (fun y => [VInt y]) (period_years (y0 :: rest) existing_years).
Proof.
  unfold period_years. rewrite (last_default rest y0 0%Z y0).
  rewrite !map_app, !map_map.
  destruct existing_years; simpl; unfold past_horizon; rewrite ?map_map;
    reflexivity.
Qed.

Lemma time_periods_exact (y0 : Z) (rest existing_years : list Z) :
  Forall (exact_key time_periods_schema)
         (past_horizon y0 existing_years
          ++ map (fun year => [VInt year; VText "f"]) (y0 :: rest)
          ++ [[VInt (last (y0 :: rest) y0 + 1); VText "f"]]).
Proof.
  rewrite !Forall_app. repeat split.
  - destruct existing_years; simpl; [repeat constructor|].
    constructor; [repeat constructor|].
    apply Forall_forall. intros r Hr. apply in_map_iff in Hr.
    destruct Hr as (y & <- & _). repeat constructor.
  - apply Forall_forall. intros r Hr. apply in_map_iff in Hr.
    destruct Hr as (y & <- & _). repeat constructor.
  - repeat constructor.
Qed.

Lemma time_periods_bindable (y0 : Z) (rest existing_years : list Z) :
  forallb bindable
          (past_horizon y0 existing_years
           ++ map (fun year => [VInt year; VText "f"]) (y0 :: rest)
           ++ [[VInt (last (y0 :: rest) y0 + 1); VText "f"]]) =
  forallb int64 (period_years (y0 :: rest) existing_years).
Proof.
  assert (forall (flag : string) (l : list Z),
             forallb bindable (map (fun year => [VInt year; VText flag]) l) =
             forallb int64 l) as Hmap.
  { intros flag l. induction l as [|y l IH]; [reflexivity|].
    cbn [map forallb]. rewrite IH. unfold bindable. simpl.
    now rewrite andb_true_r. }
  unfold period_years. rewrite (last_default rest y0 0%Z y0).
  rewrite !forallb_app, Hmap. f_equal.
  - destruct existing_years as [|e l]; [|apply Hmap].
    unfold bindable. simpl. now rewrite andb_true_r.
  - f_equal. unfold bindable. simpl. now rewrite andb_true_r.
Qed.

(** The ways [create_time_periods] can end on a store without the table. *)
Lemma time_periods_outcome (db : database) (y0 : Z)
    (rest existing_years : list Z) :
  lookup_table "time_periods" db = None ->
  (NoDup (period_years (y0 :: rest) existing_years) ->
   forallb int64 (period_years (y0 :: rest) existing_years) = true ->
   exists db',
     create_time_periods db (y0 :: rest) existing_years = Ok db' /\
     option_map (map (column 0)) (rows_of "time_periods" db') =
       Some (map VInt (period_years (y0 :: rest) existing_years))) /\
  (forallb int64 (period_years (y0 :: rest) existing_years) = true ->
   ~ NoDup (period_years (y0 :: rest) existing_years) ->
   create_time_periods db (y0 :: rest) existing_years = Raise IntegrityError) /\
  (NoDup (period_years (y0 :: rest) existing_years) ->
   forallb int64 (period_years (y0 :: rest) existing_years) = false ->
   create_time_periods db (y0 :: rest) existing_years = Raise OverflowError).
Proof.
  intros L. unfold create_time_periods.
  rewrite time_periods_entries_cons. simpl bind.
  pose proof (time_periods_bindable y0 rest existing_years) as Hb.
  pose proof (time_periods_exact y0 rest existing_years) as Hex.
  assert (sch_pk time_periods_schema <> []) as Hpk by discriminate.
  pose proof (create_outcome "time_periods" time_periods_schema _ db Hpk Hex)
    as H.
  rewrite L in H. destruct H as [Hok Hfail].
  rewrite time_periods_keys in Hok, Hfail.
  assert (forall l : list Z, NoDup (map (fun y => [VInt y]) l) <-> NoDup l)
    as Hnd by (intros l; apply NoDup_map_iff; intros x y E; now injection E).
  split; [|split].
  - intros Hn Hi. rewrite create_bound_bindable by (exact (eq_trans Hb Hi)).
    destruct Hok as (db' & H & R).
    { split; [apply Forall_forall; reflexivity | now apply Hnd]. }
    exists db'. split; [exact H|]. rewrite R. simpl. f_equal.
    pose proof (time_periods_keys y0 rest existing_years) as K.
    unfold key_of in K. simpl in K.
    apply (f_equal (map (fun k => hd (VText "") k))) in K.
    rewrite !map_map in K. simpl in K. exact K.
  - intros Hi Hn. rewrite create_bound_bindable by (exact (eq_trans Hb Hi)).
    apply Hfail. intros [_ H]. now apply Hn, Hnd.
  - intros Hn Hi. unfold execute. rewrite L. simpl bind.
    unfold executemany_bound. rewrite (lookup_table_fresh _ _ _ L).
    cbn [tbl_schema tbl_rows].
    erewrite insert_bound_overflow; [reflexivity | exact (eq_trans Hb Hi) |].
    apply (insert_fresh_iff time_periods_schema _ Hpk Hex).
    split; [apply Forall_forall; reflexivity|].
    rewrite time_periods_keys. now apply Hnd.
Qed.

Lemma ssorted_NoDup (l : list Z) : StronglySorted Z.lt l -> NoDup l.
Proof.
  induction 1 as [|a l _ IH Hall]; constructor; [|exact IH].
  intros Hin. rewrite Forall_forall in Hall. specialize (Hall a Hin). lia.
Qed.

Lemma ssorted_boundary (l : list Z) :
  forall a, StronglySorted Z.lt (a :: l) ->
            StronglySorted Z.lt ((a :: l) ++ [last (a :: l) 0 + 1])%Z /\
            (a <= last (a :: l) 0)%Z.
Proof.
  induction l as [|b l IH]; intros a Hs.
  - split; [|simpl; lia]. simpl. repeat constructor. lia.
  - apply StronglySorted_inv in Hs. destruct Hs as [Hs Hall].
    destruct (IH b Hs) as [Hs' Hle].
    change (last (a :: b :: l) 0%Z) with (last (b :: l) 0%Z).
    inversion Hall as [|? ? Hab Hl]; subst. split; [|lia].
    change ((a :: b :: l) ++ [(last (b :: l) 0 + 1)%Z])
      with (a :: ((b :: l) ++ [(last (b :: l) 0 + 1)%Z])).
    constructor; [exact Hs'|].
    apply Forall_app. split; [exact Hall|]. repeat constructor. lia.
Qed.

Lemma last_app_cons {A : Type} (l1 l2 : list A) (a d : A) :
  last (l1 ++ a :: l2) d = last (a :: l2) d.
Proof.
  induction l1 as [|b l1 IH]; [reflexivity|].
  rewrite <- IH. simpl. destruct (l1 ++ a :: l2) eqn:E; [|reflexivity].
  now destruct l1.
Qed.

(** Increasing years stay increasing once the synthetic existing year and
    the boundary year are added. *)
Lemma period_years_sorted (y0 : Z) (rest existing_years : list Z) :
  StronglySorted Z.lt (existing_years ++ y0 :: rest) ->
  StronglySorted Z.lt (period_years (y0 :: rest) existing_years).
Proof.
  intros Hs. unfold period_years.
  destruct existing_years as [|e existing_years].
  - simpl in Hs. destruct (ssorted_boundary rest y0 Hs) as [Hs' _].
    simpl app in *. constructor; [exact Hs'|].
    apply StronglySorted_inv in Hs'. destruct Hs' as [_ Hall].
    constructor; [simpl; lia|].
    eapply Forall_impl; [|exact Hall]. simpl. intros; lia.
  - change ((e :: existing_years) ++ y0 :: rest)
      with (e :: (existing_years ++ y0 :: rest)) in Hs.
    destruct (ssorted_boundary _ e Hs) as [Hs' _].
    rewrite <- (last_app_cons (e :: existing_years) rest y0 0%Z).
    rewrite app_assoc. exact Hs'.
Qed.

(** Every element of an increasing list lies between its first and its
    last element. *)
Lemma ssorted_between (l : list Z) :
  forall a, StronglySorted Z.lt (a :: l) ->
            Forall (fun y => a <= y <= last (a :: l) a)%Z (a :: l).
Proof.
  induction l as [|b l IH]; intros a Hs.
  - repeat constructor; simpl; lia.
  - apply StronglySorted_inv in Hs. destruct Hs as [Hs Hall].
    inversion Hall as [|? ? Hab _]; subst.
    specialize (IH b Hs).
    change (last (a :: b :: l) a) with (last (b :: l) a).
    rewrite (last_default l b a b).
    assert (b <= last (b :: l) b)%Z as Hb
        by (inversion IH; subst; lia).
    constructor; [lia|].
    eapply Forall_impl; [|exact IH]. simpl. intros; lia.
Qed.

Lemma period_years_int64 (y0 : Z) (rest existing_years : list Z) :
  StronglySorted Z.lt (existing_years ++ y0 :: rest) ->
  (- 2 ^ 63 < hd y0 existing_years)%Z ->
  (last (y0 :: rest) y0 < 2 ^ 63 - 1)%Z ->
  forallb int64 (period_years (y0 :: rest) existing_years) = true.
Proof.
  intros Hs Hlo Hhi.
  pose proof (period_years_sorted y0 rest existing_years Hs) as Hp.
  apply forallb_forall. intros y Hy.
  assert (exists a l, period_years (y0 :: rest) existing_years = a :: l /\
                      (- 2 ^ 63 <= a)%Z /\
                      (last (a :: l) a < 2 ^ 63)%Z) as (a & l & E & Ha & Hl).
  { unfold period_years. rewrite (last_default rest y0 0%Z y0).
    destruct existing_years as [|e existing_years].
    - exists (y0 - 1)%Z, ((y0 :: rest) ++ [(last (y0 :: rest) y0 + 1)%Z]).
      split; [reflexivity|]. simpl hd in Hlo. split; [lia|].
      change (last ((y0 - 1)%Z :: (y0 :: rest) ++ [(last (y0 :: rest) y0 + 1)%Z])
                   (y0 - 1)%Z)
        with (last ((y0 :: rest) ++ [(last (y0 :: rest) y0 + 1)%Z])
                   (y0 - 1)%Z).
      rewrite last_last. lia.
    - exists e, (existing_years ++ (y0 :: rest)
                   ++ [(last (y0 :: rest) y0 + 1)%Z]).
      split; [reflexivity|]. simpl hd in Hlo. split; [lia|].
      change (e :: existing_years ++ (y0 :: rest)
                ++ [(last (y0 :: rest) y0 + 1)%Z])
        with ((e :: existing_years) ++ (y0 :: rest)
                ++ [(last (y0 :: rest) y0 + 1)%Z]).
      rewrite app_assoc, last_last. lia. }
  rewrite E in Hp, Hy. pose proof (ssorted_between l a Hp) as Hb.
  rewrite Forall_forall in Hb. specialize (Hb y Hy).
  unfold int64. apply andb_true_intro.
  split; [apply Z.leb_le | apply Z.ltb_lt]; lia.
Qed.

(** An empty list of future years ends [create_time_periods] with an
    IndexError before anything is written, whatever the existing years.
    Otherwise, on a store without the table, the call succeeds exactly when
    the years to write (the existing years, or [first - 1] when there is
    none, then the future years, then [last + 1]) are pairwise different
    64-bit integers, and the column t_periods then holds these years, each
    once.  The column is an INTEGER PRIMARY KEY, so the table returns its
    rows by ascending year whatever the order of the insertion: the
    statement is about which years are stored, not about their order.  A
    repeated year among 64-bit years raises IntegrityError; a year outside
    64 bits among different years raises OverflowError. *)
Theorem time_periods_need_distinct_years (db : database)
    (existing_years : list Z) :
  create_time_periods db [] existing_years = Raise IndexError /\
  (forall (y0 : Z) (rest : list Z),
      lookup_table "time_periods" db = None ->
      (NoDup (period_years (y0 :: rest) existing_years) ->
       forallb int64 (period_years (y0 :: rest) existing_years) = true ->
       exists db' rows,
         create_time_periods db (y0 :: rest) existing_years = Ok db' /\
         rows_of "time_periods" db' = Some rows /\
         Permutation (map (column 0) rows)
                     (map VInt (period_years (y0 :: rest) existing_years))) /\
      (forall db',
          create_time_periods db (y0 :: rest) existing_years = Ok db' ->
          NoDup (period_years (y0 :: rest) existing_years) /\
          forallb int64 (period_years (y0 :: rest) existing_years) = true) /\
      (forallb int64 (period_years (y0 :: rest) existing_years) = true ->
       ~ NoDup (period_years (y0 :: rest) existing_years) ->
       create_time_periods db (y0 :: rest) existing_years
       = Raise IntegrityError) /\
      (NoDup (period_years (y0 :: rest) existing_years) ->
       forallb int64 (period_years (y0 :: rest) existing_years) = false ->
       create_time_periods db (y0 :: rest) existing_years
       = Raise OverflowError)).
Proof.
  split.
  - unfold create_time_periods, time_periods_entries.
    destruct existing_years; reflexivity.
  - intros y0 rest L.
    destruct (time_periods_outcome db y0 rest existing_years L)
      as (Hok & Hdup & Hover).
    split; [|split; [|split]]; [| |exact Hdup|exact Hover].
    + intros Hn Hi. destruct (Hok Hn Hi) as (db' & H & R).
      destruct (rows_of "time_periods" db') as [rows|] eqn:Hrows;
        [|discriminate].
      exists db', rows. split; [exact H|]. split; [exact Hrows|].
      simpl in R. injection R as ->. apply Permutation_refl.
    + intros db' H.
      destruct (forallb int64 (period_years (y0 :: rest) existing_years))
        eqn:Hi.
      * split; [|reflexivity].
        destruct (NoDup_dec Z.eq_dec
                    (period_years (y0 :: rest) existing_years)) as [Hn|Hn];
          [exact Hn|].
        rewrite (Hdup eq_refl Hn) in H. discriminate.
      * exfalso.
        unfold create_time_periods in H.
        rewrite time_periods_entries_cons in H. simpl bind in H.
        apply create_bound in H. destruct H as [_ H].
        pose proof (time_periods_bindable y0 rest existing_years) as Hb.
        discriminate (eq_trans (eq_sym H) (eq_trans Hb Hi)).
Qed.

Lemma time_periods_need_distinct_years_witness :
  (exists db' rows,
      create_time_periods [] [2020; 2030]%Z [2015; 2010]%Z = Ok db' /\
      rows_of "time_periods" db' = Some rows /\
      Permutation (map (column 0) rows)
                  [VInt 2015; VInt 2010; VInt 2020; VInt 2030; VInt 2031]) /\
  create_time_periods [] [2020; 2030]%Z [2020]%Z = Raise IntegrityError /\
  create_time_periods [] [(2 ^ 63 - 1)%Z] [] = Raise OverflowError.
Proof.
  split; [|split].
  - apply (proj1 (proj2 (time_periods_need_distinct_years [] [2015; 2010]%Z)
                        2020%Z [2030%Z] eq_refl)); [|reflexivity].
    repeat constructor; simpl; intuition lia.
  - apply (proj1 (proj2 (proj2 (proj2 (time_periods_need_distinct_years
                                         [] [2020%Z])
                                      2020%Z [2030%Z] eq_refl))));
      [reflexivity|].
    intros H. inversion H as [|? ? Hin _]; subst. apply Hin. simpl. auto.
  - apply (proj2 (proj2 (proj2 (proj2 (time_periods_need_distinct_years
                                         [] [])
                                      (2 ^ 63 - 1)%Z [] eq_refl))));
      [|reflexivity].
    repeat constructor; simpl; intuition lia.
Defined.

(** Existing years that increase and lie before increasing future years
    are accepted when the smallest year is above -2^63 and the largest
    below 2^63 - 1: the synthetic existing year and the boundary year then
    collide with no other year and fit the 64-bit integers of the store.
    The rows are written by ascending year, which is also the order in
    which the table returns them. *)
Theorem time_periods_increasing_years_written (db : database) (y0 : Z)
    (rest existing_years : list Z) :
  lookup_table "time_periods" db = None ->
  StronglySorted Z.lt (existing_years ++ y0 :: rest) ->
  (- 2 ^ 63 < hd y0 existing_years)%Z ->
  (last (y0 :: rest) y0 < 2 ^ 63 - 1)%Z ->
  exists db',
    create_time_periods db (y0 :: rest) existing_years = Ok db' /\
    option_map (map (column 0)) (rows_of "time_periods" db') =
      Some (map VInt (period_years (y0 :: rest) existing_years)) /\
    StronglySorted Z.lt (period_years (y0 :: rest) existing_years).
Proof.
  intros L Hs Hlo Hhi.
  pose proof (period_years_sorted y0 rest existing_years Hs) as Hp.
  destruct (proj1 (time_periods_outcome db y0 rest existing_years L)
                  (ssorted_NoDup _ Hp)
                  (period_years_int64 y0 rest existing_years Hs Hlo Hhi))
    as (db' & H & R).
  exists db'. auto.
Qed.

Lemma time_periods_increasing_years_written_witness :
  exists db',
    create_time_periods [] [2020; 2030; 2040]%Z [] = Ok db' /\
    option_map (map (column 0)) (rows_of "time_periods" db') =
      Some [VInt 2019; VInt 2020; VInt 2030; VInt 2040; VInt 2041] /\
    StronglySorted Z.lt [2019; 2020; 2030; 2040; 2041]%Z.
Proof.
  apply (time_periods_increasing_years_written [] 2020 [2030; 2040]%Z []).
  - reflexivity.
  - repeat constructor; lia.
  - simpl. lia.
  - simpl. lia.
Defined.

(** ** time_periods refers to time_period_labels *)

(** After [create_time_period_labels], every row that
    [create_time_periods] writes carries a flag that is a key of
    time_period_labels. *)
Theorem period_flags_are_labels (db db1 db2 : database)
    (future_years existing_years : list Z) (rows : list row) :
  create_time_period_labels db = Ok db1 ->
  create_time_periods db1 future_years existing_years = Ok db2 ->
  rows_of "time_periods" db2 = Some rows ->
  exists labels,
    rows_of "time_period_labels" db2 = Some labels /\
    Forall (fun r => In (column 1 r) (map (column 0) labels)) rows.
Proof.
  intros Hl Hp Hrows. unfold create_time_period_labels in Hl.
  apply create_rows in Hl. destruct Hl as [_ Hl].
  unfold create_time_periods in Hp. inv_bind Hp.
  apply create_bound in Hp. destruct Hp as [Hp _].
  assert ("time_period_labels" <> "time_periods") as Hne by discriminate.
  pose proof (create_frame _ _ _ _ _ _ Hne Hp) as F.
  apply create_rows in Hp. destruct Hp as [_ Hp].
  rewrite Hp in Hrows. injection Hrows as <-.
  eexists. split; [rewrite (rows_of_frame _ _ _ F); exact Hl|].
  destruct future_years as [|y0 rest].
  - unfold time_periods_entries in E. destruct existing_years; discriminate.
  - rewrite time_periods_entries_cons in E. injection E as <-.
    apply Forall_forall. intros r Hr.
    assert (column 1 r = VText "e" \/ column 1 r = VText "f") as Hflag.
    { apply in_app_or in Hr. destruct Hr as [Hr|[<-|Hr]].
      - left. destruct existing_years as [|e l].
        + destruct Hr as [<-|[]]. reflexivity.
        + change (In r (map (fun year => [VInt year; VText "e"]) (e :: l)))
            in Hr.
          apply in_map_iff in Hr. now destruct Hr as (y & <- & _).
      - right. reflexivity.
      - right. apply in_app_or in Hr. destruct Hr as [Hr|[<-|[]]].
        + apply in_map_iff in Hr. now destruct Hr as (y & <- & _).
        + reflexivity. }
    destruct Hflag as [-> | ->]; simpl; auto.
Qed.

Lemma period_flags_are_labels_witness :
  exists labels,
    rows_of "time_period_labels"
      [("time_period_labels",
        {| tbl_schema := time_period_labels_schema;
           tbl_rows := [[VText "e"; VText "existing vintages"];
                        [VText "f"; VText "future vintages"]] |});
       ("time_periods",
        {| tbl_schema := time_periods_schema;
           tbl_rows := [[VInt 2019; VText "e"]; [VInt 2020; VText "f"];
                        [VInt 2021; VText "f"]] |})] = Some labels /\
    Forall (fun r => In (column 1 r) (map (column 0) labels))
           [[VInt 2019; VText "e"]; [VInt 2020; VText "f"];
            [VInt 2021; VText "f"]].
Proof.
  apply (period_flags_are_labels [] _ _ [2020%Z] [] _
           eq_refl eq_refl eq_refl).
Defined.

(** ** ExistingCapacity *)

Lemma mapM_In_out {A B : Type} (f : A -> result B) (l : list A) (bs : list B)
    (b : B) :
  mapM f l = Ok bs -> In b bs -> exists a, In a l /\ f a = Ok b.
Proof.
  intros H. apply mapM_Forall2 in H.
  induction H as [|a b' l bs Hab _ IH]; intros Hin; [contradiction|].
  destruct Hin as [<-|Hin].
  - exists a. split; [now left | exact Hab].
  - destruct (IH Hin) as (a' & Ha' & Hf). exists a'. split; [now right|exact Hf].
Qed.

Lemma mapM_In_in {A B : Type} (f : A -> result B) (l : list A) (bs : list B)
    (a : A) :
  mapM f l = Ok bs -> In a l -> exists b, In b bs /\ f a = Ok b.
Proof.
  intros H. apply mapM_Forall2 in H.
  induction H as [|a' b l bs Hab _ IH]; intros Hin; [contradiction|].
  destruct Hin as [<-|Hin].
  - exists b. split; [now left | exact Hab].
  - destruct (IH Hin) as (b' & Hb' & Hf). exists b'. split; [now right|exact Hf].
Qed.

Lemma ExistingCapacity_entries_by_tech (technology_list : list Technology.t)
    (time_horizon : list Z) :
  ExistingCapacity_entries technology_list time_horizon =
  (by_tech <-
     mapM (fun tech =>
             first_year <- first time_horizon ;;
             by_place <- mapM (ExistingCapacity_place tech first_year)
                              (regions tech) ;;
             Ok (concat by_place))
          technology_list ;;
   Ok (concat by_tech)).
Proof.
  unfold ExistingCapacity_entries.
  rewrite (foldM_extend _
             (fun tech =>
                first_year <- first time_horizon ;;
                by_place <- mapM (ExistingCapacity_place tech first_year)
                                 (regions tech) ;;
                Ok (concat by_place))); [reflexivity|].
  intros e tech. destruct (first time_horizon) as [y|]; simpl; [|reflexivity].
  rewrite (foldM_extend _ (ExistingCapacity_place tech y)) by reflexivity.
  destruct (mapM _ (regions tech)); reflexivity.
Qed.




Lemma not_ok_raise {A : Type} (m : result A) :
  is_ok m = false -> exists e, m = Raise e.
Proof. destruct m as [a|e]; [discriminate | eauto]. Qed.

Lemma ExistingCapacity_place_raise (tech : Technology.t) (first_year : Z)
    (place : string) (e : exn) :
  ExistingCapacity_place tech first_year place = Raise e -> e = KeyError.
Proof.
  unfold ExistingCapacity_place. intros H.
  apply bind_raise in H.
  destruct H as [H|(lifetime & _ & H)]; [now apply getitem_raise in H|].
  apply bind_raise in H.
  destruct H as [H|(ec & _ & H)]; [now apply getitem_raise in H|].
  apply mapM_raise in H. destruct H as (year & _ & H).
  apply bind_raise in H.
  destruct H as [H|(ec' & _ & H)]; [now apply getitem_raise in H|].
  apply bind_raise in H.
  destruct H as [H|(cap & _ & H)]; [now apply getitem_raise in H|discriminate].
Qed.

(** What can go wrong in [create_existing_capacity].  With no technology
    nothing is read and the store is returned as it is; with a technology
    and an empty time horizon, [time_horizon[0]] raises IndexError; with a
    time horizon, a region of a technology that has no lifetime or no
    existing-capacity entry raises KeyError.  In the failing cases no table
    is created. *)
Theorem existing_capacity_failures (db : database)
    (technology_list : list Technology.t) (time_horizon : list Z) :
  create_existing_capacity db [] time_horizon = Ok db /\
  (technology_list <> [] ->
   create_existing_capacity db technology_list [] = Raise IndexError) /\
  (forall tech place,
      time_horizon <> [] ->
      In tech technology_list -> In place (regions tech) ->
      dict_get String.eqb place (tech_lifetime tech) = None \/
      dict_get String.eqb place (existing_capacity tech) = None ->
      create_existing_capacity db technology_list time_horizon
      = Raise KeyError).
Proof.
  repeat apply conj.
  - reflexivity.
  - intros Hne. destruct technology_list as [|tech l]; [contradiction|].
    reflexivity.
  - intros tech place Hh Htech Hplace Hmiss.
    destruct time_horizon as [|y0 later]; [contradiction|].
    unfold create_existing_capacity.
    rewrite ExistingCapacity_entries_by_tech. simpl first. simpl bind at 1.
    assert (is_ok (ExistingCapacity_place tech y0 place) = false) as Hp.
    { unfold ExistingCapacity_place, sget, getitem.
      destruct Hmiss as [-> | Hm]; [reflexivity|].
      destruct (dict_get String.eqb place (tech_lifetime tech));
        [|reflexivity].
      simpl. now rewrite Hm. }
    pose proof (mapM_In_raise _ _ _ Hplace Hp) as Hr.
    assert (is_ok (by_place <- mapM (ExistingCapacity_place tech y0)
                                    (regions tech) ;;
                   Ok (concat by_place)) = false) as Ht
        by (destruct (mapM _ (regions tech)); [discriminate|reflexivity]).
    pose proof (mapM_In_raise
                  (fun tech => by_place <- mapM (ExistingCapacity_place tech y0)
                                                (regions tech) ;;
                               Ok (concat by_place))
                  _ _ Htech Ht) as Hall.
    apply not_ok_raise in Hall. destruct Hall as (e & He).
    simpl in He |- *. rewrite He. simpl.
    apply mapM_raise in He. destruct He as (tech' & _ & He).
    apply bind_raise in He. destruct He as [He|(? & _ & He)]; [|discriminate].
    apply mapM_raise in He. destruct He as (place' & _ & He).
    now rewrite (ExistingCapacity_place_raise _ _ _ _ He).
Qed.

Lemma existing_capacity_failures_witness :
  create_existing_capacity [] [plant (20 # 1) costs_2020_2030] []
  = Raise IndexError /\
  create_existing_capacity [] [free_plant; half_described_plant] horizon
  = Raise KeyError.
Proof.
  split.
  - apply (proj1 (proj2 (existing_capacity_failures
                           [] [plant (20 # 1) costs_2020_2030] []))).
    discriminate.
  - apply (proj2 (proj2 (existing_capacity_failures
                           [] [free_plant; half_described_plant] horizon))
                 half_described_plant "R2").
    + discriminate.
    + simpl. auto.
    + simpl. auto.
    + left. reflexivity.
Defined.

(** ** Efficiency *)

Lemma Efficiency_entries_by_tech (technology_list : list Technology.t)
    (future : list Z) :
  Efficiency_entries technology_list future =
  (by_tech <-
     mapM (fun tech =>
             by_place <-
               mapM (fun place =>
                       data <- mapM (Efficiency_row tech place) future ;;
                       Ok (Efficiency_existing tech place ++ data))
                    (regions tech) ;;
             Ok (concat by_place))
          technology_list ;;
   Ok (concat by_tech)).
Proof.
  unfold Efficiency_entries.
  rewrite (foldM_extend _
             (fun tech =>
                by_place <-
                  mapM (fun place =>
                          data <- mapM (Efficiency_row tech place) future ;;
                          Ok (Efficiency_existing tech place ++ data))
                       (regions tech) ;;
                Ok (concat by_place))); [reflexivity|].
  intros e tech.
  rewrite (foldM_extend _
             (fun place =>
                data <- mapM (Efficiency_row tech place) future ;;
                Ok (Efficiency_existing tech place ++ data))).
  - destruct (mapM _ (regions tech)); reflexivity.
  - intros e' place. destruct (mapM _ future); simpl; [|reflexivity].
    now rewrite app_assoc.
Qed.

Lemma Efficiency_row_inv (tech : Technology.t) (place : string) (year : Z)
    (r : row) :
  Efficiency_row tech place year = Ok r ->
  exists ic oc eff,
    sget (input_comm tech) place = Ok ic /\
    sget (output_comm tech) place = Ok oc /\
    sget (efficiency tech) place = Ok eff /\
    r = [VText place; VText (Commodity.comm_name ic); VText (tech_name tech);
         VInt year; VText (Commodity.comm_name oc); VReal eff; VText "NULL"].
Proof.
  unfold Efficiency_row. intros H.
  apply bind_Ok in H. destruct H as (ic & Hic & H).
  apply bind_Ok in H. destruct H as (oc & Hoc & H).
  apply bind_Ok in H. destruct H as (eff & Heff & H).
  injection H as <-. exists ic, oc, eff. auto.
Qed.

Lemma Efficiency_existing_inv (tech : Technology.t) (place : string) (r : row) :
  In r (Efficiency_existing tech place) ->
  exists ec year,
    sget (existing_capacity tech) place = Ok ec /\ In year (keys ec) /\
    Efficiency_row tech place year = Ok r.
Proof.
  unfold Efficiency_existing.
  destruct (sget (existing_capacity tech) place) as [ec|] eqn:Hec; simpl;
    [|contradiction].
  destruct (mapM (Efficiency_row tech place) (keys ec)) as [data|] eqn:Hm;
    [|contradiction].
  intros Hr. destruct (mapM_In_out _ _ _ _ Hm Hr) as (year & Hy & Hrow).
  exists ec, year. auto.
Qed.

(** On success, Efficiency has a row for every technology, every region of
    it and every future year; and the vintage of any row is a future year
    or a key of the existing-capacity map of its technology and region, the
    other columns being the input and output commodity and the efficiency
    declared for the region. *)
Theorem efficiency_rows_cover_future_years (db db' : database)
    (technology_list : list Technology.t) (future : list Z) :
  create_efficiency db technology_list future = Ok db' ->
  exists rows,
    rows_of "Efficiency" db' = Some rows /\
    (forall tech place year,
        In tech technology_list -> In place (regions tech) ->
        In year future ->
        exists r, Efficiency_row tech place year = Ok r /\ In r rows) /\
    (forall r, In r rows ->
       exists tech place year,
         In tech technology_list /\ In place (regions tech) /\
         Efficiency_row tech place year = Ok r /\
         (In year future \/
          exists ec, sget (existing_capacity tech) place = Ok ec /\
                     In year (keys ec))).
Proof.
  unfold create_efficiency. intros H.
  apply bind_Ok in H. destruct H as (entries & E & H).
  apply create_rows in H. destruct H as [_ H].
  exists entries. split; [exact H|]. clear H.
  rewrite Efficiency_entries_by_tech in E.
  apply bind_Ok in E. destruct E as (by_tech & Et & E). injection E as <-.
  split.
  - intros tech place year Htech Hplace Hyear.
    destruct (mapM_In_in _ _ _ _ Et Htech) as (b & Hb & Hf).
    apply bind_Ok in Hf. destruct Hf as (by_place & Ep & Hf).
    injection Hf as <-.
    destruct (mapM_In_in _ _ _ _ Ep Hplace) as (b' & Hb' & Hp).
    apply bind_Ok in Hp. destruct Hp as (data & Ed & Hp). injection Hp as <-.
    destruct (mapM_In_in _ _ _ _ Ed Hyear) as (r & Hr & Hrow).
    exists r. split; [exact Hrow|].
    apply in_concat. exists (concat by_place). split; [exact Hb|].
    apply in_concat. eexists. split; [exact Hb'|].
    apply in_or_app. now right.
  - intros r Hr. apply in_concat in Hr. destruct Hr as (b & Hb & Hr).
    destruct (mapM_In_out _ _ _ _ Et Hb) as (tech & Htech & Hf).
    apply bind_Ok in Hf. destruct Hf as (by_place & Ep & Hf).
    injection Hf as <-.
    apply in_concat in Hr. destruct Hr as (b' & Hb' & Hr).
    destruct (mapM_In_out _ _ _ _ Ep Hb') as (place & Hplace & Hp).
    apply bind_Ok in Hp. destruct Hp as (data & Ed & Hp). injection Hp as <-.
    apply in_app_or in Hr. destruct Hr as [Hr|Hr].
    + apply Efficiency_existing_inv in Hr.
      destruct Hr as (ec & year & Hec & Hy & Hrow).
      exists tech, place, year. repeat split; auto. right. eauto.
    + destruct (mapM_In_out _ _ _ _ Ed Hr) as (year & Hy & Hrow).
      exists tech, place, year. repeat split; auto.
Qed.

Lemma efficiency_rows_cover_future_years_witness :
  exists rows,
    rows_of "Efficiency"
      [("Efficiency",
        {| tbl_schema := Efficiency_schema;
           tbl_rows := [[VText "R1"; VText "coal"; VText "FREE"; VInt 2020;
                         VText "ELC"; VReal (1 # 1); VText "NULL"];
                        [VText "R1"; VText "coal"; VText "FREE"; VInt 2030;
                         VText "ELC"; VReal (1 # 1); VText "NULL"]] |})]
      = Some rows /\
    (forall tech place year,
        In tech [free_plant] -> In place (regions tech) -> In year horizon ->
        exists r, Efficiency_row tech place year = Ok r /\ In r rows) /\
    (forall r, In r rows ->
       exists tech place year,
         In tech [free_plant] /\ In place (regions tech) /\
         Efficiency_row tech place year = Ok r /\
         (In year horizon \/
          exists ec, sget (existing_capacity tech) place = Ok ec /\
                     In year (keys ec))).
Proof.
  apply (efficiency_rows_cover_future_years [] _ [free_plant] horizon).
  reflexivity.
Defined.

(** ** A row written twice *)

Lemma sqlval_eqb_refl (a : sqlval) : sqlval_eqb a a = true.
Proof.
  destruct a; simpl;
    [apply String.eqb_refl | apply Z.eqb_refl | apply Qeq_bool_refl].
Qed.

Lemma key_eqb_refl (k : list sqlval) : key_eqb k k = true.
Proof.
  induction k as [|a k IH]; simpl; [reflexivity|].
  now rewrite sqlval_eqb_refl, IH.
Qed.

Lemma insert_present (sch : schema) (r : row) (l2 l3 : list row) :
  sch_pk sch <> [] ->
  forall old, In r old ->
              insert sch old (l2 ++ r :: l3) = Raise IntegrityError.
Proof.
  intros Hpk. induction l2 as [|a l2 IH]; simpl; intros old Hin.
  - assert (key_mem sch r old = true) as ->.
    { unfold key_mem. destruct (sch_pk sch); [contradiction|].
      apply existsb_exists. exists r. split; [exact Hin|].
      apply key_eqb_refl. }
    now rewrite andb_false_r.
  - destruct (sch_check sch a && negb (key_mem sch a old)); [|reflexivity].
    apply IH. apply in_or_app. now left.
Qed.

(** A bulk insert that holds one row twice fails under a primary key. *)
Lemma insert_twice (sch : schema) (r : row) (new : list row) :
  sch_pk sch <> [] -> twice r new ->
  forall old, insert sch old new = Raise IntegrityError.
Proof.
  intros Hpk (l1 & l2 & l3 & ->).
  induction l1 as [|a l1 IH]; simpl; intros old.
  - destruct (sch_check sch r && negb (key_mem sch r old)); [|reflexivity].
    apply insert_present; [exact Hpk|]. apply in_or_app. right. now left.
  - destruct (sch_check sch a && negb (key_mem sch a old)); [|reflexivity].
    apply IH.
Qed.

Lemma twice_app {A : Type} (r : A) (l1 l2 : list A) :
  In r l1 -> In r l2 -> twice r (l1 ++ l2).
Proof.
  intros H1 H2. apply in_split in H1. destruct H1 as (a & b & ->).
  apply in_split in H2. destruct H2 as (c & d & ->).
  exists a, (b ++ c), d. now rewrite <- !app_assoc.
Qed.

Lemma twice_inside {A : Type} (r : A) (p l s : list A) :
  twice r l -> twice r (p ++ l ++ s).
Proof.
  intros (l1 & l2 & l3 & ->). exists (p ++ l1), l2, (l3 ++ s).
  rewrite <- !app_assoc. simpl. now rewrite <- !app_assoc.
Qed.

Lemma twice_concat {A : Type} (r : A) (b : list A) (bs : list (list A)) :
  In b bs -> twice r b -> twice r (concat bs).
Proof.
  intros Hin Ht. apply in_split in Hin. destruct Hin as (p & s & ->).
  rewrite concat_app. simpl. now apply twice_inside.
Qed.

Lemma create_twice (name : string) (sch : schema) (entries : list row)
    (r : row) (db : database) :
  sch_pk sch <> [] -> twice r entries ->
  (db1 <- execute name sch db ;; executemany name entries db1)
  = Raise (match lookup_table name db with
           | Some _ => OperationalError
           | None => IntegrityError
           end).
Proof.
  intros Hpk Ht. unfold execute.
  destruct (lookup_table name db) eqn:L; [reflexivity|]. simpl.
  unfold executemany. rewrite (lookup_table_fresh _ _ _ L). simpl.
  now rewrite (insert_twice sch r entries Hpk Ht).
Qed.

Lemma Efficiency_row_raise (tech : Technology.t) (place : string) (year : Z)
    (e : exn) :
  Efficiency_row tech place year = Raise e -> e = KeyError.
Proof.
  unfold Efficiency_row. intros H.
  apply bind_raise in H.
  destruct H as [H|(ic & _ & H)]; [now apply getitem_raise in H|].
  apply bind_raise in H.
  destruct H as [H|(oc & _ & H)]; [now apply getitem_raise in H|].
  apply bind_raise in H.
  destruct H as [H|(eff & _ & H)]; [now apply getitem_raise in H|discriminate].
Qed.

Lemma Efficiency_entries_raise (technology_list : list Technology.t)
    (future : list Z) (e : exn) :
  Efficiency_entries technology_list future = Raise e -> e = KeyError.
Proof.
  rewrite Efficiency_entries_by_tech. intros H.
  apply bind_raise in H. destruct H as [H|(? & _ & H)]; [|discriminate].
  apply mapM_raise in H. destruct H as (tech & _ & H).
  apply bind_raise in H. destruct H as [H|(? & _ & H)]; [|discriminate].
  apply mapM_raise in H. destruct H as (place & _ & H).
  apply bind_raise in H. destruct H as [H|(? & _ & H)]; [|discriminate].
  apply mapM_raise in H. destruct H as (year & _ & H).
  now apply Efficiency_row_raise in H.
Qed.

(** Two ways [create_efficiency] fails.  With at least one future year, a
    region of a technology without input commodity, output commodity or
    efficiency raises KeyError (a missing existing-capacity entry alone does
    not: the [try] block swallows it).  And when a key of the
    existing-capacity map of a region is also a future year, the vintage is
    produced twice and the call cannot succeed: where the data and the store
    are otherwise fine it ends with IntegrityError. *)
Theorem efficiency_failures (db : database)
    (technology_list : list Technology.t) (future : list Z)
    (tech : Technology.t) (place : string) :
  In tech technology_list -> In place (regions tech) ->
  (future <> [] ->
   dict_get String.eqb place (input_comm tech) = None \/
   dict_get String.eqb place (output_comm tech) = None \/
   dict_get String.eqb place (efficiency tech) = None ->
   create_efficiency db technology_list future = Raise KeyError) /\
  (forall ec year,
      sget (existing_capacity tech) place = Ok ec ->
      In year (keys ec) -> In year future ->
      (forall db', create_efficiency db technology_list future <> Ok db') /\
      (forall entries,
          Efficiency_entries technology_list future = Ok entries ->
          lookup_table "Efficiency" db = None ->
          create_efficiency db technology_list future = Raise IntegrityError)).
Proof.
  intros Htech Hplace. split.
  - intros Hf Hmiss. unfold create_efficiency.
    destruct (Efficiency_entries technology_list future) as [entries|e] eqn:E;
      [exfalso | now rewrite (Efficiency_entries_raise _ _ _ E)].
    rewrite Efficiency_entries_by_tech in E.
    apply bind_Ok in E. destruct E as (by_tech & Et & _).
    destruct (mapM_In_in _ _ _ _ Et Htech) as (b & _ & Hb).
    apply bind_Ok in Hb. destruct Hb as (by_place & Ep & _).
    destruct (mapM_In_in _ _ _ _ Ep Hplace) as (b' & _ & Hb').
    apply bind_Ok in Hb'. destruct Hb' as (data & Ed & _).
    destruct future as [|y future]; [contradiction|].
    destruct (mapM_In_in _ _ _ _ Ed (or_introl eq_refl)) as (r & _ & Hr).
    apply Efficiency_row_inv in Hr.
    destruct Hr as (ic & oc & eff & Hic & Hoc & Heff & _).
    unfold sget, getitem in Hic, Hoc, Heff.
    destruct Hmiss as [Hm|[Hm|Hm]]; rewrite Hm in *; discriminate.
  - intros ec year Hec Hy Hfut.
    assert (forall entries,
               Efficiency_entries technology_list future = Ok entries ->
               exists r, twice r entries) as Htwice.
    { intros entries E. rewrite Efficiency_entries_by_tech in E.
      apply bind_Ok in E. destruct E as (by_tech & Et & E). injection E as <-.
      destruct (mapM_In_in _ _ _ _ Et Htech) as (b & Hb & Hf).
      apply bind_Ok in Hf. destruct Hf as (by_place & Ep & Hf).
      injection Hf as <-.
      destruct (mapM_In_in _ _ _ _ Ep Hplace) as (b' & Hb' & Hp).
      apply bind_Ok in Hp. destruct Hp as (data & Ed & Hp). injection Hp as <-.
      destruct (mapM_In_in _ _ _ _ Ed Hfut) as (r & Hr & Hrow).
      exists r. apply (twice_concat r _ _ Hb).
      apply (twice_concat r _ _ Hb'). apply twice_app; [|exact Hr].
      destruct (Efficiency_row_inv _ _ _ _ Hrow)
        as (ic & oc & eff & Hic & Hoc & Heff & ->).
      rewrite (Efficiency_existing_all_keys tech place ec ic oc eff)
        by assumption.
      apply in_map_iff. exists year. split; [reflexivity | exact Hy]. }
    split.
    + intros db' H. unfold create_efficiency in H.
      apply bind_Ok in H. destruct H as (entries & E & H).
      destruct (Htwice entries E) as (r & Ht).
      rewrite (create_twice "Efficiency" Efficiency_schema entries r db) in H;
        [discriminate | discriminate | exact Ht].
    + intros entries E L. unfold create_efficiency. rewrite E. simpl bind.
      destruct (Htwice entries E) as (r & Ht).
      rewrite (create_twice "Efficiency" Efficiency_schema entries r db);
        [now rewrite L | discriminate | exact Ht].
Qed.

Lemma efficiency_failures_witness :
  create_efficiency [] [half_described_plant] horizon = Raise KeyError /\
  create_efficiency [] [plant_built_2020] horizon = Raise IntegrityError.
Proof.
  split.
  - apply (proj1 (efficiency_failures [] [half_described_plant] horizon
                    half_described_plant "R2"
                    (or_introl eq_refl) (or_intror (or_introl eq_refl)))).
    + discriminate.
    + left. reflexivity.
  - apply (proj2 (proj2 (efficiency_failures [] [plant_built_2020] horizon
                    plant_built_2020 "R1"
                    (or_introl eq_refl) (or_introl eq_refl))
                    [(2020%Z, 100 # 1)] 2020%Z eq_refl
                    (or_introl eq_refl) (or_introl eq_refl))
                 _ eq_refl eq_refl).
Defined.

(** ** CostVariable and CostFixed: every valid pair, and a clash *)

Lemma Cost_place_pairs (cost : sdict (zdict Q)) (tech : Technology.t)
    (time_horizon : list Z) (place : string) (lifetime : Q) (ec : zdict Q)
    (rows : list row) :
  sget (tech_lifetime tech) place = Ok lifetime ->
  sget (existing_capacity tech) place = Ok ec ->
  Cost_place cost tech time_horizon place = Ok rows ->
  exists bs,
    mapM (Cost_pair cost tech place lifetime)
         (list_prod time_horizon (keys ec ++ time_horizon)) = Ok bs /\
    rows = concat bs.
Proof.
  intros Hl Hec. unfold Cost_place, vintage_pool. rewrite Hl, Hec. simpl.
  assert ((if (0 <? length ec)%nat then Ok (keys ec ++ time_horizon)
           else Ok time_horizon) = Ok (keys ec ++ time_horizon)) as ->
      by (destruct ec; reflexivity).
  simpl. rewrite (foldM_extend _ (Cost_pair cost tech place lifetime))
    by reflexivity.
  intros H. apply bind_Ok in H. destruct H as (bs & Hbs & H).
  injection H as <-. exists bs. split; [exact Hbs | reflexivity].
Qed.

Lemma Cost_entries_place (cost : Technology.t -> sdict (zdict Q))
    (technology_list : list Technology.t) (time_horizon : list Z)
    (entries : list row) (tech : Technology.t) (place : string) :
  Cost_entries cost technology_list time_horizon = Ok entries ->
  In tech technology_list -> cost tech <> [] -> In place (regions tech) ->
  exists rows by_place by_tech,
    Cost_place (cost tech) tech time_horizon place = Ok rows /\
    In rows by_place /\ In (concat by_place) by_tech /\
    entries = concat by_tech.
Proof.
  rewrite Cost_entries_by_tech. intros H Htech Hcost Hplace.
  apply bind_Ok in H. destruct H as (by_tech & Et & H). injection H as <-.
  destruct (mapM_In_in _ _ _ _ Et Htech) as (b & Hb & Hf).
  unfold Cost_tech in Hf.
  assert ((0 <? length (cost tech))%nat = true) as Hlen
      by (destruct (cost tech); [contradiction | reflexivity]).
  rewrite Hlen in Hf.
  apply bind_Ok in Hf. destruct Hf as (by_place & Ep & Hf). injection Hf as <-.
  destruct (mapM_In_in _ _ _ _ Ep Hplace) as (rows & Hrows & Hp).
  exists rows, by_place, by_tech. auto.
Qed.

Lemma mapM_app_inv {A B : Type} (f : A -> result B) (l1 l2 : list A)
    (bs : list B) :
  mapM f (l1 ++ l2) = Ok bs ->
  exists b1 b2, mapM f l1 = Ok b1 /\ mapM f l2 = Ok b2 /\ bs = b1 ++ b2.
Proof.
  rewrite mapM_app. intros H.
  apply bind_Ok in H. destruct H as (b1 & H1 & H).
  apply bind_Ok in H. destruct H as (b2 & H2 & H). injection H as <-.
  exists b1, b2. auto.
Qed.

Lemma mapM_twice {A B : Type} (f : A -> result (list B)) (l : list A)
    (bs : list (list B)) (a : A) (r : B) :
  twice a l -> mapM f l = Ok bs -> f a = Ok [r] -> twice r (concat bs).
Proof.
  intros (l1 & l2 & l3 & ->) H Ha.
  apply mapM_app_inv in H. destruct H as (b1 & b' & _ & H & ->).
  simpl in H. rewrite Ha in H. simpl in H.
  apply bind_Ok in H. destruct H as (b'' & H & Hb'). injection Hb' as <-.
  apply mapM_app_inv in H. destruct H as (b2 & b''' & _ & H & ->).
  simpl in H. rewrite Ha in H. simpl in H.
  apply bind_Ok in H. destruct H as (b3 & _ & Hb'). injection Hb' as <-.
  exists (concat b1), (concat b2), (concat b3).
  rewrite !concat_app. simpl. rewrite !concat_app. simpl. reflexivity.
Qed.

Lemma list_prod_twice {A B : Type} (a : A) (b : B) (l : list A) (l' : list B) :
  In a l -> twice b l' -> twice (a, b) (list_prod l l').
Proof.
  intros Ha (l1 & l2 & l3 & ->).
  apply in_split in Ha. destruct Ha as (h1 & h2 & ->).
  exists (list_prod h1 (l1 ++ b :: l2 ++ b :: l3) ++ map (pair a) l1),
         (map (pair a) l2),
         (map (pair a) l3 ++ list_prod h2 (l1 ++ b :: l2 ++ b :: l3)).
  induction h1 as [|x h1 IH]; simpl.
  - rewrite !map_app. simpl. rewrite !map_app. simpl.
    repeat (rewrite <- app_assoc; simpl). reflexivity.
  - rewrite IH. repeat (rewrite <- app_assoc; simpl). reflexivity.
Qed.

Lemma Cost_entries_complete (cost : Technology.t -> sdict (zdict Q))
    (technology_list : list Technology.t) (time_horizon : list Z)
    (entries : list row) (tech : Technology.t) (place : string)
    (lifetime : Q) (ec : zdict Q) (year vintage : Z) :
  Cost_entries cost technology_list time_horizon = Ok entries ->
  In tech technology_list -> cost tech <> [] -> In place (regions tech) ->
  sget (tech_lifetime tech) place = Ok lifetime ->
  sget (existing_capacity tech) place = Ok ec ->
  In year time_horizon -> In vintage (keys ec ++ time_horizon) ->
  inject_Z (year - vintage) < lifetime ->
  exists by_year c,
    sget (cost tech) place = Ok by_year /\ zget by_year year = Ok c /\
    In (cost_row place (tech_name tech) year vintage c) entries.
Proof.
  intros E Htech Hcost Hplace Hl Hec Hy Hv Hage.
  destruct (Cost_entries_place _ _ _ _ _ _ E Htech Hcost Hplace)
    as (rows & by_place & by_tech & Hp & Hrows & Hbp & ->).
  destruct (Cost_place_pairs _ _ _ _ _ _ _ Hl Hec Hp) as (bs & Hbs & ->).
  assert (In (year, vintage)
             (list_prod time_horizon (keys ec ++ time_horizon))) as Hpair
      by (now apply in_prod).
  destruct (mapM_In_in _ _ _ _ Hbs Hpair) as (b & Hb & Hpr).
  unfold Cost_pair in Hpr. simpl in Hpr.
  apply Qltb_lt in Hage. rewrite Hage in Hpr.
  apply bind_Ok in Hpr. destruct Hpr as (r & Hr & Hpr). injection Hpr as <-.
  unfold Cost_row in Hr.
  apply bind_Ok in Hr. destruct Hr as (by_year & Hby & Hr).
  apply bind_Ok in Hr. destruct Hr as (c & Hc & Hr). injection Hr as <-.
  exists by_year, c. repeat split; auto.
  apply in_concat. exists (concat by_place). split; [exact Hbp|].
  apply in_concat. exists (concat bs). split; [exact Hrows|].
  apply in_concat. eexists. split; [exact Hb|]. now left.
Qed.

Lemma Cost_entries_twice (cost : Technology.t -> sdict (zdict Q))
    (technology_list : list Technology.t) (time_horizon : list Z)
    (entries : list row) (tech : Technology.t) (place : string)
    (lifetime : Q) (ec : zdict Q) (year : Z) :
  Cost_entries cost technology_list time_horizon = Ok entries ->
  In tech technology_list -> cost tech <> [] -> In place (regions tech) ->
  sget (tech_lifetime tech) place = Ok lifetime ->
  sget (existing_capacity tech) place = Ok ec ->
  In year (keys ec) -> In year time_horizon -> 0 < lifetime ->
  exists r, twice r entries.
Proof.
  intros E Htech Hcost Hplace Hl Hec Hk Hy Hpos.
  destruct (Cost_entries_place _ _ _ _ _ _ E Htech Hcost Hplace)
    as (rows & by_place & by_tech & Hp & Hrows & Hbp & ->).
  destruct (Cost_place_pairs _ _ _ _ _ _ _ Hl Hec Hp) as (bs & Hbs & ->).
  assert (twice (year, year)
                (list_prod time_horizon (keys ec ++ time_horizon))) as Ht
      by (apply list_prod_twice; [exact Hy | now apply twice_app]).
  assert (In (year, year)
             (list_prod time_horizon (keys ec ++ time_horizon))) as Hpair.
  { apply in_prod; [exact Hy|]. apply in_or_app. now right. }
  destruct (mapM_In_in _ _ _ _ Hbs Hpair) as (b & Hb & Hpr).
  assert (exists r, Cost_pair (cost tech) tech place lifetime (year, year)
                    = Ok [r]) as (r & Hr).
  { unfold Cost_pair in *. simpl in *.
    assert (Qltb (inject_Z (year - year)) lifetime = true) as Hage.
    { apply Qltb_lt. now replace (year - year)%Z with 0%Z by lia. }
    rewrite Hage in *.
    apply bind_Ok in Hpr. destruct Hpr as (r & Hr & _).
    exists r. now rewrite Hr. }
  exists r. apply (twice_concat r _ _ Hbp). apply (twice_concat r _ _ Hrows).
  exact (mapM_twice _ _ _ (year, year) r Ht Hbs Hr).
Qed.

(** On success the cost tables hold a row for every pair that passes the
    age test: for a technology with a non-empty cost map, a region of it, a
    period of the horizon and a vintage among the existing-capacity keys or
    the horizon with [period - vintage < lifetime], the row with the cost of
    the period is in the table.  The age test has no lower bound, so with a
    positive lifetime a vintage later than the period has its row too. *)
Theorem cost_rows_cover_valid_pairs (db db' : database)
    (technology_list : list Technology.t) (time_horizon : list Z) :
  (create_variable_cost db technology_list time_horizon = Ok db' ->
   exists rows,
     rows_of "CostVariable" db' = Some rows /\
     (forall tech place lifetime ec year vintage,
         In tech technology_list -> cost_variable tech <> [] ->
         In place (regions tech) ->
         sget (tech_lifetime tech) place = Ok lifetime ->
         sget (existing_capacity tech) place = Ok ec ->
         In year time_horizon -> In vintage (keys ec ++ time_horizon) ->
         inject_Z (year - vintage) < lifetime ->
         exists by_year c,
           sget (cost_variable tech) place = Ok by_year /\
           zget by_year year = Ok c /\
           In (cost_row place (tech_name tech) year vintage c) rows) /\
     (forall tech place lifetime ec year vintage,
         In tech technology_list -> cost_variable tech <> [] ->
         In place (regions tech) ->
         sget (tech_lifetime tech) place = Ok lifetime ->
         sget (existing_capacity tech) place = Ok ec ->
         In year time_horizon -> In vintage time_horizon ->
         (year < vintage)%Z -> 0 < lifetime ->
         exists c, In (cost_row place (tech_name tech) year vintage c) rows)) /\
  (create_fixed_cost db technology_list time_horizon = Ok db' ->
   exists rows,
     rows_of "CostFixed" db' = Some rows /\
     (forall tech place lifetime ec year vintage,
         In tech technology_list -> cost_fixed tech <> [] ->
         In place (regions tech) ->
         sget (tech_lifetime tech) place = Ok lifetime ->
         sget (existing_capacity tech) place = Ok ec ->
         In year time_horizon -> In vintage (keys ec ++ time_horizon) ->
         inject_Z (year - vintage) < lifetime ->
         exists by_year c,
           sget (cost_fixed tech) place = Ok by_year /\
           zget by_year year = Ok c /\
           In (cost_row place (tech_name tech) year vintage c) rows)).
Proof.
  split; intros H;
    [unfold create_variable_cost in H | unfold create_fixed_cost in H];
    apply bind_Ok in H; destruct H as (entries & E & H);
    apply create_rows in H; destruct H as [_ H];
    exists entries; (split; [exact H|]).
  - split.
    + intros tech place lifetime ec year vintage Ht Hc Hp Hl Hec Hy Hv Hage.
      eapply (Cost_entries_complete cost_variable); eauto.
    + intros tech place lifetime ec year vintage Ht Hc Hp Hl Hec Hy Hv Hlt Hpos.
      destruct (Cost_entries_complete cost_variable _ _ _ tech place lifetime
                  ec year vintage E Ht Hc Hp Hl Hec Hy)
        as (by_year & c & _ & _ & Hin).
      * apply in_or_app. now right.
      * eapply Qle_lt_trans; [|exact Hpos].
        change 0 with (inject_Z 0). rewrite <- Zle_Qle. lia.
      * now exists c.
  - intros tech place lifetime ec year vintage Ht Hc Hp Hl Hec Hy Hv Hage.
    eapply (Cost_entries_complete cost_fixed); eauto.
Qed.

Lemma cost_rows_cover_valid_pairs_witness :
  exists db' rows,
    create_variable_cost [] [plant (5 # 1) costs_2020_2030] horizon = Ok db' /\
    rows_of "CostVariable" db' = Some rows /\
    exists c, In (cost_row "R1" "PLANT" 2020 2030 c) rows.
Proof.
  eexists. eexists. split; [reflexivity|]. split; [reflexivity|].
  destruct (proj1 (cost_rows_cover_valid_pairs
                     [] _ [plant (5 # 1) costs_2020_2030] horizon) eq_refl)
    as (rows & Hrows & _ & Hlater).
  injection Hrows as <-.
  apply (Hlater (plant (5 # 1) costs_2020_2030) "R1" (5 # 1)
                [(2010%Z, 100 # 1)] 2020%Z 2030%Z).
  - simpl. auto.
  - discriminate.
  - simpl. auto.
  - reflexivity.
  - reflexivity.
  - simpl. auto.
  - simpl. auto.
  - lia.
  - reflexivity.
Defined.

(** When a key of the existing-capacity map of a region is also a year of
    the time horizon and the lifetime is positive, the candidate vintages
    hold that year twice and the pair (year, year) is written twice: the
    cost tables cannot be built.  Where the costs are all found and the
    table is new, the call ends with IntegrityError. *)
Theorem cost_tables_reject_existing_vintage_in_horizon (db : database)
    (technology_list : list Technology.t) (time_horizon : list Z)
    (tech : Technology.t) (place : string) (lifetime : Q) (ec : zdict Q)
    (year : Z) :
  In tech technology_list -> In place (regions tech) ->
  sget (tech_lifetime tech) place = Ok lifetime ->
  sget (existing_capacity tech) place = Ok ec ->
  In year (keys ec) -> In year time_horizon -> 0 < lifetime ->
  (cost_variable tech <> [] ->
   (forall db',
       create_variable_cost db technology_list time_horizon <> Ok db') /\
   (forall entries,
       Cost_entries cost_variable technology_list time_horizon = Ok entries ->
       lookup_table "CostVariable" db = None ->
       create_variable_cost db technology_list time_horizon
       = Raise IntegrityError)) /\
  (cost_fixed tech <> [] ->
   (forall db',
       create_fixed_cost db technology_list time_horizon <> Ok db') /\
   (forall entries,
       Cost_entries cost_fixed technology_list time_horizon = Ok entries ->
       lookup_table "CostFixed" db = None ->
       create_fixed_cost db technology_list time_horizon
       = Raise IntegrityError)).
Proof.
  intros Htech Hplace Hl Hec Hk Hy Hpos. split; intros Hcost; split.
  - intros db' H. unfold create_variable_cost in H.
    apply bind_Ok in H. destruct H as (entries & E & H).
    destruct (Cost_entries_twice _ _ _ _ _ _ _ _ _ E Htech Hcost Hplace
                Hl Hec Hk Hy Hpos) as (r & Ht).
    rewrite (create_twice "CostVariable" Cost_schema entries r db) in H;
      [discriminate | discriminate | exact Ht].
  - intros entries E L. unfold create_variable_cost. rewrite E. simpl bind.
    destruct (Cost_entries_twice _ _ _ _ _ _ _ _ _ E Htech Hcost Hplace
                Hl Hec Hk Hy Hpos) as (r & Ht).
    rewrite (create_twice "CostVariable" Cost_schema entries r db);
      [now rewrite L | discriminate | exact Ht].
  - intros db' H. unfold create_fixed_cost in H.
    apply bind_Ok in H. destruct H as (entries & E & H).
    destruct (Cost_entries_twice _ _ _ _ _ _ _ _ _ E Htech Hcost Hplace
                Hl Hec Hk Hy Hpos) as (r & Ht).
    rewrite (create_twice "CostFixed" Cost_schema entries r db) in H;
      [discriminate | discriminate | exact Ht].
  - intros entries E L. unfold create_fixed_cost. rewrite E. simpl bind.
    destruct (Cost_entries_twice _ _ _ _ _ _ _ _ _ E Htech Hcost Hplace
                Hl Hec Hk Hy Hpos) as (r & Ht).
    rewrite (create_twice "CostFixed" Cost_schema entries r db);
      [now rewrite L | discriminate | exact Ht].
Qed.

Lemma cost_tables_reject_existing_vintage_in_horizon_witness :
  create_variable_cost [] [plant_built_2020] horizon = Raise IntegrityError.
Proof.
  apply (proj2 (proj1 (cost_tables_reject_existing_vintage_in_horizon
                         [] [plant_built_2020] horizon plant_built_2020 "R1"
                         (20 # 1) [(2020%Z, 100 # 1)] 2020%Z
                         (or_introl eq_refl) (or_introl eq_refl)
                         eq_refl eq_refl
                         (or_introl eq_refl) (or_introl eq_refl) eq_refl)
                      ltac:(discriminate))
               _ eq_refl eq_refl).
Defined.

(** ** LifetimeTech *)

Lemma LifetimeTech_entries_by_tech (technology_list : list Technology.t) :
  LifetimeTech_entries technology_list =
  (by_tech <-
     mapM (fun tech =>
             mapM (fun place =>
                     life <- sget (tech_lifetime tech) place ;;
                     Ok [VText place; VText (tech_name tech); VReal life;
                         VText "NULL"])
                  (regions tech))
          technology_list ;;
   Ok (concat by_tech)).
Proof.
  unfold LifetimeTech_entries.
  rewrite (foldM_extend _
             (fun tech =>
                mapM (fun place =>
                        life <- sget (tech_lifetime tech) place ;;
                        Ok [VText place; VText (tech_name tech); VReal life;
                            VText "NULL"])
                     (regions tech))); reflexivity.
Qed.

Lemma mapM_nested_Forall2 {A B C : Type} (h : A -> list B)
    (g : A -> B -> result C) (l : list A) :
  forall bs,
    mapM (fun a => mapM (g a) (h a)) l = Ok bs ->
    Forall2 (fun ab c => g (fst ab) (snd ab) = Ok c)
            (flat_map (fun a => map (pair a) (h a)) l) (concat bs).
Proof.
  induction l as [|a l IH]; simpl; intros bs H.
  - injection H as <-. constructor.
  - apply bind_Ok in H. destruct H as (b & Hb & H).
    apply bind_Ok in H. destruct H as (bs' & Hbs & H). injection H as <-.
    simpl. apply Forall2_app; [|now apply IH].
    apply mapM_Forall2 in Hb. clear -Hb.
    induction Hb; simpl; constructor; auto.
Qed.

(** On success LifetimeTech holds one row for each technology and each
    entry of its region list, in that order, with the lifetime declared for
    the region.  A region without a lifetime raises KeyError, and a region
    listed twice for a technology makes the call fail. *)
Theorem lifetime_rows_one_per_region (db : database)
    (technology_list : list Technology.t) :
  (forall db',
      create_lifetime_tech db technology_list = Ok db' ->
      exists rows,
        rows_of "LifetimeTech" db' = Some rows /\
        Forall2 (fun tp r =>
                   exists life,
                     sget (tech_lifetime (fst tp)) (snd tp) = Ok life /\
                     r = [VText (snd tp); VText (tech_name (fst tp));
                          VReal life; VText "NULL"])
                (flat_map (fun tech => map (pair tech) (regions tech))
                          technology_list)
                rows) /\
  (forall tech place,
      In tech technology_list -> In place (regions tech) ->
      dict_get String.eqb place (tech_lifetime tech) = None ->
      create_lifetime_tech db technology_list = Raise KeyError) /\
  (forall tech place,
      In tech technology_list -> twice place (regions tech) ->
      forall db', create_lifetime_tech db technology_list <> Ok db').
Proof.
  repeat apply conj.
  - intros db' H. unfold create_lifetime_tech in H.
    apply bind_Ok in H. destruct H as (entries & E & H).
    apply create_rows in H. destruct H as [_ H].
    exists entries. split; [exact H|].
    rewrite LifetimeTech_entries_by_tech in E.
    apply bind_Ok in E. destruct E as (by_tech & Et & E). injection E as <-.
    apply mapM_nested_Forall2 in Et.
    eapply Forall2_impl; [|exact Et]. simpl.
    intros [tech place] r Hr. simpl in *.
    apply bind_Ok in Hr. destruct Hr as (life & Hl & Hr). injection Hr as <-.
    now exists life.
  - intros tech place Htech Hplace Hmiss. unfold create_lifetime_tech.
    rewrite LifetimeTech_entries_by_tech.
    match goal with
    | |- context [mapM ?f technology_list] =>
        pose proof (mapM_In_raise f technology_list tech Htech) as Hall
    end.
    simpl in Hall.
    match type of Hall with
    | ?P -> _ => assert P as HP
    end.
    { match goal with
      | |- is_ok (mapM ?g (regions tech)) = false =>
          apply (mapM_In_raise g (regions tech) place Hplace)
      end.
      unfold sget, getitem. now rewrite Hmiss. }
    specialize (Hall HP). apply not_ok_raise in Hall.
    destruct Hall as (e & He). rewrite He. simpl.
    apply mapM_raise in He. destruct He as (tech' & _ & He).
    apply mapM_raise in He. destruct He as (place' & _ & He).
    apply bind_raise in He.
    destruct He as [He|(? & _ & He)]; [|discriminate].
    now rewrite (getitem_raise _ _ _ _ He).
  - intros tech place Htech Ht db' H. unfold create_lifetime_tech in H.
    apply bind_Ok in H. destruct H as (entries & E & H).
    rewrite LifetimeTech_entries_by_tech in E.
    apply bind_Ok in E. destruct E as (by_tech & Et & E). injection E as <-.
    destruct (mapM_In_in _ _ _ _ Et Htech) as (b & Hb & Hf).
    assert (exists r, twice r b) as (r & Hr).
    { destruct Ht as (l1 & l2 & l3 & Hreg). rewrite Hreg in Hf.
      apply mapM_app_inv in Hf. destruct Hf as (b1 & b' & _ & Hf & ->).
      simpl in Hf. apply bind_Ok in Hf. destruct Hf as (r & Hr & Hf).
      apply bind_Ok in Hf. destruct Hf as (b'' & Hf & Hb'').
      injection Hb'' as <-.
      apply mapM_app_inv in Hf. destruct Hf as (b2 & b''' & _ & Hf & ->).
      simpl in Hf. rewrite Hr in Hf. simpl in Hf.
      apply bind_Ok in Hf. destruct Hf as (b3 & _ & Hb3). injection Hb3 as <-.
      exists r, b1, b2, b3. reflexivity. }
    rewrite (create_twice "LifetimeTech" LifetimeTech_schema _ r db) in H;
      [destruct (lookup_table "LifetimeTech" db); discriminate
      | discriminate
      | now apply (twice_concat r b)].
Qed.

Lemma lifetime_rows_one_per_region_witness :
  (exists rows,
      rows_of "LifetimeTech"
        [("LifetimeTech",
          {| tbl_schema := LifetimeTech_schema;
             tbl_rows := [[VText "R1"; VText "FREE"; VReal (30 # 1);
                           VText "NULL"];
                          [VText "R1"; VText "PLANT"; VReal (20 # 1);
                           VText "NULL"]] |})] = Some rows /\
      Forall2 (fun tp r =>
                 exists life,
                   sget (tech_lifetime (fst tp)) (snd tp) = Ok life /\
                   r = [VText (snd tp); VText (tech_name (fst tp));
                        VReal life; VText "NULL"])
              (flat_map (fun tech => map (pair tech) (regions tech))
                        [free_plant; plant (20 # 1) costs_2020_2030])
              rows) /\
  create_lifetime_tech [] [half_described_plant] = Raise KeyError.
Proof.
  split.
  - apply (proj1 (lifetime_rows_one_per_region
                    [] [free_plant; plant (20 # 1) costs_2020_2030])).
    reflexivity.
  - apply (proj1 (proj2 (lifetime_rows_one_per_region
                           [] [half_described_plant]))
                 half_described_plant "R2").
    + simpl. auto.
    + simpl. auto.
    + reflexivity.
Defined.

(** ** CostInvest *)

Lemma CostInvest_entries_by_tech (technology_list : list Technology.t)
    (time_horizon : list Z) :
  CostInvest_entries technology_list time_horizon =
  (by_tech <-
     mapM (fun tech =>
             if (0 <? length (cost_invest tech))%nat
             then by_place <-
                    mapM (fun place =>
                            mapM (fun year =>
                                    c <- sget (cost_invest tech) place ;;
                                    Ok [VText place; VText (tech_name tech);
                                        VInt year; VReal c; VText "";
                                        VText ""])
                                 time_horizon)
                         (regions tech) ;;
                  Ok (concat by_place)
             else Ok [])
          technology_list ;;
   Ok (concat by_tech)).
Proof.
  unfold CostInvest_entries.
  rewrite (foldM_extend _
             (fun tech =>
                if (0 <? length (cost_invest tech))%nat
                then by_place <-
                       mapM (fun place =>
                               mapM (fun year =>
                                       c <- sget (cost_invest tech) place ;;
                                       Ok [VText place; VText (tech_name tech);
                                           VInt year; VReal c; VText "";
                                           VText ""])
                                    time_horizon)
                            (regions tech) ;;
                     Ok (concat by_place)
                else Ok [])); [reflexivity|].
  intros e tech. destruct (0 <? length (cost_invest tech))%nat.
  - rewrite (foldM_extend _
               (fun place =>
                  mapM (fun year =>
                          c <- sget (cost_invest tech) place ;;
                          Ok [VText place; VText (tech_name tech);
                              VInt year; VReal c; VText ""; VText ""])
                       time_horizon)) by reflexivity.
    destruct (mapM _ (regions tech)); reflexivity.
  - simpl. now rewrite app_nil_r.
Qed.

(** On success CostInvest holds, for each technology with a non-empty
    investment-cost map, each region of it and each year of the horizon, the
    row with the cost declared for the region, the same for every year; it
    holds nothing else, so no row has an existing vintage and a technology
    with an empty map has no row.  With an empty horizon no cost is looked
    up and the table is created empty. *)
Theorem invest_cost_rows (db : database)
    (technology_list : list Technology.t) (time_horizon : list Z) :
  (forall db',
      create_invest_cost db technology_list time_horizon = Ok db' ->
      exists rows,
        rows_of "CostInvest" db' = Some rows /\
        (forall tech place year,
            In tech technology_list -> cost_invest tech <> [] ->
            In place (regions tech) -> In year time_horizon ->
            exists c,
              sget (cost_invest tech) place = Ok c /\
              In [VText place; VText (tech_name tech); VInt year; VReal c;
                  VText ""; VText ""] rows) /\
        (forall r, In r rows ->
           exists tech place year c,
             In tech technology_list /\ cost_invest tech <> [] /\
             In place (regions tech) /\ In year time_horizon /\
             sget (cost_invest tech) place = Ok c /\
             r = [VText place; VText (tech_name tech); VInt year; VReal c;
                  VText ""; VText ""])) /\
  (lookup_table "CostInvest" db = None ->
   exists db', create_invest_cost db technology_list [] = Ok db' /\
               rows_of "CostInvest" db' = Some []).
Proof.
  split.
  - intros db' H. unfold create_invest_cost in H.
    apply bind_Ok in H. destruct H as (entries & E & H).
    apply create_rows in H. destruct H as [_ H].
    exists entries. split; [exact H|]. clear H.
    rewrite CostInvest_entries_by_tech in E.
    apply bind_Ok in E. destruct E as (by_tech & Et & E). injection E as <-.
    split.
    + intros tech place year Htech Hcost Hplace Hyear.
      destruct (mapM_In_in _ _ _ _ Et Htech) as (b & Hb & Hf).
      assert ((0 <? length (cost_invest tech))%nat = true) as Hlen
          by (destruct (cost_invest tech); [contradiction | reflexivity]).
      rewrite Hlen in Hf.
      apply bind_Ok in Hf. destruct Hf as (by_place & Ep & Hf).
      injection Hf as <-.
      destruct (mapM_In_in _ _ _ _ Ep Hplace) as (b' & Hb' & Hp).
      destruct (mapM_In_in _ _ _ _ Hp Hyear) as (r & Hr & Hrow).
      apply bind_Ok in Hrow. destruct Hrow as (c & Hc & Hrow).
      injection Hrow as <-. exists c. split; [exact Hc|].
      apply in_concat. exists (concat by_place). split; [exact Hb|].
      apply in_concat. exists b'. split; assumption.
    + intros r Hr. apply in_concat in Hr. destruct Hr as (b & Hb & Hr).
      destruct (mapM_In_out _ _ _ _ Et Hb) as (tech & Htech & Hf).
      destruct (0 <? length (cost_invest tech))%nat eqn:Hlen;
        [|injection Hf as <-; contradiction].
      apply bind_Ok in Hf. destruct Hf as (by_place & Ep & Hf).
      injection Hf as <-.
      apply in_concat in Hr. destruct Hr as (b' & Hb' & Hr).
      destruct (mapM_In_out _ _ _ _ Ep Hb') as (place & Hplace & Hp).
      destruct (mapM_In_out _ _ _ _ Hp Hr) as (year & Hyear & Hrow).
      apply bind_Ok in Hrow. destruct Hrow as (c & Hc & Hrow).
      injection Hrow as <-.
      exists tech, place, year, c. repeat split; auto.
      intros Hnil. rewrite Hnil in Hlen. discriminate.
  - intros L. unfold create_invest_cost.
    assert (CostInvest_entries technology_list [] = Ok []) as ->.
    { rewrite CostInvest_entries_by_tech.
      rewrite (mapM_pure _ (fun _ => [])).
      - simpl. f_equal. induction technology_list; simpl; auto.
      - intros tech _. destruct (0 <? length (cost_invest tech))%nat;
          [|reflexivity].
        rewrite (mapM_pure _ (fun _ => [])) by reflexivity. simpl. f_equal.
        induction (regions tech); simpl; auto. }
    simpl bind. now apply create_ok.
Qed.

Lemma invest_cost_rows_witness :
  (exists rows,
      rows_of "CostInvest"
        [("CostInvest",
          {| tbl_schema := CostInvest_schema;
             tbl_rows := [[VText "R1"; VText "PLANT"; VInt 2020; VReal (5 # 1);
                           VText ""; VText ""];
                          [VText "R1"; VText "PLANT"; VInt 2030; VReal (5 # 1);
                           VText ""; VText ""]] |})] = Some rows /\
      (forall tech place year,
          In tech [free_plant; plant (20 # 1) costs_2020_2030] ->
          cost_invest tech <> [] ->
          In place (regions tech) -> In year horizon ->
          exists c,
            sget (cost_invest tech) place = Ok c /\
            In [VText place; VText (tech_name tech); VInt year; VReal c;
                VText ""; VText ""] rows) /\
      (forall r, In r rows ->
         exists tech place year c,
           In tech [free_plant; plant (20 # 1) costs_2020_2030] /\
           cost_invest tech <> [] /\
           In place (regions tech) /\ In year horizon /\
           sget (cost_invest tech) place = Ok c /\
           r = [VText place; VText (tech_name tech); VInt year; VReal c;
                VText ""; VText ""])) /\
  (exists db', create_invest_cost [] [half_described_plant] [] = Ok db' /\
               rows_of "CostInvest" db' = Some []).
Proof.
  split.
  - apply (proj1 (invest_cost_rows
                    [] [free_plant; plant (20 # 1) costs_2020_2030] horizon)).
    reflexivity.
  - apply (proj2 (invest_cost_rows [] [half_described_plant] [])).
    reflexivity.
Defined.

(** ** The slice-indexed tables *)

Lemma firstn_plus {A : Type} (k m : nat) (l : list A) :
  firstn (k + m) l = firstn k l ++ firstn m (skipn k l).
Proof.
  revert l. induction k as [|k IH]; intros l; [reflexivity|].
  destruct l as [|a l]; simpl; [now rewrite firstn_nil | now rewrite IH].
Qed.

Lemma combine_snd_firstn {A B : Type} (v : list A) (it : list B) :
  map snd (combine v it) = firstn (length (combine v it)) it.
Proof.
  revert it. induction v as [|a v IH]; intros it; [reflexivity|].
  destruct it as [|t it]; simpl; [reflexivity | now rewrite IH].
Qed.

Lemma skipn_combine_length {A B : Type} (v : list A) (it : list B) :
  skipn (length v) it = skipn (length (combine v it)) it.
Proof.
  revert it. induction v as [|a v IH]; intros it; [reflexivity|].
  destruct it as [|t it]; simpl; [reflexivity | apply IH].
Qed.

Lemma mapM_combine_slices {A B C : Type} (f : A * B -> result C)
    (v : list A) (it : list B) (entry : list C) :
  mapM f (combine v it) = Ok entry ->
  Forall2 (fun ts r => exists d, In d v /\ f (d, ts) = Ok r)
          (map snd (combine v it)) entry.
Proof.
  intros H. apply mapM_Forall2 in H.
  assert (Forall (fun p => In (fst p) v) (combine v it)) as Hin.
  { apply Forall_forall. intros [d ts] Hp. simpl.
    now apply in_combine_l in Hp. }
  induction H as [|[d ts] r ps rs Hr _ IH]; simpl; constructor.
  - inversion Hin; subst. exists d. auto.
  - inversion Hin; subst. auto.
Qed.

(** The passes of a region loop hand out the slices of the iterator in
    order, each at most once. *)
Lemma slice_passes_spec {D : Type} (vals : D -> list Q)
    (mk : string -> Q * time_slice -> result row) (l : list (string * D)) :
  forall it rows,
    slice_passes vals mk it l = Ok rows ->
    (length rows <= length it)%nat /\
    Forall2 (fun ts r =>
               exists pd d, In pd l /\ In d (vals (snd pd)) /\
                            mk (fst pd) (d, ts) = Ok r)
            (firstn (length rows) it) rows.
Proof.
  induction l as [|pd l IH]; simpl; intros it rows H.
  - injection H as <-. split; [simpl; lia | constructor].
  - rewrite zip_iter_spec in H.
    apply bind_Ok in H. destruct H as (entry & He & H).
    apply bind_Ok in H. destruct H as (more & Hm & H). injection H as <-.
    rewrite skipn_combine_length in Hm.
    destruct (IH _ _ Hm) as [Hlen HF].
    pose proof (mapM_combine_slices _ _ _ _ He) as HFe.
    assert (length (combine (vals (snd pd)) it) = length entry) as Hle.
    { apply Forall2_length in HFe. now rewrite length_map in HFe. }
    rewrite Hle in Hm, Hlen, HF. rewrite length_skipn in Hlen.
    assert (length entry <= length it)%nat as Hk
        by (rewrite <- Hle, length_combine; lia).
    rewrite length_app. split; [lia|].
    rewrite firstn_plus. apply Forall2_app.
    + rewrite combine_snd_firstn, Hle in HFe.
      eapply Forall2_impl; [|exact HFe].
      intros ts r (d & Hd & Hr). exists pd, d. auto.
    + eapply Forall2_impl; [|exact HF].
      intros ts r (pd' & d & Hin & Hd & Hr). exists pd', d. auto.
Qed.

Lemma Forall2_with_Forall {A B : Type} (R : A -> B -> Prop) (P : A -> Prop)
    (l : list A) (l' : list B) :
  Forall2 R l l' -> Forall P l -> Forall2 (fun a b => P a /\ R a b) l l'.
Proof.
  induction 1 as [|a b l l' Hab _ IH]; intros HP; constructor.
  - inversion HP; subst. auto.
  - inversion HP; subst. auto.
Qed.

Lemma concat_length_bound {A B : Type} (R : A -> list B -> Prop) (n : nat)
    (l : list A) (blocks : list (list B)) :
  Forall2 (fun a b => R a b /\ (length b <= n)%nat) l blocks ->
  (length (concat blocks) <= length l * n)%nat.
Proof.
  induction 1 as [|a b l blocks [_ Hb] _ IH]; simpl; [lia|].
  rewrite length_app. lia.
Qed.

(** On success the rows of CapacityFactorTech come technology by
    technology.  The regions of one technology share the slices of one
    [product(hours, seasons)]: the k rows of a technology use its first k
    slices, in order and each once, so a technology never has more than
    [len(hours) * len(seasons)] rows however many regions it declares.  In
    each row the column season_name holds the first component of the slice,
    an element of [hours], and time_of_day_name the second, an element of
    [seasons]. *)
Theorem capacity_factor_rows_share_slices (db db' : database)
    (technology_list : list Technology.t) (seasons hours : list (list string)) :
  create_capacity_factor_tech db technology_list seasons hours = Ok db' ->
  exists blocks,
    rows_of "CapacityFactorTech" db' = Some (concat blocks) /\
    (length (concat blocks)
     <= length technology_list * (length hours * length seasons))%nat /\
    Forall2 (fun tech rows =>
               (length rows <= length hours * length seasons)%nat /\
               Forall2 (fun ts r =>
                          In ts (list_prod hours seasons) /\
                          exists place data d a b,
                            In (place, data) (capacity_factor_tech tech) /\
                            In d (cf_values seasons hours data) /\
                            first (fst ts) = Ok a /\ first (snd ts) = Ok b /\
                            r = [VText place; VText a; VText b;
                                 VText (tech_name tech); VReal d; VText ""])
                       (firstn (length rows) (list_prod hours seasons)) rows)
            technology_list blocks.
Proof.
  unfold create_capacity_factor_tech. intros H.
  apply bind_Ok in H. destruct H as (db1 & Hx & H).
  unfold execute in Hx.
  destruct (lookup_table "CapacityFactorTech" db) eqn:L; [discriminate|].
  injection Hx as <-.
  pose proof (lookup_table_fresh "CapacityFactorTech"
                {| tbl_schema := CapacityFactorTech_schema; tbl_rows := [] |}
                db L) as L1.
  assert (forall dbA tech dbB t,
             lookup_table "CapacityFactorTech" dbA = Some t ->
             (st <- foldM (cft_region tech seasons hours)
                          (dbA, list_prod hours seasons)
                          (capacity_factor_tech tech) ;;
              Ok (fst st)) = Ok dbB ->
             exists rows,
               slice_passes (cf_values seasons hours)
                            (fun place => slice_row place (tech_name tech) "")
                            (list_prod hours seasons)
                            (capacity_factor_tech tech) = Ok rows /\
               lookup_table "CapacityFactorTech" dbB =
                 Some {| tbl_schema := tbl_schema t;
                         tbl_rows := tbl_rows t ++ rows |}) as Hstep.
  { intros dbA tech dbB t LA HA.
    apply bind_Ok in HA. destruct HA as (st & Hst & HA). injection HA as <-.
    exact (foldM_slice_passes "CapacityFactorTech"
             (cf_values seasons hours)
             (fun place => slice_row place (tech_name tech) "")
             (cft_region tech seasons hours)
             (fun st pd => eq_refl) _ _ _ _ _ LA Hst). }
  destruct (foldM_blocks "CapacityFactorTech"
              (fun tech rows =>
                 slice_passes (cf_values seasons hours)
                              (fun place => slice_row place (tech_name tech) "")
                              (list_prod hours seasons)
                              (capacity_factor_tech tech) = Ok rows)
              _ Hstep _ _ _ _ L1 H) as (blocks & HF & L2).
  assert (Forall2
            (fun tech rows =>
               (length rows <= length hours * length seasons)%nat /\
               Forall2 (fun ts r =>
                          In ts (list_prod hours seasons) /\
                          exists place data d a b,
                            In (place, data) (capacity_factor_tech tech) /\
                            In d (cf_values seasons hours data) /\
                            first (fst ts) = Ok a /\ first (snd ts) = Ok b /\
                            r = [VText place; VText a; VText b;
                                 VText (tech_name tech); VReal d; VText ""])
                       (firstn (length rows) (list_prod hours seasons)) rows)
            technology_list blocks) as HF'.
  { eapply Forall2_impl; [|exact HF]. intros tech rows Hp.
    apply slice_passes_spec in Hp. destruct Hp as [Hlen Hrows].
    unfold time_slice in Hlen. rewrite length_prod in Hlen.
    split; [exact Hlen|].
    assert (Forall (fun ts => In ts (list_prod hours seasons))
                   (firstn (length rows) (list_prod hours seasons))) as Hin.
    { apply Forall_forall. intros ts Hts.
      rewrite <- (firstn_skipn (length rows) (list_prod hours seasons)).
      apply in_or_app. now left. }
    eapply Forall2_impl; [|exact (Forall2_with_Forall _ _ _ _ Hrows Hin)].
    intros ts r [Hts ([place data] & d & Hpd & Hd & Hr)].
    split; [exact Hts|].
    apply slice_row_inv in Hr. destruct Hr as (a & b & Ha & Hb & ->).
    exists place, data, d, a, b. auto. }
  exists blocks. split; [|split; [|exact HF']].
  - unfold rows_of. now rewrite L2.
  - apply (concat_length_bound _ _ _ _
             (Forall2_impl _ (fun a b H => conj (proj2 H) (proj1 H)) HF')).
Qed.

Lemma capacity_factor_rows_share_slices_witness :
  exists db',
    create_capacity_factor_tech [] [plant (20 # 1) costs_2020_2030]
                                (season_labels 2) (hour_labels 1) = Ok db' /\
    exists blocks,
      rows_of "CapacityFactorTech" db' = Some (concat blocks) /\
      (length (concat blocks) <= 1 * (1 * 2))%nat /\
      Forall2 (fun tech rows =>
                 (length rows <= 1 * 2)%nat /\
                 Forall2 (fun ts r =>
                            In ts (list_prod (hour_labels 1) (season_labels 2))
                            /\
                            exists place data d a b,
                              In (place, data) (capacity_factor_tech tech) /\
                              In d (cf_values (season_labels 2) (hour_labels 1)
                                              data) /\
                              first (fst ts) = Ok a /\ first (snd ts) = Ok b /\
                              r = [VText place; VText a; VText b;
                                   VText (tech_name tech); VReal d; VText ""])
                         (firstn (length rows)
                                 (list_prod (hour_labels 1) (season_labels 2)))
                         rows)
              [plant (20 # 1) costs_2020_2030] blocks.
Proof.
  eexists. split; [reflexivity|].
  apply (capacity_factor_rows_share_slices
           [] _ [plant (20 # 1) costs_2020_2030]
           (season_labels 2) (hour_labels 1)).
  reflexivity.
Defined.

(** DemandSpecificDistribution is built the same way, commodity by
    commodity: the regions of one commodity share the slices of one
    [product(hours, seasons)], the k rows of a commodity use its first k
    slices in order, a commodity never has more than
    [len(hours) * len(seasons)] rows, and the column season_name holds an
    element of [hours]. *)
Theorem distribution_rows_share_slices (db db' : database)
    (demand_list : list Commodity.t) (seasons hours : list (list string)) :
  create_demand_specific_distribution db demand_list seasons hours = Ok db' ->
  exists blocks,
    rows_of "DemandSpecificDistribution" db' = Some (concat blocks) /\
    (length (concat blocks)
     <= length demand_list * (length hours * length seasons))%nat /\
    Forall2 (fun comm rows =>
               (length rows <= length hours * length seasons)%nat /\
               Forall2 (fun ts r =>
                          In ts (list_prod hours seasons) /\
                          exists region data d a b,
                            In (region, data) (Commodity.distribution comm) /\
                            In d data /\
                            first (fst ts) = Ok a /\ first (snd ts) = Ok b /\
                            r = [VText region; VText a; VText b;
                                 VText (Commodity.comm_name comm); VReal d;
                                 VText (Commodity.units comm)])
                       (firstn (length rows) (list_prod hours seasons)) rows)
            demand_list blocks.
Proof.
  unfold create_demand_specific_distribution. intros H.
  apply bind_Ok in H. destruct H as (db1 & Hx & H).
  unfold execute in Hx.
  destruct (lookup_table "DemandSpecificDistribution" db) eqn:L;
    [discriminate|].
  injection Hx as <-.
  pose proof (lookup_table_fresh "DemandSpecificDistribution"
                {| tbl_schema := DemandSpecificDistribution_schema;
                   tbl_rows := [] |} db L) as L1.
  assert (forall dbA comm dbB t,
             lookup_table "DemandSpecificDistribution" dbA = Some t ->
             (st <- foldM (dsd_region comm) (dbA, list_prod hours seasons)
                          (Commodity.distribution comm) ;;
              Ok (fst st)) = Ok dbB ->
             exists rows,
               slice_passes (fun data : list Q => data)
                            (fun region =>
                               slice_row region (Commodity.comm_name comm)
                                         (Commodity.units comm))
                            (list_prod hours seasons)
                            (Commodity.distribution comm) = Ok rows /\
               lookup_table "DemandSpecificDistribution" dbB =
                 Some {| tbl_schema := tbl_schema t;
                         tbl_rows := tbl_rows t ++ rows |}) as Hstep.
  { intros dbA comm dbB t LA HA.
    apply bind_Ok in HA. destruct HA as (st & Hst & HA). injection HA as <-.
    exact (foldM_slice_passes "DemandSpecificDistribution"
             (fun data : list Q => data)
             (fun region => slice_row region (Commodity.comm_name comm)
                                      (Commodity.units comm))
             (dsd_region comm)
             (fun st pd => eq_refl) _ _ _ _ _ LA Hst). }
  destruct (foldM_blocks "DemandSpecificDistribution"
              (fun comm rows =>
                 slice_passes (fun data : list Q => data)
                              (fun region =>
                                 slice_row region (Commodity.comm_name comm)
                                           (Commodity.units comm))
                              (list_prod hours seasons)
                              (Commodity.distribution comm) = Ok rows)
              _ Hstep _ _ _ _ L1 H) as (blocks & HF & L2).
  assert (Forall2
            (fun comm rows =>
               (length rows <= length hours * length seasons)%nat /\
               Forall2 (fun ts r =>
                          In ts (list_prod hours seasons) /\
                          exists region data d a b,
                            In (region, data) (Commodity.distribution comm) /\
                            In d data /\
                            first (fst ts) = Ok a /\ first (snd ts) = Ok b /\
                            r = [VText region; VText a; VText b;
                                 VText (Commodity.comm_name comm); VReal d;
                                 VText (Commodity.units comm)])
                       (firstn (length rows) (list_prod hours seasons)) rows)
            demand_list blocks) as HF'.
  { eapply Forall2_impl; [|exact HF]. intros comm rows Hp.
    apply slice_passes_spec in Hp. destruct Hp as [Hlen Hrows].
    unfold time_slice in Hlen. rewrite length_prod in Hlen.
    split; [exact Hlen|].
    assert (Forall (fun ts => In ts (list_prod hours seasons))
                   (firstn (length rows) (list_prod hours seasons))) as Hin.
    { apply Forall_forall. intros ts Hts.
      rewrite <- (firstn_skipn (length rows) (list_prod hours seasons)).
      apply in_or_app. now left. }
    eapply Forall2_impl; [|exact (Forall2_with_Forall _ _ _ _ Hrows Hin)].
    intros ts r [Hts ([region data] & d & Hpd & Hd & Hr)].
    split; [exact Hts|].
    apply slice_row_inv in Hr. destruct Hr as (a & b & Ha & Hb & ->).
    exists region, data, d, a, b. auto. }
  exists blocks. split; [|split; [|exact HF']].
  - unfold rows_of. now rewrite L2.
  - apply (concat_length_bound _ _ _ _
             (Forall2_impl _ (fun a b H => conj (proj2 H) (proj1 H)) HF')).
Qed.

Lemma distribution_rows_share_slices_witness :
  exists db',
    create_demand_specific_distribution [] [elc] (season_labels 2)
                                        (hour_labels 1) = Ok db' /\
    exists blocks,
      rows_of "DemandSpecificDistribution" db' = Some (concat blocks) /\
      (length (concat blocks) <= 1 * (1 * 2))%nat /\
      Forall2 (fun comm rows =>
                 (length rows <= 1 * 2)%nat /\
                 Forall2 (fun ts r =>
                            In ts (list_prod (hour_labels 1) (season_labels 2))
                            /\
                            exists region data d a b,
                              In (region, data) (Commodity.distribution comm) /\
                              In d data /\
                              first (fst ts) = Ok a /\ first (snd ts) = Ok b /\
                              r = [VText region; VText a; VText b;
                                   VText (Commodity.comm_name comm); VReal d;
                                   VText (Commodity.units comm)])
                         (firstn (length rows)
                                 (list_prod (hour_labels 1) (season_labels 2)))
                         rows)
              [elc] blocks.
Proof.
  eexists. split; [reflexivity|].
  apply (distribution_rows_share_slices
           [] _ [elc] (season_labels 2) (hour_labels 1)).
  reflexivity.
Defined.

(** ** CHECK constraints *)

Lemma check_unit_interval_spec (i : nat) (r : row) :
  check_unit_interval i r = true <-> in_unit_interval (column i r).
Proof.
  unfold check_unit_interval, in_unit_interval.
  destruct (column i r) as [s|z|q].
  - split; [discriminate | contradiction].
  - rewrite andb_true_iff, !Z.leb_le. tauto.
  - rewrite andb_true_iff, !Qle_bool_iff. tauto.
Qed.

Lemma check_positive_spec (i : nat) (r : row) :
  check_positive i r = true <-> positive_value (column i r).
Proof.
  unfold check_positive, positive_value.
  destruct (column i r) as [s|z|q].
  - tauto.
  - apply Z.ltb_lt.
  - rewrite negb_true_iff. split.
    + intros H. apply Qnot_le_lt. intros Hle.
      apply Qle_bool_iff in Hle. congruence.
    + intros H. destruct (Qle_bool q 0) eqn:E; [|reflexivity].
      apply Qle_bool_iff in E. now apply Qlt_not_le in H.
Qed.

Lemma insert_checked (sch : schema) (new : list row) :
  forall old rows,
    insert sch old new = Ok rows ->
    Forall (fun r => sch_check sch r = true) new.
Proof.
  induction new as [|r new IH]; simpl; intros old rows H; [constructor|].
  destruct (sch_check sch r) eqn:Hc; simpl in H; [|discriminate].
  destruct (key_mem sch r old); simpl in H; [discriminate|].
  constructor; eauto.
Qed.

Lemma execute_checked (name : string) (sch : schema) (db db' : database) :
  execute name sch db = Ok db' -> holds_checked sch name db'.
Proof.
  unfold execute. destruct (lookup_table name db) eqn:L; [discriminate|].
  intros H. injection H as <-. eexists. split; [now apply lookup_table_fresh|].
  split; [reflexivity | constructor].
Qed.

Lemma executemany_checked (name : string) (sch : schema) (entries : list row)
    (db db' : database) :
  holds_checked sch name db -> executemany name entries db = Ok db' ->
  holds_checked sch name db'.
Proof.
  intros (t & L & Hs & Hc) H. unfold executemany in H. rewrite L in H.
  apply bind_Ok in H. destruct H as (rows & I & H). injection H as <-.
  eexists. split; [eapply lookup_set_table; eauto|]. simpl.
  split; [exact Hs|]. rewrite Hs in I.
  rewrite (insert_app _ _ _ _ I). apply Forall_app. split; [exact Hc|].
  eapply insert_checked; eauto.
Qed.

Lemma foldM_checked {A S : Type} (sch : schema) (name : string)
    (proj : S -> database) (f : S -> A -> result S) (l : list A) :
  (forall s a s', holds_checked sch name (proj s) -> f s a = Ok s' ->
                  holds_checked sch name (proj s')) ->
  forall s s', holds_checked sch name (proj s) -> foldM f s l = Ok s' ->
               holds_checked sch name (proj s').
Proof.
  intros Hf. induction l as [|a l IH]; simpl; intros s s' Hs H.
  - now injection H as <-.
  - apply bind_Ok in H. destruct H as (s1 & H1 & H). eauto.
Qed.

Lemma holds_checked_rows (sch : schema) (name : string) (db : database)
    (rows : list row) :
  holds_checked sch name db -> rows_of name db = Some rows ->
  Forall (fun r => sch_check sch r = true) rows.
Proof.
  intros (t & L & _ & Hc). unfold rows_of. rewrite L. simpl.
  now intros [= <-].
Qed.

(** Whatever the four builders with a CHECK constraint manage to write
    respects it: every segfrac, dds and cf_tech stored lies in [0, 1] and
    every efficiency stored is positive. *)
Theorem stored_values_respect_checks (db db' : database) (rows : list row) :
  (forall segfrac seasons hours,
      create_segfrac db segfrac seasons hours = Ok db' ->
      rows_of "SegFrac" db' = Some rows ->
      Forall (fun r => in_unit_interval (column 2 r)) rows) /\
  (forall demand_list seasons hours,
      create_demand_specific_distribution db demand_list seasons hours
      = Ok db' ->
      rows_of "DemandSpecificDistribution" db' = Some rows ->
      Forall (fun r => in_unit_interval (column 4 r)) rows) /\
  (forall technology_list future,
      create_efficiency db technology_list future = Ok db' ->
      rows_of "Efficiency" db' = Some rows ->
      Forall (fun r => positive_value (column 5 r)) rows) /\
  (forall technology_list seasons hours,
      create_capacity_factor_tech db technology_list seasons hours = Ok db' ->
      rows_of "CapacityFactorTech" db' = Some rows ->
      Forall (fun r => in_unit_interval (column 4 r)) rows).
Proof.
  repeat apply conj.
  - intros segfrac seasons hours H R. unfold create_segfrac in H.
    apply bind_Ok in H. destruct H as (entries & _ & H).
    apply bind_Ok in H. destruct H as (db1 & Hx & H).
    pose proof (executemany_checked _ _ _ _ _ (execute_checked _ _ _ _ Hx) H)
      as Hc.
    pose proof (holds_checked_rows _ _ _ _ Hc R) as HF.
    eapply Forall_impl; [|exact HF].
    intros r Hr. now apply check_unit_interval_spec.
  - intros demand_list seasons hours H R.
    unfold create_demand_specific_distribution in H.
    apply bind_Ok in H. destruct H as (db1 & Hx & H).
    apply execute_checked in Hx.
    assert (holds_checked DemandSpecificDistribution_schema
                          "DemandSpecificDistribution" db') as Hc.
    { apply (foldM_checked _ _ (fun db => db) _ _) with (3 := H);
        [|exact Hx].
      intros dbA comm dbB HA HB.
      apply bind_Ok in HB. destruct HB as (st & Hst & HB). injection HB as <-.
      apply (foldM_checked _ _ fst _ _) with (3 := Hst); [|exact HA].
      intros [dbC it] [region data] [dbD it'] HC HD.
      unfold dsd_region in HD. simpl in HD.
      destruct (zip_iter data it) as [pairs rest].
      apply bind_Ok in HD. destruct HD as (entry & _ & HD).
      apply bind_Ok in HD. destruct HD as (dbE & HE & HD).
      injection HD as <- <-. simpl in *.
      eapply executemany_checked; eauto. }
    pose proof (holds_checked_rows _ _ _ _ Hc R) as HF.
    eapply Forall_impl; [|exact HF].
    intros r Hr. now apply check_unit_interval_spec.
  - intros technology_list future H R. unfold create_efficiency in H.
    apply bind_Ok in H. destruct H as (entries & _ & H).
    apply bind_Ok in H. destruct H as (db1 & Hx & H).
    pose proof (executemany_checked _ _ _ _ _ (execute_checked _ _ _ _ Hx) H)
      as Hc.
    pose proof (holds_checked_rows _ _ _ _ Hc R) as HF.
    eapply Forall_impl; [|exact HF].
    intros r Hr. now apply check_positive_spec.
  - intros technology_list seasons hours H R.
    unfold create_capacity_factor_tech in H.
    apply bind_Ok in H. destruct H as (db1 & Hx & H).
    apply execute_checked in Hx.
    assert (holds_checked CapacityFactorTech_schema
                          "CapacityFactorTech" db') as Hc.
    { apply (foldM_checked _ _ (fun db => db) _ _) with (3 := H);
        [|exact Hx].
      intros dbA tech dbB HA HB.
      apply bind_Ok in HB. destruct HB as (st & Hst & HB). injection HB as <-.
      apply (foldM_checked _ _ fst _ _) with (3 := Hst); [|exact HA].
      intros [dbC it] [place data] [dbD it'] HC HD.
      unfold cft_region in HD. simpl in HD.
      destruct (zip_iter (cf_values seasons hours data) it) as [pairs rest].
      apply bind_Ok in HD. destruct HD as (entry & _ & HD).
      apply bind_Ok in HD. destruct HD as (dbE & HE & HD).
      injection HD as <- <-. simpl in *.
      eapply executemany_checked; eauto. }
    pose proof (holds_checked_rows _ _ _ _ Hc R) as HF.
    eapply Forall_impl; [|exact HF].
    intros r Hr. now apply check_unit_interval_spec.
Qed.

Lemma stored_values_respect_checks_witness :
  exists db' rows,
    create_capacity_factor_tech [] [plant (20 # 1) costs_2020_2030]
                                (season_labels 2) (hour_labels 1) = Ok db' /\
    rows_of "CapacityFactorTech" db' = Some rows /\
    Forall (fun r => in_unit_interval (column 4 r)) rows.
Proof.
  eexists. eexists. split; [reflexivity|]. split; [reflexivity|].
  eapply (proj2 (proj2 (proj2 (stored_values_respect_checks [] _ _)))
                [plant (20 # 1) costs_2020_2030]
                (season_labels 2) (hour_labels 1));
    reflexivity.
Defined.

(** ** PlanningReserveMargin and tech_reserve *)

Lemma combine_keys_values {K V : Type} (d : dict K V) :
  combine (keys d) (values d) = d.
Proof.
  induction d as [|[k v] d IH]; simpl; [reflexivity | now rewrite IH].
Qed.

Lemma dict_get_In {V : Type} (d : sdict V) (k : string) (v : V) :
  NoDup (keys d) -> (dict_get String.eqb k d = Some v <-> In (k, v) d).
Proof.
  induction d as [|[k' v'] d IH]; simpl; intros Hnd.
  - split; [discriminate | contradiction].
  - inversion Hnd as [|? ? Hnotin Hnd']; subst.
    destruct (String.eqb k k') eqn:E.
    + apply String.eqb_eq in E. subst k'. split.
      * intros [= ->]. now left.
      * intros [[= ->]|Hin]; [reflexivity|].
        exfalso. apply Hnotin. apply in_map_iff. now exists (k, v).
    + apply String.eqb_neq in E. rewrite (IH Hnd'). split; [now right|].
      intros [[= -> ->]|Hin]; [contradiction | exact Hin].
Qed.

(** For a margin map with pairwise different regions and a store without
    the table, PlanningReserveMargin is written with one row per region, and
    looking a region up in the map gives a margin exactly when the row
    (region, margin) is in the table. *)
Theorem reserve_margin_rows (db : database) (prm : sdict Q) :
  lookup_table "PlanningReserveMargin" db = None ->
  NoDup (keys prm) ->
  exists db' rows,
    create_reserve_margin db prm = Ok db' /\
    rows_of "PlanningReserveMargin" db' = Some rows /\
    length rows = length prm /\
    (forall place margin,
        sget prm place = Ok margin <-> In [VText place; VReal margin] rows).
Proof.
  intros L Hnd. unfold create_reserve_margin. rewrite combine_keys_values.
  destruct (create_ok "PlanningReserveMargin" PlanningReserveMargin_schema
              (map (fun pm => [VText (fst pm); VReal (snd pm)]) prm) db L)
    as (db' & H & R).
  { apply insert_fresh_iff; [discriminate | |].
    - apply Forall_forall. intros r Hr. apply in_map_iff in Hr.
      destruct Hr as (pm & <- & _). repeat constructor.
    - split; [apply Forall_forall; reflexivity|].
      rewrite map_map. unfold key_of. simpl.
      change (NoDup (map (fun x : string * Q => [VText (fst x)]) prm)).
      rewrite <- (map_map fst (fun k => [VText k])).
      apply Injective_map_NoDup; [|exact Hnd].
      intros x y E. now injection E. }
  exists db', (map (fun pm => [VText (fst pm); VReal (snd pm)]) prm).
  split; [exact H|]. split; [exact R|]. split; [apply length_map|].
  intros place margin. unfold sget, getitem. split.
  - destruct (dict_get String.eqb place prm) as [m|] eqn:E; [|discriminate].
    intros [= ->]. apply (dict_get_In prm place margin Hnd) in E.
    apply in_map_iff. now exists (place, margin).
  - intros Hin. apply in_map_iff in Hin.
    destruct Hin as ([p m] & [= -> ->] & Hin).
    apply (dict_get_In prm place margin Hnd) in Hin. now rewrite Hin.
Qed.

Lemma reserve_margin_rows_witness :
  exists db' rows,
    create_reserve_margin [] [("R1", 15 # 100); ("R2", 10 # 100)] = Ok db' /\
    rows_of "PlanningReserveMargin" db' = Some rows /\
    length rows = 2%nat /\
    (forall place margin,
        sget [("R1", 15 # 100); ("R2", 10 # 100)] place = Ok margin <->
        In [VText place; VReal margin] rows).
Proof.
  apply (reserve_margin_rows [] [("R1", 15 # 100); ("R2", 10 # 100)]).
  - reflexivity.
  - repeat constructor; simpl; intuition discriminate.
Defined.

(** tech_reserve lists the technologies flagged as reserve technologies and
    no other: on a store without the table the call succeeds exactly when
    the flagged technologies have pairwise different names, and then the
    rows are their names in the order of the list; two flagged technologies
    of one name raise IntegrityError. *)
Theorem tech_reserve_rows (db : database)
    (technology_list : list Technology.t) :
  lookup_table "tech_reserve" db = None ->
  (NoDup (map tech_name (filter reserve_tech technology_list)) ->
   exists db',
     create_tech_reserve db technology_list = Ok db' /\
     rows_of "tech_reserve" db' =
       Some (map (fun tech => [VText (tech_name tech); VText ""])
                 (filter reserve_tech technology_list))) /\
  (~ NoDup (map tech_name (filter reserve_tech technology_list)) ->
   create_tech_reserve db technology_list = Raise IntegrityError).
Proof.
  intros L. unfold create_tech_reserve.
  pose proof (create_outcome "tech_reserve" tech_reserve_schema
                (map (fun tech => [VText (tech_name tech); VText ""])
                     (filter reserve_tech technology_list)) db
                ltac:(discriminate)) as H.
  rewrite L in H. destruct H as [Hok Hfail].
  { apply Forall_forall. intros r Hr. apply in_map_iff in Hr.
    destruct Hr as (tech & <- & _). repeat constructor. }
  assert (NoDup (map (key_of tech_reserve_schema)
                     (map (fun tech => [VText (tech_name tech); VText ""])
                          (filter reserve_tech technology_list)))
          <-> NoDup (map tech_name (filter reserve_tech technology_list)))
    as Hnd.
  { rewrite map_map. unfold key_of. simpl.
    change (NoDup (map (fun x => [VText (tech_name x)])
                       (filter reserve_tech technology_list))
            <-> NoDup (map tech_name (filter reserve_tech technology_list))).
    rewrite <- (map_map tech_name (fun n => [VText n])).
    apply NoDup_map_iff. intros x y E. now injection E. }
  split.
  - intros Hn. apply Hok. split; [apply Forall_forall; reflexivity|].
    now apply Hnd.
  - intros Hn. apply Hfail. intros [_ H]. now apply Hn, Hnd.
Qed.

Lemma tech_reserve_rows_witness :
  exists db',
    create_tech_reserve [] [free_plant; plant_built_2020;
                            plant (20 # 1) costs_2020_2030] = Ok db' /\
    rows_of "tech_reserve" db' =
      Some [[VText "NEW"; VText ""]; [VText "PLANT"; VText ""]].
Proof.
  apply (proj1 (tech_reserve_rows [] [free_plant; plant_built_2020;
                                      plant (20 # 1) costs_2020_2030]
                                  eq_refl)).
  repeat constructor; simpl; intuition discriminate.
Defined.

(** ** One table per builder, created once *)

Lemma execute_touch (name : string) (sch : schema) (db db' : database) :
  execute name sch db = Ok db' ->
  has_table name db' /\ only_touches name db db'.
Proof.
  intros H. split.
  - apply execute_checked in H. destruct H as (t & L & _).
    unfold has_table. now rewrite L.
  - intros other Hne. now apply (execute_frame name other sch).
Qed.

Lemma execute_exists (name : string) (sch : schema) (db : database) :
  has_table name db -> execute name sch db = Raise OperationalError.
Proof.
  unfold has_table, execute.
  destruct (lookup_table name db); [reflexivity | contradiction].
Qed.

Lemma executemany_keeps (name target : string) (entries : list row)
    (db db' : database) :
  executemany target entries db = Ok db' ->
  (has_table name db -> has_table name db') /\ only_touches target db db'.
Proof.
  intros H. split.
  - unfold has_table. destruct (String.eqb name target) eqn:E.
    + apply String.eqb_eq in E. subst target. intros _.
      apply executemany_rows in H. destruct H as (t & _ & L). now rewrite L.
    + apply String.eqb_neq in E.
      now rewrite (executemany_frame _ _ _ _ _ E H).
  - intros other Hne. now apply (executemany_frame target other entries).
Qed.

Lemma foldM_keeps {A S : Type} (name : string) (proj : S -> database)
    (f : S -> A -> result S) (l : list A) :
  (forall s a s', f s a = Ok s' ->
                  (has_table name (proj s) -> has_table name (proj s')) /\
                  only_touches name (proj s) (proj s')) ->
  forall s s', foldM f s l = Ok s' ->
               (has_table name (proj s) -> has_table name (proj s')) /\
               only_touches name (proj s) (proj s').
Proof.
  intros Hf. induction l as [|a l IH]; simpl; intros s s' H.
  - injection H as <-. split; [auto | intros other _; reflexivity].
  - apply bind_Ok in H. destruct H as (s1 & H1 & H).
    destruct (Hf _ _ _ H1) as [Ha Ho]. destruct (IH _ _ H) as [Ha' Ho'].
    split; [auto|]. intros other Hne. rewrite (Ho' other Hne). auto.
Qed.

(** A builder that computes its rows, creates the table and inserts. *)
Lemma builds_from_entries (name : string) (sch : schema)
    (entries : result (list row)) :
  builds name (fun db => e <- entries ;;
                         db1 <- execute name sch db ;;
                         executemany name e db1).
Proof.
  intros db. split.
  - intros db' H. apply bind_Ok in H. destruct H as (e & _ & H).
    apply bind_Ok in H. destruct H as (db1 & Hx & H).
    destruct (execute_touch _ _ _ _ Hx) as [Ht Ho].
    destruct (executemany_keeps name name _ _ _ H) as [Ht' Ho'].
    split; [auto|]. intros other Hne. rewrite (Ho' other Hne). auto.
  - intros Ht db' H. apply bind_Ok in H. destruct H as (e & _ & H).
    rewrite (execute_exists _ _ _ Ht) in H. discriminate.
Qed.

(** A builder that creates the table and inserts in a loop. *)
Lemma builds_from_loop {A : Type} (name : string) (sch : schema)
    (f : database -> A -> result database) (l : list A) :
  (forall db a db', f db a = Ok db' ->
                    (has_table name db -> has_table name db') /\
                    only_touches name db db') ->
  builds name (fun db => db1 <- execute name sch db ;; foldM f db1 l).
Proof.
  intros Hf db. split.
  - intros db' H. apply bind_Ok in H. destruct H as (db1 & Hx & H).
    destruct (execute_touch _ _ _ _ Hx) as [Ht Ho].
    destruct (foldM_keeps name (fun db => db) f l Hf _ _ H) as [Ht' Ho'].
    split; [auto|]. intros other Hne. rewrite (Ho' other Hne). auto.
  - intros Ht db' H. rewrite (execute_exists _ _ _ Ht) in H. discriminate.
Qed.

Lemma slice_loop_keeps {A D : Type} (name : string)
    (f : A -> database * list time_slice -> string * D ->
         result (database * list time_slice))
    (start : list time_slice) (regions_of : A -> list (string * D)) :
  (forall a st pd st', f a st pd = Ok st' ->
                       exists entry, executemany name entry (fst st)
                                     = Ok (fst st')) ->
  forall db a db',
    (st <- foldM (f a) (db, start) (regions_of a) ;; Ok (fst st)) = Ok db' ->
    (has_table name db -> has_table name db') /\ only_touches name db db'.
Proof.
  intros Hf db a db' H.
  apply bind_Ok in H. destruct H as (st & Hst & H). injection H as <-.
  apply (foldM_keeps name fst (f a) (regions_of a)) with (s := (db, start));
    [|exact Hst].
  intros s pd s' Hs. destruct (Hf _ _ _ _ Hs) as (entry & He).
  now apply (executemany_keeps name name entry).
Qed.

(** Every builder creates its own table and nothing else: after a
    successful call the table exists and all other tables are as before,
    and on a store that already holds the table the call never succeeds, so
    a second build into the same store fails. *)
Theorem builders_create_their_table_once :
  (forall N, builds "time_season"
               (fun db => r <- create_time_season db N ;; Ok (fst r))) /\
  (forall N, builds "time_of_day"
               (fun db => r <- create_time_of_day db N ;; Ok (fst r))) /\
  builds "time_period_labels" create_time_period_labels /\
  (forall future existing,
      builds "time_periods"
             (fun db => create_time_periods db future existing)) /\
  (forall segfrac seasons hours,
      builds "SegFrac" (fun db => create_segfrac db segfrac seasons hours)) /\
  (forall names, builds "regions" (fun db => create_regions db names)) /\
  (forall names, builds "sector_labels" (fun db => create_sectors db names)) /\
  (forall demand_list years,
      builds "Demand" (fun db => create_demand_table db demand_list years)) /\
  (forall demand_list seasons hours,
      builds "DemandSpecificDistribution"
             (fun db => create_demand_specific_distribution
                          db demand_list seasons hours)) /\
  (forall techs future,
      builds "Efficiency" (fun db => create_efficiency db techs future)) /\
  (forall techs,
      builds "LifetimeTech" (fun db => create_lifetime_tech db techs)) /\
  (forall techs horizon,
      builds "CostVariable" (fun db => create_variable_cost db techs horizon)) /\
  (forall techs horizon,
      builds "CostFixed" (fun db => create_fixed_cost db techs horizon)) /\
  (forall techs horizon,
      builds "CostInvest" (fun db => create_invest_cost db techs horizon)) /\
  (forall techs seasons hours,
      builds "CapacityFactorTech"
             (fun db => create_capacity_factor_tech db techs seasons hours)) /\
  (forall prm,
      builds "PlanningReserveMargin" (fun db => create_reserve_margin db prm)) /\
  (forall techs,
      builds "tech_reserve" (fun db => create_tech_reserve db techs)).
Proof.
  repeat apply conj.
  - intros N db.
    destruct (builds_from_entries "time_season" time_season_schema
                (Ok (map (map VText) (season_labels N))) db) as [H1 H2].
    split.
    + intros db' H. apply bind_Ok in H. destruct H as ([db1 s] & Hr & H).
      injection H as <-. unfold create_time_season in Hr. cbv zeta in Hr.
      rewrite <- bind_assoc in Hr.
      apply bind_Ok in Hr. destruct Hr as (db2 & Hr & E). injection E as <- _.
      apply H1. exact Hr.
    + intros Ht db' H. apply bind_Ok in H. destruct H as ([db1 s] & Hr & H).
      injection H as <-. unfold create_time_season in Hr. cbv zeta in Hr.
      rewrite <- bind_assoc in Hr.
      apply bind_Ok in Hr. destruct Hr as (db2 & Hr & E). injection E as <- _.
      apply (H2 Ht db2). exact Hr.
  - intros N db.
    destruct (builds_from_entries "time_of_day" time_of_day_schema
                (Ok (map (map VText) (hour_labels N))) db) as [H1 H2].
    split.
    + intros db' H. apply bind_Ok in H. destruct H as ([db1 s] & Hr & H).
      injection H as <-. unfold create_time_of_day in Hr. cbv zeta in Hr.
      rewrite <- bind_assoc in Hr.
      apply bind_Ok in Hr. destruct Hr as (db2 & Hr & E). injection E as <- _.
      apply H1. exact Hr.
    + intros Ht db' H. apply bind_Ok in H. destruct H as ([db1 s] & Hr & H).
      injection H as <-. unfold create_time_of_day in Hr. cbv zeta in Hr.
      rewrite <- bind_assoc in Hr.
      apply bind_Ok in Hr. destruct Hr as (db2 & Hr & E). injection E as <- _.
      apply (H2 Ht db2). exact Hr.
  - exact (builds_from_entries "time_period_labels" time_period_labels_schema
             (Ok [[VText "e"; VText "existing vintages"];
                  [VText "f"; VText "future vintages"]])).
  - intros future existing db.
    destruct (builds_from_entries "time_periods" time_periods_schema
                (time_periods_entries future existing) db) as [H1 H2].
    assert (forall db',
               create_time_periods db future existing = Ok db' ->
               (e <- time_periods_entries future existing ;;
                db1 <- execute "time_periods" time_periods_schema db ;;
                executemany "time_periods" e db1) = Ok db') as Hc.
    { intros db' H. unfold create_time_periods in H.
      apply bind_Ok in H. destruct H as (e & E & H). rewrite E. simpl.
      apply create_bound in H. exact (proj1 H). }
    split.
    + intros db' H. apply H1, Hc, H.
    + intros Ht db' H. apply (H2 Ht db'), Hc, H.
  - intros segfrac seasons hours.
    exact (builds_from_entries "SegFrac" SegFrac_schema
             (SegFrac_entries segfrac seasons hours)).
  - intros names.
    exact (builds_from_entries "regions" regions_schema
             (Ok (map (fun r => [VText r; VText ""]) names))).
  - intros names.
    exact (builds_from_entries "sector_labels" sector_labels_schema
             (Ok (map (fun s => [VText s]) names))).
  - intros demand_list years. apply builds_from_loop.
    intros db c db' H.
    apply (foldM_keeps "Demand" (fun db => db) _ _) with (2 := H).
    intros dbA rd dbB HA. now apply (executemany_keeps "Demand" "Demand") in HA.
  - intros demand_list seasons hours. apply builds_from_loop.
    intros db comm db' H.
    apply (slice_loop_keeps "DemandSpecificDistribution"
             (fun comm => dsd_region comm) (list_prod hours seasons)
             Commodity.distribution) with (2 := H).
    intros a [dbA it] [region data] st' Hs.
    unfold dsd_region in Hs. simpl in Hs.
    destruct (zip_iter data it) as [pairs rest].
    apply bind_Ok in Hs. destruct Hs as (entry & _ & Hs).
    apply bind_Ok in Hs. destruct Hs as (dbB & HB & Hs).
    injection Hs as <-. exists entry. exact HB.
  - intros techs future.
    exact (builds_from_entries "Efficiency" Efficiency_schema
             (Efficiency_entries techs future)).
  - intros techs.
    exact (builds_from_entries "LifetimeTech" LifetimeTech_schema
             (LifetimeTech_entries techs)).
  - intros techs horizon.
    exact (builds_from_entries "CostVariable" Cost_schema
             (Cost_entries cost_variable techs horizon)).
  - intros techs horizon.
    exact (builds_from_entries "CostFixed" Cost_schema
             (Cost_entries cost_fixed techs horizon)).
  - intros techs horizon.
    exact (builds_from_entries "CostInvest" CostInvest_schema
             (CostInvest_entries techs horizon)).
  - intros techs seasons hours. apply builds_from_loop.
    intros db tech db' H.
    apply (slice_loop_keeps "CapacityFactorTech"
             (fun tech => cft_region tech seasons hours)
             (list_prod hours seasons) capacity_factor_tech) with (2 := H).
    intros a [dbA it] [place data] st' Hs.
    unfold cft_region in Hs. simpl in Hs.
    destruct (zip_iter (cf_values seasons hours data) it) as [pairs rest].
    apply bind_Ok in Hs. destruct Hs as (entry & _ & Hs).
    apply bind_Ok in Hs. destruct Hs as (dbB & HB & Hs).
    injection Hs as <-. exists entry. exact HB.
  - intros prm db.
    destruct (builds_from_entries "PlanningReserveMargin"
                PlanningReserveMargin_schema
                (Ok (map (fun pm => [VText (fst pm); VReal (snd pm)])
                         (combine (keys prm) (values prm)))) db) as [H1 H2].
    split; [intros db' H; now apply H1 | intros Ht db' H; now apply (H2 Ht db')].
  - intros techs db.
    destruct (builds_from_entries "tech_reserve" tech_reserve_schema
                (Ok (map (fun tech => [VText (tech_name tech); VText ""])
                         (filter reserve_tech techs))) db) as [H1 H2].
    split; [intros db' H; now apply H1 | intros Ht db' H; now apply (H2 Ht db')].
Qed.

Lemma builders_create_their_table_once_witness :
  exists db',
    create_regions [] ["R1"] = Ok db' /\
    (has_table "regions" db' /\ only_touches "regions" [] db') /\
    forall db'', create_regions db' ["R2"] <> Ok db''.
Proof.
  eexists. split; [reflexivity|].
  destruct builders_create_their_table_once
    as (_ & _ & _ & _ & _ & Hregions & _).
  split.
  - apply (proj1 (Hregions ["R1"] [])). reflexivity.
  - apply (proj2 (Hregions ["R2"] _)). discriminate.
Defined.

(** ** Demand: many inserts, one outcome *)

Lemma insert_seq (sch : schema) (a b : list row) :
  forall old,
    insert sch old (a ++ b) = (rows <- insert sch old a ;; insert sch rows b).
Proof.
  induction a as [|r a IH]; simpl; intros old; [reflexivity|].
  destruct (sch_check sch r && negb (key_mem sch r old)); [apply IH|reflexivity].
Qed.

Lemma set_table_twice (name : string) (t1 t2 : table) (db : database) :
  set_table name t2 (set_table name t1 db) = set_table name t2 db.
Proof.
  induction db as [|[n t] db IH]; simpl; [reflexivity|].
  destruct (String.eqb name n) eqn:E; simpl; rewrite E; [reflexivity|].
  now rewrite IH.
Qed.

Lemma executemany_seq (name : string) (a b : list row) (db : database) :
  executemany name (a ++ b) db =
  (db1 <- executemany name a db ;; executemany name b db1).
Proof.
  unfold executemany. destruct (lookup_table name db) as [t|] eqn:L;
    [|reflexivity].
  rewrite insert_seq. destruct (insert (tbl_schema t) (tbl_rows t) a)
    as [rows|e]; simpl; [|reflexivity].
  rewrite (lookup_set_table _ _ _ _ L). simpl.
  destruct (insert (tbl_schema t) rows b); simpl; [|reflexivity].
  now rewrite set_table_twice.
Qed.

Lemma foldM_one_insert {A : Type} (name : string) (g : A -> list row)
    (f : database -> A -> result database) :
  (forall db a t, lookup_table name db = Some t ->
                  f db a = executemany name (g a) db) ->
  forall l db t,
    lookup_table name db = Some t ->
    foldM f db l = executemany name (flat_map g l) db.
Proof.
  intros Hf. induction l as [|a l IH]; simpl; intros db t L.
  - symmetry. now apply (executemany_nil name t).
  - rewrite executemany_seq, (Hf _ _ _ L).
    destruct (executemany name (g a) db) as [db1|e] eqn:E; simpl;
      [|reflexivity].
    apply executemany_rows in E. destruct E as (t' & _ & L1). eauto.
Qed.

Lemma create_demand_table_bulk (db : database)
    (demand_list : list Commodity.t) (years : list Z) :
  create_demand_table db demand_list years =
  (db1 <- execute "Demand" Demand_schema db ;;
   executemany "Demand" (Demand_entries demand_list years) db1).
Proof.
  unfold create_demand_table.
  destruct (execute "Demand" Demand_schema db) as [db1|e] eqn:E; simpl;
    [|reflexivity].
  apply execute_checked in E. destruct E as (t & L & _).
  apply (foldM_one_insert "Demand"
           (fun c => flat_map (fun rd => Demand_entry c (fst rd) (snd rd) years)
                              (Commodity.demand c))) with (t := t);
    [|exact L].
  intros dbA c tA LA.
  now apply (foldM_one_insert "Demand"
               (fun rd => Demand_entry c (fst rd) (snd rd) years))
    with (t := tA).
Qed.

Lemma Demand_entries_exact (demand_list : list Commodity.t) (years : list Z) :
  Forall (exact_key Demand_schema) (Demand_entries demand_list years).
Proof.
  apply Forall_forall. intros r Hr. unfold Demand_entries in Hr.
  apply in_flat_map in Hr. destruct Hr as (c & _ & Hr).
  apply in_flat_map in Hr. destruct Hr as (rd & _ & Hr).
  unfold Demand_entry in Hr. apply in_map_iff in Hr.
  destruct Hr as (dy & <- & _). repeat constructor.
Qed.

(** The inserts of [create_demand_table], one per commodity and region, end
    as a single bulk insert of all the rows would: on a store without the
    table the call succeeds exactly when no key (region, period, commodity)
    is produced twice, and then the table holds the rows in the order of the
    loops; otherwise it raises IntegrityError. *)
Theorem demand_table_needs_distinct_keys (db : database)
    (demand_list : list Commodity.t) (years : list Z) :
  lookup_table "Demand" db = None ->
  (NoDup (map (key_of Demand_schema) (Demand_entries demand_list years)) ->
   exists db',
     create_demand_table db demand_list years = Ok db' /\
     rows_of "Demand" db' = Some (Demand_entries demand_list years)) /\
  (~ NoDup (map (key_of Demand_schema) (Demand_entries demand_list years)) ->
   create_demand_table db demand_list years = Raise IntegrityError).
Proof.
  intros L. rewrite create_demand_table_bulk.
  pose proof (create_outcome "Demand" Demand_schema
                (Demand_entries demand_list years) db
                ltac:(discriminate) (Demand_entries_exact demand_list years))
    as H.
  rewrite L in H. destruct H as [Hok Hfail]. split.
  - intros Hn. apply Hok. split; [apply Forall_forall; reflexivity | exact Hn].
  - intros Hn. apply Hfail. intros [_ H]. now apply Hn.
Qed.

Lemma demand_table_needs_distinct_keys_witness :
  (exists db',
      create_demand_table [] [elc] horizon = Ok db' /\
      rows_of "Demand" db' = Some (Demand_entries [elc] horizon)) /\
  create_demand_table [] [elc; elc] horizon = Raise IntegrityError.
Proof.
  split.
  - apply (proj1 (demand_table_needs_distinct_keys [] [elc] horizon eq_refl)).
    repeat constructor; simpl; intuition discriminate.
  - apply (proj2 (demand_table_needs_distinct_keys [] [elc; elc] horizon
                    eq_refl)).
    intros H. inversion H as [|? ? Hin _]; subst. apply Hin. simpl. auto.
Defined.

Lemma NoDup_flat_map {A B : Type} (f : A -> list B) (l : list A) :
  NoDup l ->
  (forall a, In a l -> NoDup (f a)) ->
  (forall a a' b, In a l -> In a' l -> In b (f a) -> In b (f a') -> a = a') ->
  NoDup (flat_map f l).
Proof.
  induction 1 as [|a l Ha Hl IH]; simpl; intros Hf Hd; [constructor|].
  apply NoDup_app.
  - apply Hf. now left.
  - apply IH; [intros; apply Hf; now right|].
    intros x y b Hx Hy. apply Hd; now right.
  - intros b Hb Hb'. apply in_flat_map in Hb'.
    destruct Hb' as (a' & Ha' & Hb'). apply Ha.
    assert (a = a') as -> by
        (apply (Hd a a' b); [now left | now right | exact Hb | exact Hb']).
    exact Ha'.
Qed.

Lemma NoDup_map_eq {A B : Type} (g : A -> B) (l : list A) (a a' : A) :
  NoDup (map g l) -> In a l -> In a' l -> g a = g a' -> a = a'.
Proof.
  induction l as [|x l IH]; simpl; intros Hnd Ha Ha' E; [contradiction|].
  inversion Hnd as [|? ? Hx Hnd']; subst.
  destruct Ha as [Ha|Ha]; destruct Ha' as [Ha'|Ha'].
  - congruence.
  - subst x. exfalso. apply Hx. rewrite E. now apply in_map.
  - subst x. exfalso. apply Hx. rewrite <- E. now apply in_map.
  - now apply IH.
Qed.

Lemma NoDup_firstn {A : Type} (n : nat) (l : list A) :
  NoDup l -> NoDup (firstn n l).
Proof.
  intros H. rewrite <- (firstn_skipn n l) in H.
  now apply NoDup_app_remove_r in H.
Qed.

Lemma Demand_entries_passes (demand_list : list Commodity.t) (years : list Z) :
  map (key_of Demand_schema) (Demand_entries demand_list years) =
  flat_map (fun p => map (key_of Demand_schema)
                         (Demand_entry (fst p) (fst (snd p)) (snd (snd p))
                                       years))
           (flat_map (fun c => map (pair c) (Commodity.demand c)) demand_list).
Proof.
  unfold Demand_entries.
  induction demand_list as [|c l IH]; simpl; [reflexivity|].
  rewrite map_app, flat_map_app, IH. f_equal.
  induction (Commodity.demand c) as [|rd d IHd]; simpl; [reflexivity|].
  now rewrite map_app, IHd.
Qed.

Lemma demand_series_passes (demand_list : list Commodity.t) :
  demand_series demand_list =
  map (fun p => (Commodity.comm_name (fst p), fst (snd p)))
      (flat_map (fun c => map (pair c) (Commodity.demand c)) demand_list).
Proof.
  unfold demand_series.
  induction demand_list as [|c l IH]; simpl; [reflexivity|].
  rewrite map_app, IH, map_map. reflexivity.
Qed.

(** With pairwise different years and each (commodity, region) series
    declared once, Demand is always written on a store without the table,
    whatever the lengths of the series. *)
Theorem demand_table_written (db : database)
    (demand_list : list Commodity.t) (years : list Z) :
  lookup_table "Demand" db = None ->
  NoDup years -> NoDup (demand_series demand_list) ->
  exists db',
    create_demand_table db demand_list years = Ok db' /\
    rows_of "Demand" db' = Some (Demand_entries demand_list years).
Proof.
  intros L Hy Hs. rewrite create_demand_table_bulk.
  apply create_ok; [exact L|].
  apply insert_fresh_iff;
    [discriminate | apply Demand_entries_exact |].
  split; [apply Forall_forall; reflexivity|].
  rewrite Demand_entries_passes. rewrite demand_series_passes in Hs.
  apply NoDup_flat_map.
  - now apply NoDup_map_inv in Hs.
  - intros [c [region data]] _. simpl. unfold Demand_entry.
    rewrite map_map. unfold key_of, column. simpl.
    change (NoDup (map (fun x : Q * Z =>
                          [VText region; VInt (snd x);
                           VText (Commodity.comm_name c)])
                       (combine data years))).
    rewrite <- (map_map snd (fun y => [VText region; VInt y;
                                       VText (Commodity.comm_name c)])).
    apply Injective_map_NoDup; [intros x y E; now injection E|].
    rewrite combine_snd_firstn. now apply NoDup_firstn.
  - intros [c [region data]] [c' [region' data']] k Hp Hp' Hk Hk'.
    apply (NoDup_map_eq _ _ _ _ Hs Hp Hp'). simpl in *.
    unfold Demand_entry in Hk, Hk'. rewrite map_map in Hk, Hk'.
    apply in_map_iff in Hk. destruct Hk as (dy & <- & _).
    apply in_map_iff in Hk'. destruct Hk' as (dy' & E & _).
    unfold key_of, column in E. simpl in E. now injection E as -> _ ->.
Qed.

Lemma demand_table_written_witness :
  exists db',
    create_demand_table [] [elc] horizon = Ok db' /\
    rows_of "Demand" db' = Some (Demand_entries [elc] horizon).
Proof.
  apply (demand_table_written [] [elc] horizon).
  - reflexivity.
  - repeat constructor; simpl; intuition lia.
  - repeat constructor; simpl; intuition discriminate.
Defined.

(** ** The driver: the name of the input file *)

Lemma rfind_nat_None (c : ascii) (p : path) :
  rfind_nat c p = None <-> ~ In c p.
Proof.
  induction p as [|a p IH]; simpl; [tauto|].
  destruct (rfind_nat c p) as [i|].
  - split; [discriminate|]. intros H. exfalso.
    assert (~ In c p) as Hp by tauto.
    apply IH in Hp. discriminate.
  - destruct (Ascii.eqb a c) eqn:E.
    + apply Ascii.eqb_eq in E. split; [discriminate | tauto].
    + apply Ascii.eqb_neq in E. split; [|reflexivity].
      intros _ [H|H]; [contradiction|]. now apply (proj1 IH).
Qed.

Lemma rfind_nat_after (c : ascii) (p : path) (i : nat) :
  rfind_nat c p = Some i -> ~ In c (skipn (S i) p).
Proof.
  revert i. induction p as [|a p IH]; simpl; intros i; [discriminate|].
  destruct (rfind_nat c p) as [j|] eqn:E.
  - intros [= <-]. now apply IH.
  - destruct (Ascii.eqb a c); [|discriminate].
    intros [= <-]. simpl. now apply rfind_nat_None.
Qed.

Lemma rfind_nat_last (c : ascii) (l1 l2 : path) :
  ~ In c l2 -> rfind_nat c (l1 ++ c :: l2) = Some (length l1).
Proof.
  intros H. induction l1 as [|a l1 IH]; simpl.
  - apply rfind_nat_None in H. rewrite H. now rewrite Ascii.eqb_refl.
  - now rewrite IH.
Qed.

Lemma skipn_past {A : Type} (l1 l2 : list A) (a : A) :
  skipn (S (length l1)) (l1 ++ a :: l2) = l2.
Proof. induction l1 as [|b l1 IH]; simpl; [reflexivity | exact IH]. Qed.

Lemma firstn_exact {A : Type} (l1 l2 : list A) :
  firstn (length l1) (l1 ++ l2) = l1.
Proof. induction l1 as [|b l1 IH]; simpl; [reflexivity | now rewrite IH]. Qed.

Lemma In_firstn {A : Type} (n : nat) (l : list A) (a : A) :
  In a (firstn n l) -> In a l.
Proof.
  intros H. rewrite <- (firstn_skipn n l). apply in_or_app. now left.
Qed.

Lemma basename_no_sep (p : path) : ~ In sep (basename p).
Proof.
  unfold basename, slice_from, rfind.
  destruct (rfind_nat sep p) as [i|] eqn:E.
  - replace (Z.to_nat (Z.of_nat i + 1)) with (S i) by lia.
    now apply rfind_nat_after.
  - simpl. now apply rfind_nat_None.
Qed.

Lemma basename_after_dir (pre rest : path) :
  pre = [] \/ (exists dir, pre = dir ++ [sep]) ->
  ~ In sep rest -> basename (pre ++ rest) = rest.
Proof.
  intros Hpre Hrest. unfold basename, slice_from, rfind.
  destruct Hpre as [-> | (dir & ->)].
  - simpl. apply rfind_nat_None in Hrest. now rewrite Hrest.
  - rewrite <- app_assoc. simpl. rewrite (rfind_nat_last sep dir rest Hrest).
    replace (Z.to_nat (Z.of_nat (length dir) + 1)) with (S (length dir)) by lia.
    apply skipn_past.
Qed.

Lemma meets_other_than_dot_true (chars : path) (c : ascii) :
  In c chars -> c <> extsep -> meets_other_than_dot chars = true.
Proof.
  intros Hin Hc. induction chars as [|a chars IH]; simpl; [contradiction|].
  destruct (Ascii.eqb a extsep) eqn:E; simpl; [|reflexivity].
  apply Ascii.eqb_eq in E. destruct Hin as [->|Hin]; [contradiction | auto].
Qed.

Lemma splitext_stem (stem ext : path) (c : ascii) :
  ~ In sep stem -> ~ In sep ext -> ~ In extsep ext ->
  In c stem -> c <> extsep ->
  splitext (stem ++ extsep :: ext) = (stem, extsep :: ext).
Proof.
  intros Hs He Hd Hc Hne. unfold splitext, rfind.
  assert (rfind_nat sep (stem ++ extsep :: ext) = None) as ->.
  { apply rfind_nat_None. intros H. apply in_app_or in H.
    destruct H as [H|[H|H]]; [tauto | discriminate H | tauto]. }
  rewrite (rfind_nat_last extsep stem ext Hd).
  assert ((Z.of_nat (length stem) >? -1)%Z = true) as ->
      by (apply Z.gtb_lt; lia).
  unfold slice, slice_to, slice_from.
  replace (Z.to_nat (Z.of_nat (length stem) - (-1 + 1))) with (length stem)
    by lia.
  replace (Z.to_nat (-1 + 1)) with 0%nat by lia.
  rewrite Nat2Z.id. simpl skipn at 1. rewrite firstn_exact.
  rewrite (meets_other_than_dot_true stem c Hc Hne). simpl.
  f_equal. clear. induction stem as [|a stem IH]; simpl; [reflexivity|exact IH].
Qed.

Lemma splitext_no_dot (name : path) :
  ~ In extsep name -> splitext name = (name, []).
Proof.
  intros H. unfold splitext, rfind. apply rfind_nat_None in H. rewrite H.
  destruct (rfind_nat sep name) as [i|]; simpl.
  - assert ((-1 >? Z.of_nat i)%Z = false) as ->
        by (rewrite Z.gtb_ltb; apply Z.ltb_ge; lia).
    reflexivity.
  - reflexivity.
Qed.

(** [name_from_path] returns a file name without directory and without its
    last extension: the result never contains a path separator; for a path
    made of an optional directory prefix, a stem with a character other than
    the dot and an extension free of dots, it is the stem; for a file name
    without any dot it is the file name; and the directory of the path is
    appended to [sys.path]. *)
Theorem name_from_path_is_the_stem (sys_path : list path) :
  (forall p, ~ In sep (snd (name_from_path sys_path p))) /\
  (forall pre stem ext c,
      pre = [] \/ (exists dir, pre = dir ++ [sep]) ->
      ~ In sep stem -> ~ In sep ext -> ~ In extsep ext ->
      In c stem -> c <> extsep ->
      snd (name_from_path sys_path (pre ++ stem ++ extsep :: ext)) = stem) /\
  (forall pre name,
      pre = [] \/ (exists dir, pre = dir ++ [sep]) ->
      ~ In sep name -> ~ In extsep name ->
      snd (name_from_path sys_path (pre ++ name)) = name) /\
  (forall p, fst (name_from_path sys_path p) = sys_path ++ [dirname p]).
Proof.
  repeat apply conj.
  - intros p. unfold name_from_path. simpl.
    pose proof (basename_no_sep p) as H. unfold splitext.
    destruct ((rfind extsep (basename p) >? rfind sep (basename p))%Z
              && meets_other_than_dot _); simpl; [|exact H].
    intros Hin. apply H. unfold slice_to in Hin. now apply In_firstn in Hin.
  - intros pre stem ext c Hpre Hs He Hd Hc Hne. unfold name_from_path. simpl.
    rewrite (basename_after_dir pre (stem ++ extsep :: ext) Hpre).
    + now rewrite (splitext_stem stem ext c).
    + intros H. apply in_app_or in H.
      destruct H as [H|[H|H]]; [tauto | discriminate H | tauto].
  - intros pre name Hpre Hs Hd. unfold name_from_path. simpl.
    rewrite (basename_after_dir pre name Hpre Hs).
    now rewrite splitext_no_dot.
  - reflexivity.
Qed.

Lemma name_from_path_is_the_stem_witness :
  snd (name_from_path [] (list_ascii_of_string "inputs/run1/model.py"))
  = list_ascii_of_string "model" /\
  snd (name_from_path [] (list_ascii_of_string "/abs/dir/model"))
  = list_ascii_of_string "model".
Proof.
  split.
  - apply (proj1 (proj2 (name_from_path_is_the_stem []))
                 (list_ascii_of_string "inputs/run1/")
                 (list_ascii_of_string "model")
                 (list_ascii_of_string "py") "m"%char).
    + right. exists (list_ascii_of_string "inputs/run1"). reflexivity.
    + simpl. intuition discriminate.
    + simpl. intuition discriminate.
    + simpl. intuition discriminate.
    + simpl. auto.
    + discriminate.
  - apply (proj1 (proj2 (proj2 (name_from_path_is_the_stem [])))
                 (list_ascii_of_string "/abs/dir/")
                 (list_ascii_of_string "model")).
    + right. exists (list_ascii_of_string "/abs/dir"). reflexivity.
    + simpl. intuition discriminate.
    + simpl. intuition discriminate.
Defined.
